(** * Explore feed composition and preference profiles of the thrift-store
      backend: a shallow embedding of [routes/explore.ts], [routes/auth.ts]
      (its [parseOnboardingAnswers]) and the [User] / [Shop] schemas.

    The document store is an in-memory catalog (shops in insertion order) and a
    list of user documents; a repository read may fail, and [$sample] draws
    from an explicit stream of random numbers.  Route handlers are written in
    a small state-and-exception monad and return the JSON response. *)

From Stdlib Require Import QArith ZArith Lia Ascii.
From stdpp Require Import base option list strings.

Set Warnings "-register-all,-clear-no-such-hyp".
Open Scope string_scope.
Open Scope list_scope.

(* ===================================================================== *)
(** ** JavaScript values and property lookup                              *)
(* ===================================================================== *)

Module Js.

(** The values a parsed JSON body can hold ([unknown] in the TypeScript
    signatures). *)
Inductive jsval :=
| JUndefined
| JNull
| JBool (b : bool)
| JNum (q : Q)
| JStr (s : string)
| JArr (l : list jsval)
| JObj (fields : list (string * jsval)).

(** [if (v)]: JavaScript truthiness. *)
Definition truthy (v : jsval) : bool :=
  match v with
  | JUndefined | JNull => false
  | JBool b => b
  | JNum q => negb (Qeq_bool q 0)
  | JStr s => negb (String.eqb s "")
  | JArr _ | JObj _ => true
  end.

(** [a || b] on values. *)
Definition jsOr (a b : jsval) : jsval := if truthy a then a else b.

Fixpoint assoc {V} (k : string) (l : list (string * V)) : option V :=
  match l with
  | [] => None
  | (k', v) :: r => if String.eqb k k' then Some v else assoc k r
  end.

(** [obj.key] for one of the keys the routes read from a request body: the
    property of a parsed JSON object ([JObj] lists its properties, keys
    distinct), [undefined] when it is missing or when [obj] is not an
    object. *)
Definition getField (obj : jsval) (k : string) : jsval :=
  match obj with
  | JObj fields => default JUndefined (assoc k fields)
  | _ => JUndefined
  end.

(** Whether turning a value into a string throws.  The objects of a parsed
    body hold no function: one with an own [toString] property has no method
    left to convert it ([Object.prototype.valueOf] returns the object itself),
    and the conversion ends in a [TypeError].  An array converts each of its
    elements other than [null] and [undefined]. *)
Fixpoint stringThrows (v : jsval) : bool :=
  match v with
  | JObj fields => bool_decide (is_Some (assoc "toString" fields))
  | JArr l => existsb stringThrows l
  | _ => false
  end.

(** What using a value as a property key ([tbl[v]]) comes to: the key; a key
    that is a numeral or that contains a comma (a number, an array of two or
    more elements), which names no property of the tables of this program nor
    of [Object.prototype]; or the [TypeError] of the conversion. *)
Inductive PropertyKey :=
| Key (k : string)
| NoSuchKey
| KeyTypeError.

Fixpoint toKey (v : jsval) : PropertyKey :=
  match v with
  | JUndefined => Key "undefined"
  | JNull => Key "null"
  | JBool true => Key "true"
  | JBool false => Key "false"
  | JNum _ => NoSuchKey
  | JStr s => Key s
  | JArr [] => Key ""
  | JArr [JUndefined] | JArr [JNull] => Key ""
  | JArr [x] => toKey x
  | JArr l => if existsb stringThrows l then KeyTypeError else NoSuchKey
  | JObj fields =>
    if bool_decide (is_Some (assoc "toString" fields)) then KeyTypeError
    else Key "[object Object]"
  end.

(** What [tbl[key]] evaluates to for an object literal [tbl] whose own
    properties are arrays of strings: an own array, a member inherited from
    [Object.prototype] (a function, with its [length], or the prototype object
    itself for [__proto__]), or [undefined]. *)
Inductive jsProp :=
| PArray (l : list string)
| PFunction (arity : nat)
| PObject
| PUndefined.

(** The members every object literal inherits; [Some n] is a function whose
    [length] is [n], [None] the accessor [__proto__], which reads
    [Object.prototype]. *)
Definition Object_prototype : list (string * option nat) :=
  [ ("constructor", Some 1%nat);
    ("__defineGetter__", Some 2%nat);
    ("__defineSetter__", Some 2%nat);
    ("hasOwnProperty", Some 1%nat);
    ("__lookupGetter__", Some 1%nat);
    ("__lookupSetter__", Some 1%nat);
    ("isPrototypeOf", Some 1%nat);
    ("propertyIsEnumerable", Some 1%nat);
    ("toString", Some 0%nat);
    ("valueOf", Some 0%nat);
    ("__proto__", None);
    ("toLocaleString", Some 0%nat) ].

Definition inherited (k : string) : jsProp :=
  match assoc k Object_prototype with
  | Some (Some n) => PFunction n
  | Some None => PObject
  | None => PUndefined
  end.

(** [tbl[k]]: own properties first, then the prototype. *)
Definition getProp (tbl : list (string * list string)) (k : string) : jsProp :=
  match assoc k tbl with
  | Some l => PArray l
  | None => inherited k
  end.

(** [[...new Set(l)]]: duplicates dropped, first occurrences kept in order. *)
Fixpoint uniq (seen l : list string) : list string :=
  match l with
  | [] => []
  | x :: r => if bool_decide (x ∈ seen) then uniq seen r else x :: uniq (x :: seen) r
  end.

End Js.
Export Js.

(* ===================================================================== *)
(** ** A stable sort, as the store's [sort] is modelled                    *)
(* ===================================================================== *)

Section StableSort.
Context {A : Type}.
(** [before a b]: [a] must come strictly earlier than [b]. *)
Variable before : A -> A -> bool.

Fixpoint insert_sorted (x : A) (l : list A) : list A :=
  match l with
  | [] => [x]
  | y :: l' => if before y x then y :: insert_sorted x l' else x :: y :: l'
  end.

(** Modelled from the spec: the order in which the store's [sort] returns
    documents that tie on every sort key.  The store is not part of the
    repository; its contract in the specification asks for a stable sort,
    ties keeping catalog (insertion) order.  Insertion from the right:
    equal elements keep their input order. *)
Definition stable_sort (l : list A) : list A := foldr insert_sorted [] l.
End StableSort.

(** A three-way comparison that orders its domain: antisymmetric, transitive,
    and with [Eq] a congruence. *)
Record OrderCmp {A} (c : A → A → comparison) : Prop := {
  cmp_sym : ∀ a b, c b a = CompOpp (c a b);
  cmp_lt_trans : ∀ a b d, c a b = Lt → c b d = Lt → c a d = Lt;
  cmp_eq_cong : ∀ a b d, c a b = Eq → c a d = c b d
}.

(** [a] stands at an earlier position of [l] than [b]. *)
Definition precedes {A} (a b : A) (l : list A) : Prop :=
  ∃ i j, (i < j)%nat ∧ l !! i = Some a ∧ l !! j = Some b.

(* ===================================================================== *)
(** ** The document store: shops, queries, sort orders, sampling           *)
(* ===================================================================== *)

Module Mongo.

Definition ObjectId := N.

Record ILocation := { loc_id : string; loc_label : string }.

(** [IShop] of [models/Shop.ts]; [rating] and [reviewCount] are optional
    numbers, [createdAt] is the timestamp in milliseconds. *)
Record IShop := {
  _id : ObjectId;
  name : string;
  slug : string;
  tag : string;
  desc : string;
  location : ILocation;
  rating : option Q;
  reviewCount : option Q;
  specialties : list string;
  isActive : bool;
  createdAt : Z
}.

(** A filter document: [{ isActive: true, "location.id": {$in}, tag: {$in},
    _id: {$nin} }], each condition optional but the first.  The operand of
    [tag: {$in}] is whatever a table lookup returned: an array of strings, or
    an inherited member. *)
Record Query := {
  q_location : option (list string);
  q_tag : option jsProp;
  q_nin : option (list ObjectId)
}.

(** The filter once its operands are arrays. *)
Record CastQuery := {
  c_location : option (list string);
  c_tag : option (list string);
  c_nin : option (list ObjectId)
}.

Definition activeOnly : Query :=
  {| q_location := None; q_tag := None; q_nin := None |}.

Definition active : CastQuery :=
  {| c_location := None; c_tag := None; c_nin := None |}.

Definition inOpt {K} `{EqDecision K} (x : K) (o : option (list K)) : bool :=
  match o with None => true | Some l => bool_decide (x ∈ l) end.

Definition ninOpt {K} `{EqDecision K} (x : K) (o : option (list K)) : bool :=
  match o with None => true | Some l => negb (bool_decide (x ∈ l)) end.

Definition matches (q : CastQuery) (s : IShop) : bool :=
  isActive s && inOpt (loc_id (location s)) (c_location q)
             && inOpt (tag s) (c_tag q)
             && ninOpt (_id s) (c_nin q).

(** Sort documents: a list of (field, direction), [-1] being descending. *)
Inductive SortField := ByRating | ByReviewCount | ByCreatedAt.
Inductive Direction := Asc | Desc.

Definition fieldValue (f : SortField) (s : IShop) : option Q :=
  match f with
  | ByRating => rating s
  | ByReviewCount => reviewCount s
  | ByCreatedAt => Some (inject_Z (createdAt s))
  end.

(** Order of field values: a missing value is lower than every number. *)
Definition cmpValue (a b : option Q) : comparison :=
  match a, b with
  | None, None => Eq
  | None, Some _ => Lt
  | Some _, None => Gt
  | Some x, Some y => Qcompare x y
  end.

Definition cmpField (fd : SortField * Direction) (a b : IShop) : comparison :=
  let c := cmpValue (fieldValue fd.1 a) (fieldValue fd.1 b) in
  match fd.2 with Asc => c | Desc => CompOpp c end.

(** [higher x y]: [x] is greater than [y]; [same x y]: they are equal. *)
Definition higher (x y : option Q) : Prop := cmpValue x y = Gt.
Definition same (x y : option Q) : Prop := cmpValue x y = Eq.

(** [Lt]: [a] sorts first. *)
Fixpoint cmpSpec (spec : list (SortField * Direction)) (a b : IShop) : comparison :=
  match spec with
  | [] => Eq
  | fd :: r => match cmpField fd a b with Eq => cmpSpec r a b | c => c end
  end.

Definition sortsBefore (spec : list (SortField * Direction)) (a b : IShop) : bool :=
  match cmpSpec spec a b with Lt => true | _ => false end.

(** [Shop.find(q).sort(spec)]: the complete ranking of the documents the
    filter lets through, in the order of the sort document. *)
Definition ranking (catalog : list IShop) (q : CastQuery)
    (spec : list (SortField * Direction)) : list IShop :=
  stable_sort (sortsBefore spec) (filter (λ s, matches q s) catalog).

(** A document as [Shop.find] hands it over: the store sorts and filters the
    documents as stored, and the schema then fills the defaults in, of which
    [reviewCount: { default: 0 }] is the one a stored [IShop] can lack.
    ([Shop.aggregate] hands the stored documents over as they are.) *)
Definition hydrateShop (s : IShop) : IShop :=
  {| _id := _id s; name := name s; slug := slug s; tag := tag s; desc := desc s;
     location := location s; rating := rating s;
     reviewCount := Some (default 0%Q (reviewCount s));
     specialties := specialties s; isActive := isActive s;
     createdAt := createdAt s |}.

(** [Shop.find(q).sort(spec).limit(n)]. *)
Definition findShops (catalog : list IShop) (q : CastQuery)
    (spec : list (SortField * Direction)) (n : nat) : list IShop :=
  hydrateShop <$> take n (ranking catalog q spec).

(** [$sample: { size: k }] over [pool]: [k] draws without replacement, the
    [j]-th draw of the request being [rand j]; fewer when the pool runs out. *)
Fixpoint sample (rand : nat -> nat) (pos k : nat) (pool : list IShop) : list IShop :=
  match k with
  | O => []
  | S k' =>
    let i := (rand pos mod length pool)%nat in
    match pool !! i with
    | None => []
    | Some s => s :: sample rand (S pos) k' (delete i pool)
    end
  end.

(** User documents as stored: a subdocument path may be missing. *)
Record StoredPreferences := {
  sp_style : option (list string);
  sp_budget_min : option Q;
  sp_budget_max : option Q;
  sp_budget_currency : option string;
  sp_favoriteCategories : option (list string);
  sp_sizes_tops : option string;
  sp_sizes_bottoms : option string;
  sp_sizes_shoes : option string;
  sp_favoriteLocations : option (list string);
  sp_shoppingFrequency : option string;
  sp_sustainabilityImportance : option Q;
  sp_vintagePreference : option Q;
  sp_brandPreference : option string;
  sp_aestheticVibes : option (list string)
}.

Record UserDoc := {
  u_id : ObjectId;
  u_email : string;
  u_name : string;
  u_preferences : option StoredPreferences;
  u_onboardingCompleted : bool
}.

End Mongo.
Export Mongo.

(* ===================================================================== *)
(** ** [models/User.ts]: the preferences schema and its defaults           *)
(* ===================================================================== *)

Module UserModel.

Record Budget := { b_min : Q; b_max : Q; b_currency : string }.
Record Sizes := { tops : string; bottoms : string; shoes : string }.

(** [IUserPreferences]. *)
Record IUserPreferences := {
  style : list string;
  budget : Budget;
  favoriteCategories : list string;
  sizes : Sizes;
  favoriteLocations : list string;
  shoppingFrequency : string;
  sustainabilityImportance : Q;
  vintagePreference : Q;
  brandPreference : string;
  aestheticVibes : list string
}.

(** [userPreferencesSchema]: every path carries a default, used when the
    path is missing. *)
Definition userPreferencesSchema (sp : StoredPreferences) : IUserPreferences :=
  {| style := default [] (sp_style sp);
     budget := {| b_min := default 0%Q (sp_budget_min sp);
                  b_max := default 5000%Q (sp_budget_max sp);
                  b_currency := default "INR" (sp_budget_currency sp) |};
     favoriteCategories := default [] (sp_favoriteCategories sp);
     sizes := {| tops := default "m" (sp_sizes_tops sp);
                 bottoms := default "30-32" (sp_sizes_bottoms sp);
                 shoes := default "" (sp_sizes_shoes sp) |};
     favoriteLocations := default [] (sp_favoriteLocations sp);
     shoppingFrequency := default "monthly" (sp_shoppingFrequency sp);
     sustainabilityImportance := default 3%Q (sp_sustainabilityImportance sp);
     vintagePreference := default 3%Q (sp_vintagePreference sp);
     brandPreference := default "no-preference" (sp_brandPreference sp);
     aestheticVibes := default [] (sp_aestheticVibes sp) |}.

(** The empty object [{}]. *)
Definition emptyPreferences : StoredPreferences :=
  {| sp_style := None; sp_budget_min := None; sp_budget_max := None;
     sp_budget_currency := None; sp_favoriteCategories := None;
     sp_sizes_tops := None; sp_sizes_bottoms := None; sp_sizes_shoes := None;
     sp_favoriteLocations := None; sp_shoppingFrequency := None;
     sp_sustainabilityImportance := None; sp_vintagePreference := None;
     sp_brandPreference := None; sp_aestheticVibes := None |}.

(** A user as the routes see it.  [preferences] is what [user.preferences]
    reads, [None] being [undefined]. *)
Record IUser := {
  user_id : ObjectId;
  email : string;
  user_name : string;
  preferences : option IUserPreferences;
  onboardingCompleted : bool
}.

(** [userSchema]: [preferences: { type: userPreferencesSchema,
    default: () => ({}) }], applied when a document is loaded. *)
Definition hydrate (d : UserDoc) : IUser :=
  {| user_id := u_id d;
     email := u_email d;
     user_name := u_name d;
     preferences :=
       Some (userPreferencesSchema (default emptyPreferences (u_preferences d)));
     onboardingCompleted := u_onboardingCompleted d |}.

End UserModel.
Export UserModel.

(* ===================================================================== *)
(** ** Requests against the store: reads that may fail, random draws       *)
(* ===================================================================== *)

Module Eff.

(** What a request runs against.  [readFails n]: the [n]-th read the request
    issues is rejected by the store.  [rand]: the random numbers of [$sample].
    [castIn]: what the object mapper makes of a [$in] operand that is not an
    array, the tags it compares with or [None] when it refuses the query. *)
Record World := {
  shops : list IShop;
  users : list UserDoc;
  readFails : nat -> bool;
  rand : nat -> nat;
  castIn : jsProp -> option (list string)
}.

Inductive Exn := RepositoryError | CastError | ValidationError | TypeError.

(** Reads issued and random numbers drawn so far. *)
Record St := { reads : nat; draws : nat }.

Record M (A : Type) := mkM { run : St -> St * (Exn + A) }.
Arguments mkM {A} _.
Arguments run {A} _ _.

Definition ret {A} (a : A) : M A := mkM (fun st => (st, inr a)).
Definition throw {A} (e : Exn) : M A := mkM (fun st => (st, inl e)).
Definition bind {A B} (m : M A) (k : A -> M B) : M B :=
  mkM (fun st =>
    match run m st with
    | (st', inl e) => (st', inl e)
    | (st', inr a) => run (k a) st'
    end).

#[export] Instance M_ret : MRet M := @ret.
#[export] Instance M_bind : MBind M := fun A B k m => bind m k.

(** One round trip to the store (an [await]). *)
Definition read (w : World) : M unit :=
  mkM (fun st =>
    ({| reads := S (reads st); draws := draws st |},
     if readFails w (reads st) then inl RepositoryError else inr ())).

(** Reserve the next [k] random numbers; returns the position of the first. *)
Definition advance (k : nat) : M nat :=
  mkM (fun st => ({| reads := reads st; draws := draws st + k |}, inr (draws st))).

(** The filter as it reaches the store: an array operand is kept, any other
    goes through the object mapper. *)
Definition castQuery (w : World) (q : Query) : option CastQuery :=
  match q_tag q with
  | None => Some {| c_location := q_location q; c_tag := None; c_nin := q_nin q |}
  | Some (PArray l) =>
      Some {| c_location := q_location q; c_tag := Some l; c_nin := q_nin q |}
  | Some p =>
      match castIn w p with
      | Some l => Some {| c_location := q_location q; c_tag := Some l; c_nin := q_nin q |}
      | None => None
      end
  end.

(** [await Shop.find(q).sort(spec).limit(n)]. *)
Definition Shop_find (w : World) (q : Query)
    (spec : list (SortField * Direction)) (n : nat) : M (list IShop) :=
  match castQuery w q with
  | None => throw CastError
  | Some cq => read w;; mret (findShops (shops w) cq spec n)
  end.

(** The documents [{ $match: { isActive: true, _id: { $nin } } }] lets
    through. *)
Definition samplePool (catalog : list IShop) (nin : option (list ObjectId))
    : list IShop :=
  filter (λ s, matches {| c_location := None; c_tag := None; c_nin := nin |} s)
         catalog.

(** [await Shop.aggregate([{ $match: { isActive: true, _id: { $nin } } },
    { $sample: { size } }])]. *)
Definition Shop_aggregate (w : World) (nin : option (list ObjectId)) (size : nat)
    : M (list IShop) :=
  read w;;
  pos ← advance size;
  mret (sample (rand w) pos size (samplePool (shops w) nin)).

(** The stored document with a given identifier. *)
Definition lookupUser (w : World) (id : ObjectId) : option UserDoc :=
  List.find (fun d => N.eqb (u_id d) id) (users w).

(** [await User.findById(id)]. *)
Definition User_findById (w : World) (id : ObjectId) : M (option IUser) :=
  read w;;
  mret (hydrate <$> lookupUser w id).

Definition start : St := {| reads := 0; draws := 0 |}.

End Eff.
Export Eff.

(* ===================================================================== *)
(** ** [routes/explore.ts]                                                 *)
(* ===================================================================== *)

Module Explore.

Record RecommendationItem := {
  shop : IShop;
  reason : string;
  matchScore : Q;
  basedOn : string
}.

Record RecommendationSection := {
  title : string;
  subtitle : string;
  type_ : string;
  items : list RecommendationItem
}.

(** The [data] of a response. *)
Inductive Data :=
| Sections (l : list RecommendationSection)
| OneSection (s : RecommendationSection)
| Shops (l : list IShop).

(** [Success data] is [res.json({ success: true, data })]; [Failure code
    error] is [res.status(code).json({ success: false, error })], which
    carries no data. *)
Inductive Response :=
| Success (data : Data)
| Failure (code : nat) (error : string).

(** [try { ... } catch (error) { res.status(500).json(...) }]. *)
Definition handler (message : string) (body : M Response) (st : St) : St * Response :=
  match run body st with
  | (st', inr r) => (st', r)
  | (st', inl _) => (st', Failure 500 message)
  end.

Definition styleToTagMap : list (string * list string) :=
  [ ("vintage", ["Vintage"; "Pre-Loved"; "Thrift"]);
    ("y2k", ["Streetwear"; "Hype"]);
    ("grunge", ["Grunge"; "Imports"; "Alternative"]);
    ("minimalist", ["Basics"; "Premium"]);
    ("streetwear", ["Streetwear"; "Hype"; "Urban"]);
    ("cottagecore", ["Ethnic"; "Boutique"]);
    ("old-money", ["Premium"; "Formal"; "Classic"]);
    ("bohemian", ["Ethnic"; "Boutique"; "Vintage"]) ].

(** [styles.forEach(style => { const tags = styleToTagMap[style];
    if (tags) preferredTags.push(...tags) })]: spreading a member that is not
    iterable throws. *)
Fixpoint collectTags (styles preferredTags : list string) : Exn + list string :=
  match styles with
  | [] => inr preferredTags
  | style :: rest =>
    match getProp styleToTagMap style with
    | PArray tags => collectTags rest (preferredTags ++ tags)%list
    | PUndefined => collectTags rest preferredTags
    | PFunction _ | PObject => inl TypeError
    end
  end.

Definition byRatingThenReviews : list (SortField * Direction) :=
  [(ByRating, Desc); (ByReviewCount, Desc)].
Definition byReviewsThenRating : list (SortField * Direction) :=
  [(ByReviewCount, Desc); (ByRating, Desc)].
Definition byNewest : list (SortField * Direction) := [(ByCreatedAt, Desc)].
Definition byRating : list (SortField * Direction) := [(ByRating, Desc)].

Definition personalizedQuery (preferences : IUserPreferences)
    (preferredTags : list string) : Query :=
  {| q_location :=
       if (0 <? length (favoriteLocations preferences))%nat
       then Some (favoriteLocations preferences) else None;
     q_tag :=
       if (0 <? length preferredTags)%nat
       then Some (PArray (uniq [] preferredTags)) else None;
     q_nin := None |}.

Definition getPersonalizedShops (w : World) (preferences : IUserPreferences)
    : M (list IShop) :=
  match collectTags (style preferences) [] with
  | inl e => throw e
  | inr preferredTags =>
    shops ← Shop_find w (personalizedQuery preferences preferredTags)
                      byRatingThenReviews 12;
    if (length shops <? 6)%nat then
      additionalShops ← Shop_aggregate w (Some (_id <$> shops)) (6 - length shops);
      mret (shops ++ additionalShops)%list
    else mret shops
  end.

Definition item (r : string) (score : Q) (b : string) (s : IShop) : RecommendationItem :=
  {| shop := s; reason := r; matchScore := score; basedOn := b |}.

(** The three section objects [/sections] pushes. *)
Definition forYouSection (forYouShops : list IShop) : RecommendationSection :=
  {| title := "For You";
     subtitle := "Based on your style preferences";
     type_ := "for-you";
     items := item "Matches your style" 0.85 "style" <$> forYouShops |}.

Definition trendingSection (trendingShops : list IShop) : RecommendationSection :=
  {| title := "Trending This Week";
     subtitle := "Most visited stores in Bangalore";
     type_ := "trending";
     items := item "Popular choice" 0.9 "trending" <$> trendingShops |}.

Definition newSection (newShops : list IShop) : RecommendationSection :=
  {| title := "Recently Added";
     subtitle := "Fresh finds in our database";
     type_ := "new";
     items := item "New addition" 0.7 "similar-users" <$> newShops |}.

(** [router.get("/sections")]; [userId] is [req.userId] as the optional
    authentication middleware leaves it.  [sections] grows by [push]. *)
Definition sectionsBody (w : World) (userId : option ObjectId)
    : M (list RecommendationSection) :=
  sections ← match userId with
              | Some uid =>
                user ← User_findById w uid;
                match user ≫= preferences with
                | Some prefs =>
                  forYouShops ← getPersonalizedShops w prefs;
                  mret [forYouSection forYouShops]
                | None => mret []
                end
              | None => mret []
              end;
  trendingShops ← Shop_find w activeOnly byReviewsThenRating 6;
  let sections := sections ++ [trendingSection trendingShops] in
  newShops ← Shop_find w activeOnly byNewest 6;
  let sections := sections ++ [newSection newShops] in
  mret sections.

Definition sections (w : World) (userId : option ObjectId) : St -> St * Response :=
  handler "Failed to get explore sections"
    (secs ← sectionsBody w userId; mret (Success (Sections secs))).

(** [router.get("/trending")]. *)
Definition trending (w : World) : St -> St * Response :=
  handler "Failed to get trending shops"
    (shops ← Shop_find w activeOnly byReviewsThenRating 12;
     mret (Success (Shops shops))).

(** [user.preferences.style?.[0] || "style"]. *)
Definition firstVibe (preferences : IUserPreferences) : string :=
  match style preferences with
  | s :: _ => if String.eqb s "" then "style" else s
  | [] => "style"
  end.

(** The two section objects [/for-you] answers with. *)
Definition anonymousSection (shops : list IShop) : RecommendationSection :=
  {| title := "Recommended For You";
     subtitle := "Sign up to get personalized picks";
     type_ := "for-you";
     items := item "Popular in your area" 0.7 "trending" <$> shops |}.

Definition personalSection (preferences : IUserPreferences) (shops : list IShop)
    : RecommendationSection :=
  {| title := "For You";
     subtitle := "Based on your style preferences";
     type_ := "for-you";
     items := item ("Matches your " +:+ firstVibe preferences +:+ " vibe")
                   0.85 "style" <$> shops |}.

(** [router.get("/for-you")]. *)
Definition forYou (w : World) (userId : option ObjectId) : St -> St * Response :=
  handler "Failed to get recommendations"
    match userId with
    | None =>
      shops ← Shop_aggregate w None 12;
      mret (Success (OneSection (anonymousSection shops)))
    | Some uid =>
      user ← User_findById w uid;
      match user with
      | None => mret (Failure 404 "User not found")
      | Some u =>
        match preferences u with
        | None => throw TypeError
        | Some prefs =>
          shops ← getPersonalizedShops w prefs;
          mret (Success (OneSection (personalSection prefs shops)))
        end
      end
    end.

(** [router.get("/new")]. *)
Definition newStores (w : World) : St -> St * Response :=
  handler "Failed to get new shops"
    (shops ← Shop_find w activeOnly byNewest 12;
     mret (Success (Shops shops))).

Definition categoryTagMap : list (string * list string) :=
  [ ("trending", []);
    ("vintage", ["Vintage"; "Pre-Loved"; "Thrift"]);
    ("streetwear", ["Streetwear"; "Hype"; "Urban"]);
    ("sustainable", ["Thrift"; "Pre-Loved"; "Sustainable"]);
    ("designer", ["Luxury Thrift"; "Premium"; "Designer"]);
    ("budget", ["Budget"; "Cheapest"; "Wholesale"]);
    ("denim", ["Denim"; "Jeans"]);
    ("winter", ["Winter Wear"; "Winter"; "Jackets"]) ].

(** [categoryTagMap[category] || []]: arrays, functions and objects are all
    truthy, only [undefined] gives way to the empty array. *)
Definition categoryTags (category : string) : jsProp :=
  match getProp categoryTagMap category with
  | PUndefined => PArray []
  | p => p
  end.

(** [tags.length === 0]. *)
Definition lengthIsZero (tags : jsProp) : bool :=
  match tags with
  | PArray l => (length l =? 0)%nat
  | PFunction n => (n =? 0)%nat
  | PObject | PUndefined => false
  end.

(** [router.get("/category/:category")]. *)
Definition category (w : World) (category : string) : St -> St * Response :=
  handler "Failed to get category shops"
    (let tags := categoryTags category in
     shops ← (if String.eqb category "trending" || lengthIsZero tags
              then Shop_find w activeOnly byReviewsThenRating 12
              else Shop_find w {| q_location := None; q_tag := Some tags;
                                  q_nin := None |} byRating 12);
     mret (Success (Shops shops))).

End Explore.
Export Explore.

(* ===================================================================== *)
(** ** [routes/auth.ts]: onboarding answers and registration               *)
(* ===================================================================== *)

Module Auth.

Definition budgetMap : list (string * (Q * Q)) :=
  [ ("budget-low", (0, 500)%Q);
    ("budget-mid", (500, 1500)%Q);
    ("budget-high", (1500, 3000)%Q);
    ("budget-premium", (3000, 10000)%Q) ].

(** [...budgetMap[answers.budget as string]]: the own enumerable properties
    of the bracket; [undefined] and the inherited members spread to nothing.
    The lookup throws when the answer cannot be turned into a key. *)
Definition spreadBracket (budget : jsval) : Exn + list (string * jsval) :=
  match toKey budget with
  | Key k =>
    match assoc k budgetMap with
    | Some (lo, hi) => inr [("min", JNum lo); ("max", JNum hi)]
    | None => inr []
    end
  | NoSuchKey => inr []
  | KeyTypeError => inl TypeError
  end.

(** [if (cond) preferences[k] = v]. *)
Definition setIf (cond : jsval) (k : string) (v : jsval)
    (preferences : list (string * jsval)) : list (string * jsval) :=
  if truthy cond then (preferences ++ [(k, v)])%list else preferences.

(** The bracket lookup is the one step that can throw; the exception leaves
    the function there. *)
Definition parseOnboardingAnswers (answers : jsval)
    : Exn + list (string * jsval) :=
  let get := getField answers in
  let preferences := [] in
  let preferences := setIf (get "style") "style" (get "style") preferences in
  match (if truthy (get "budget") then spreadBracket (get "budget") else inr []) with
  | inl e => inl e
  | inr bracket =>
    let preferences :=
      setIf (get "budget") "budget"
        (JObj (bracket ++ [("currency", JStr "INR")])%list)
        preferences in
    let preferences :=
      setIf (get "categories") "favoriteCategories" (get "categories") preferences in
    let preferences :=
      setIf (get "sizes-tops") "sizes"
        (JObj [ ("tops", get "sizes-tops");
                ("bottoms", jsOr (get "sizes-bottoms") (JStr ""));
                ("shoes", JStr "") ])
        preferences in
    let preferences :=
      setIf (get "locations") "favoriteLocations" (get "locations") preferences in
    let preferences :=
      setIf (get "frequency") "shoppingFrequency" (get "frequency") preferences in
    let preferences :=
      setIf (get "sustainability") "sustainabilityImportance" (get "sustainability")
        preferences in
    let preferences :=
      setIf (get "vintage-preference") "vintagePreference" (get "vintage-preference")
        preferences in
    let preferences :=
      setIf (get "brand-preference") "brandPreference" (get "brand-preference")
        preferences in
    inr preferences
  end.

(** *** Storing a preferences object under [userPreferencesSchema]

    A supplied value of the type its path declares is stored as it is; a
    missing path stays missing (the default fills it on load).  [None]: the
    value is a number the [min]/[max] validators refuse, or it is [null] or
    of another type than the path declares, where the object mapper's own
    handling (it stores [null], it turns the string of a number into the
    number) decides, which is not part of this model: what is stated of a
    stored profile is stated for values of the declared types. *)

Definition castString (v : jsval) : option string :=
  match v with JStr s => Some s | _ => None end.

Definition castStrings (v : jsval) : option (list string) :=
  match v with JArr l => mapM castString l | _ => None end.

Definition castNumber (v : jsval) : option Q :=
  match v with JNum q => Some q | _ => None end.

(** [{ type: Number, min: 1, max: 5 }]. *)
Definition castScore (v : jsval) : option Q :=
  q ← castNumber v;
  if Qle_bool 1 q && Qle_bool q 5 then Some q else None.

Definition storePath {T} (cast : jsval -> option T) (obj : list (string * jsval))
    (k : string) : option (option T) :=
  match assoc k obj with
  | None | Some JUndefined => Some None
  | Some v => Some <$> cast v
  end.

Definition subdocument (obj : list (string * jsval)) (k : string)
    : option (list (string * jsval)) :=
  match assoc k obj with
  | None | Some JUndefined => Some []
  | Some (JObj fields) => Some fields
  | Some _ => None
  end.

(** The [budget] paths: [min], [max], [currency]. *)
Definition castBudget (obj : list (string * jsval))
    : option (option Q * option Q * option string) :=
  b ← subdocument obj "budget";
  bmin ← storePath castNumber b "min";
  bmax ← storePath castNumber b "max";
  bcur ← storePath castString b "currency";
  Some (bmin, bmax, bcur).

Definition castPreferences (obj : list (string * jsval)) : option StoredPreferences :=
  st ← storePath castStrings obj "style";
  '(bmin, bmax, bcur) ← castBudget obj;
  cats ← storePath castStrings obj "favoriteCategories";
  sz ← subdocument obj "sizes";
  stops ← storePath castString sz "tops";
  sbottoms ← storePath castString sz "bottoms";
  sshoes ← storePath castString sz "shoes";
  locs ← storePath castStrings obj "favoriteLocations";
  freq ← storePath castString obj "shoppingFrequency";
  sust ← storePath castScore obj "sustainabilityImportance";
  vint ← storePath castScore obj "vintagePreference";
  brand ← storePath castString obj "brandPreference";
  vibes ← storePath castStrings obj "aestheticVibes";
  Some {| sp_style := st; sp_budget_min := bmin; sp_budget_max := bmax;
          sp_budget_currency := bcur; sp_favoriteCategories := cats;
          sp_sizes_tops := stops; sp_sizes_bottoms := sbottoms;
          sp_sizes_shoes := sshoes; sp_favoriteLocations := locs;
          sp_shoppingFrequency := freq; sp_sustainabilityImportance := sust;
          sp_vintagePreference := vint; sp_brandPreference := brand;
          sp_aestheticVibes := vibes |}.

(** The Preference Profile Builder: the answers parsed, stored under the
    schema and read back with its defaults; [None] when the parser throws or
    the schema refuses. *)
Definition buildProfile (answers : jsval) : option IUserPreferences :=
  match parseOnboardingAnswers answers with
  | inr preferences => userPreferencesSchema <$> castPreferences preferences
  | inl _ => None
  end.

(** [onboardingAnswers ? parseOnboardingAnswers(onboardingAnswers) : {}]. *)
Definition registrationPreferences (onboardingAnswers : jsval)
    : Exn + list (string * jsval) :=
  if truthy onboardingAnswers then parseOnboardingAnswers onboardingAnswers
  else inr [].

(** A synchronous result inside an [async] handler. *)
Definition completion {A} (r : Exn + A) : M A :=
  match r with
  | inl e => throw e
  | inr a => mret a
  end.

Inductive RegisterResult :=
| Created (user : IUser)
| Rejected (code : nat) (error : string).

(** [name: { required, trim, maxlength: 100 }] of [userSchema], on a name
    the route has trimmed already. *)
Definition nameAccepted (name : string) : bool :=
  negb (String.eqb name "") && (String.length name <=? 100)%nat.

(** [await User.create({ email, password, name, preferences,
    onboardingCompleted })]: the document written, with a fresh identifier.
    Validation and casting come before the write.  The password, with its
    validators and its hashing, and the [match] validator of the e-mail are
    not modelled: where they refuse, the code stores nothing and the route
    answers 500. *)
Definition User_create (w : World) (newId : ObjectId) (email name : string)
    (preferences : list (string * jsval)) (completed : bool) : M UserDoc :=
  if negb (nameAccepted name) then throw ValidationError
  else
    match castPreferences preferences with
    | None => throw CastError
    | Some sp =>
      read w;;
      mret {| u_id := newId; u_email := email; u_name := name;
              u_preferences := Some sp; u_onboardingCompleted := completed |}
    end.

Section WithSanitizers.
(** The sanitizers [normalizeEmail()] and [trim()] of the request validators:
    they rewrite [req.body] before the handler reads it. *)
Variable normalizeEmail : string → string.
Variable trim : string → string.

(** [router.post("/register")].  [email], [name] and [onboardingAnswers] are
    the fields of the request body as sent; [validation] is the first message
    of the request validators, if any; the result comes with the user
    documents as the request leaves them. *)
Definition register (w : World) (newId : ObjectId) (validation : option string)
    (email name : string) (onboardingAnswers : jsval) (st : St)
    : St * (RegisterResult * list UserDoc) :=
  match validation with
  | Some msg => (st, (Rejected 400 msg, users w))
  | None =>
    let email := normalizeEmail email in
    let name := trim name in
    let body : M (RegisterResult * list UserDoc) :=
      read w;;
      match List.find (fun d => String.eqb (u_email d) email) (users w) with
      | Some _ => mret (Rejected 400 "Email already registered", users w)
      | None =>
        preferences ← completion (registrationPreferences onboardingAnswers);
        d ← User_create w newId email name preferences
              (truthy onboardingAnswers);
        mret (Created (hydrate d), (users w ++ [d])%list)
      end in
    match run body st with
    | (st', inr r) => (st', r)
    | (st', inl _) => (st', (Rejected 500 "Failed to create account", users w))
    end
  end.

End WithSanitizers.

End Auth.
Export Auth.

(* ===================================================================== *)
(** ** Vocabulary of the statements                                        *)
(* ===================================================================== *)

(** A computation issues its reads one after the other and stops at the
    first one the store rejects, with an exception. *)
Definition stopsAtFailure (w : World) {A} (m : M A) : Prop :=
  ∀ st st' r, run m st = (st', r) →
    (reads st ≤ reads st')%nat ∧
    ∀ i, (reads st ≤ i < reads st')%nat → readFails w i = true →
         reads st' = S i ∧ ∃ e, r = inl e.

(** Every read of the request is answered. *)
Definition reliable (w : World) : Prop := ∀ i, readFails w i = false.

(** The filter [getPersonalizedShops] builds, its operands being arrays. *)
Definition contentQuery (preferences : IUserPreferences) (tags : list string)
    : CastQuery :=
  {| c_location :=
       if (0 <? length (favoriteLocations preferences))%nat
       then Some (favoriteLocations preferences) else None;
     c_tag := if (0 <? length tags)%nat then Some (uniq [] tags) else None;
     c_nin := None |}.

(** The genuine matches of the content-match query. *)
Definition contentMatches (catalog : list IShop) (preferences : IUserPreferences)
    (tags : list string) : list IShop :=
  findShops catalog (contentQuery preferences tags) byRatingThenReviews 12.

(** The shops appended to [matched] when there are fewer than six, the
    random numbers being taken from position [pos]. *)
Definition backfill (w : World) (pos : nat) (matched : list IShop) : list IShop :=
  if (length matched <? 6)%nat
  then sample (rand w) pos (6 - length matched)
         (samplePool (shops w) (Some (_id <$> matched)))
  else [].

(** The identifiers of the shops a section lists. *)
Definition shopIds (sec : RecommendationSection) : list ObjectId :=
  (λ it, _id (shop it)) <$> items sec.

(** No shop identifier is listed by two different sections. *)
Definition disjointSections (secs : list RecommendationSection) : Prop :=
  ∀ i j si sj id, i ≠ j → secs !! i = Some si → secs !! j = Some sj →
    id ∈ shopIds si → id ∉ shopIds sj.

(** An answer that is missing, or falsy, which the builder treats alike. *)
Definition absent (answers : jsval) (k : string) : Prop :=
  truthy (getField answers k) = false.

(** The bracket the budget answer names, if it names one. *)
Definition bracket (answers : jsval) : option (Q * Q) :=
  if truthy (getField answers "budget")
  then match toKey (getField answers "budget") with
       | Key k => assoc k budgetMap
       | _ => None
       end
  else None.

Definition defaultBudget : Budget :=
  {| b_min := 0; b_max := 5000; b_currency := "INR" |}.

Definition expectedBudget (answers : jsval) : Budget :=
  match bracket answers with
  | Some (lo, hi) => {| b_min := lo; b_max := hi; b_currency := "INR" |}
  | None => defaultBudget
  end.

(** The profile made of the schema's defaults only. *)
Definition defaultPreferences : IUserPreferences :=
  {| style := [];
     budget := defaultBudget;
     favoriteCategories := [];
     sizes := {| tops := "m"; bottoms := "30-32"; shoes := "" |};
     favoriteLocations := [];
     shoppingFrequency := "monthly";
     sustainabilityImportance := 3;
     vintagePreference := 3;
     brandPreference := "no-preference";
     aestheticVibes := [] |}.

(** The profile a stored user document is read back with. *)
Definition profileOf (d : UserDoc) : IUserPreferences :=
  userPreferencesSchema (default emptyPreferences (u_preferences d)).

(* ===================================================================== *)
(** ** Sample data                                                         *)
(* ===================================================================== *)

Module Samples.

Definition mkShop (id : N) (nm tg loc : string) (rt rc : option Q) (t : Z) : IShop :=
  {| _id := id; name := nm; slug := nm; tag := tg; desc := nm;
     location := {| loc_id := loc; loc_label := loc |};
     rating := rt; reviewCount := rc; specialties := [];
     isActive := true; createdAt := t |}.

(** Five active shops, all tagged "Budget". *)
Definition budgetCatalog : list IShop :=
  [ mkShop 1 "a" "Budget" "koramangala" (Some 4.5%Q) (Some 10%Q) 100;
    mkShop 2 "b" "Budget" "indiranagar" (Some 4.0%Q) (Some 25%Q) 200;
    mkShop 3 "c" "Budget" "koramangala" (Some 4.5%Q) (Some 25%Q) 300;
    mkShop 4 "d" "Budget" "jayanagar" None (Some 3%Q) 400;
    mkShop 5 "e" "Budget" "jayanagar" (Some 3.5%Q) (Some 3%Q) 500 ].

(** Two shops that the two sort orders rank in opposite ways. *)
Definition twoShops : list IShop :=
  [ mkShop 1 "a" "Vintage" "koramangala" (Some 5%Q) (Some 1%Q) 100;
    mkShop 2 "b" "Vintage" "koramangala" (Some 1%Q) (Some 5%Q) 200 ].

Definition userWith (id : N) (sp : option StoredPreferences) : UserDoc :=
  {| u_id := id; u_email := "u@example.com"; u_name := "u";
     u_preferences := sp; u_onboardingCompleted := false |}.

(** A user whose only stated preference is the style "vintage". *)
Definition vintageFan : UserDoc :=
  userWith 7 (Some {| sp_style := Some ["vintage"]; sp_budget_min := None;
     sp_budget_max := None; sp_budget_currency := None;
     sp_favoriteCategories := None; sp_sizes_tops := None;
     sp_sizes_bottoms := None; sp_sizes_shoes := None;
     sp_favoriteLocations := None; sp_shoppingFrequency := None;
     sp_sustainabilityImportance := None; sp_vintagePreference := None;
     sp_brandPreference := None; sp_aestheticVibes := None |}).

(** A user who registered without onboarding answers. *)
Definition newcomer : UserDoc := userWith 8 (Some emptyPreferences).

Definition world (catalog : list IShop) (failing : nat → bool) : World :=
  {| shops := catalog; users := [vintageFan; newcomer];
     readFails := failing; rand := λ n, n; castIn := λ _, None |}.

Definition never : nat → bool := λ _, false.
Definition onlyAt (n : nat) : nat → bool := λ i, (i =? n)%nat.

End Samples.

(* ===================================================================== *)
(** ** [routes/auth.ts]: the current user and its preferences              *)
(* ===================================================================== *)

Module Account.

(** The world once a request has left the user documents as [us]. *)
Definition withUsers (w : World) (us : list UserDoc) : World :=
  {| shops := shops w; users := us; readFails := readFails w;
     rand := rand w; castIn := castIn w |}.

Inductive AccountResult :=
| Found (user : IUser)
| Refused (code : nat) (error : string).

(** [router.get("/me")]; [userId] is the identity the authentication
    middleware has set. *)
Definition me (w : World) (userId : ObjectId) (st : St) : St * AccountResult :=
  match run (User_findById w userId) st with
  | (st', inr (Some user)) => (st', Found user)
  | (st', inr None) => (st', Refused 404 "User not found")
  | (st', inl _) => (st', Refused 500 "Failed to get user")
  end.

(** The documents after [$set: { preferences }] on the one whose
    identifier is [id]. *)
Fixpoint setPreferences (id : ObjectId) (sp : StoredPreferences)
    (us : list UserDoc) : list UserDoc :=
  match us with
  | [] => []
  | d :: rest =>
    if N.eqb (u_id d) id
    then {| u_id := u_id d; u_email := u_email d; u_name := u_name d;
            u_preferences := Some sp;
            u_onboardingCompleted := u_onboardingCompleted d |} :: rest
    else d :: setPreferences id sp rest
  end.

(** [await User.findByIdAndUpdate(id, { preferences }, { new: true,
    runValidators: true })]: the update is cast and validated under the
    schema, then one round trip returns the document as updated, or [null].
    A round trip that fails is taken to change no document. *)
Definition User_updatePreferences (w : World) (id : ObjectId)
    (preferences : list (string * jsval)) : M (option IUser * list UserDoc) :=
  match castPreferences preferences with
  | None => throw CastError
  | Some sp =>
    read w;;
    let us := setPreferences id sp (users w) in
    mret (hydrate <$> lookupUser (withUsers w us) id, us)
  end.

(** [router.put("/preferences")]; [body] is the parsed request body.  The
    result comes with the user documents as the request leaves them. *)
Definition putPreferences (w : World) (userId : ObjectId)
    (body : list (string * jsval)) (st : St)
    : St * (AccountResult * list UserDoc) :=
  match run (User_updatePreferences w userId body) st with
  | (st', inr (Some user, us)) => (st', (Found user, us))
  | (st', inr (None, us)) => (st', (Refused 404 "User not found", us))
  | (st', inl _) => (st', (Refused 500 "Failed to update preferences", users w))
  end.

End Account.
Export Account.

(** Further sample data: a user one of whose style vibes is the name of a
    member every object inherits, and worlds over given users. *)
(** * Shop slugs ([getShopSlug])

    A string is taken as the list of its code units.  [toLowerCase] is the
    platform's; nothing is assumed of it here. *)

Module Slug.

Definition dash : ascii := "-"%char.

(** The class [[a-z0-9]]. *)
Definition isSlugChar (c : ascii) : bool :=
  let n := nat_of_ascii c in
  ((97 <=? n) && (n <=? 122) || (48 <=? n) && (n <=? 57))%nat.

(** [.replace(/[^a-z0-9]+/g, "-")]: every maximal run of code units outside
    the class becomes one dash.  [inRun]: the code unit before this one was
    outside the class. *)
Fixpoint dashRuns (inRun : bool) (l : list ascii) : list ascii :=
  match l with
  | [] => []
  | c :: rest =>
    if isSlugChar c then c :: dashRuns false rest
    else if inRun then dashRuns true rest
    else dash :: dashRuns true rest
  end.

Definition dropLeadingDash (l : list ascii) : list ascii :=
  match l with
  | c :: rest => if Ascii.eqb c dash then rest else l
  | [] => []
  end.

Fixpoint dropTrailingDash (l : list ascii) : list ascii :=
  match l with
  | [] => []
  | [c] => if Ascii.eqb c dash then [] else [c]
  | c :: rest => c :: dropTrailingDash rest
  end.

(** [.replace(/(^-|-$)+/g, "")]: the pattern matches a dash at the start, a
    dash at the end, or the two when they are adjacent; a dash elsewhere is
    at neither end and stays. *)
Definition trimDashes (l : list ascii) : list ascii :=
  dropTrailingDash (dropLeadingDash l).

(** Dashes stand alone: the code unit before a dash is of the class, and
    [prev] tells that the one before the list was a dash. *)
Fixpoint wellDashed (prev : bool) (l : list ascii) : Prop :=
  match l with
  | [] => True
  | c :: rest =>
    if isSlugChar c then wellDashed false rest
    else c = dash ∧ prev = false ∧ wellDashed true rest
  end.

Section WithPlatform.
Variable toLowerCase : string → string.

Definition getShopSlug (name : string) : string :=
  String.string_of_list_ascii
    (trimDashes (dashRuns false (String.list_ascii_of_string (toLowerCase name)))).

End WithPlatform.

End Slug.
Export Slug.

(** * The authentication middleware *)

Module Middleware.

(** What [jwt.verify] does with a token: the payload's [userId] (which a
    payload need not have), or one of its errors. *)
Inductive Verified :=
| Decoded (userId : option ObjectId)
| TokenExpiredError
| OtherError.

(** [next()], with the identity set on the request, or a reply. *)
Inductive Outcome :=
| Next (userId : option ObjectId)
| Reply (code : nat) (error : string).

Definition space : ascii := " "%char.

Fixpoint upToSpace (s : string) : string :=
  match s with
  | EmptyString => EmptyString
  | String c rest => if Ascii.eqb c space then EmptyString
                     else String c (upToSpace rest)
  end.

Fixpoint afterSpace (s : string) : option string :=
  match s with
  | EmptyString => None
  | String c rest => if Ascii.eqb c space then Some rest else afterSpace rest
  end.

(** [s.split(" ")[1]]; [None] is [undefined]. *)
Definition secondSegment (s : string) : option string :=
  upToSpace <$> afterSpace s.

(** [!authHeader || !authHeader.startsWith("Bearer ")]. *)
Definition noBearer (authHeader : option string) : bool :=
  match authHeader with
  | None => true
  | Some h => String.eqb h "" || negb (String.prefix "Bearer " h)
  end.

Section WithVerifier.
Variable verify : option string → Verified.

Definition authMiddleware (authHeader : option string) : Outcome :=
  if noBearer authHeader then Reply 401 "No token provided"
  else
    let token := h ← authHeader; secondSegment h in
    match verify token with
    | Decoded userId => Next userId
    | TokenExpiredError => Reply 401 "Token expired"
    | OtherError => Reply 401 "Invalid token"
    end.

Definition optionalAuthMiddleware (authHeader : option string) : Outcome :=
  if noBearer authHeader then Next None
  else
    let token := h ← authHeader; secondSegment h in
    match verify token with
    | Decoded userId => Next userId
    | TokenExpiredError | OtherError => Next None
    end.

End WithVerifier.

End Middleware.
Export Middleware.

(** * Logging in ([router.post("/login")]) *)

Module Session.

Inductive LoginResult :=
| LoggedIn (user : IUser) (token : string)
| Denied (code : nat) (error : string).

Section WithCredentials.
(** [user.comparePassword(candidate)] against the stored hash; [None]: the
    comparison throws. *)
Variable comparePassword : UserDoc → string → option bool.
(** [generateToken(user._id.toString())]. *)
Variable generateToken : ObjectId → string.
(** The sanitizer [normalizeEmail()] of the request validators. *)
Variable normalizeEmail : string → string.

(** [email] and [password] are the fields of the request body as sent;
    [validation]: an error the validators of the route found.  The handler
    does not tell one exception from another. *)
Definition login (w : World) (validation : option string)
    (email password : string) (st : St) : St * LoginResult :=
  match validation with
  | Some _ => (st, Denied 400 "Invalid credentials")
  | None =>
    let email := normalizeEmail email in
    let body : M LoginResult :=
      read w;;
      match List.find (fun d => String.eqb (u_email d) email) (users w) with
      | None => mret (Denied 401 "Invalid email or password")
      | Some d =>
        match comparePassword d password with
        | None => throw RepositoryError
        | Some false => mret (Denied 401 "Invalid email or password")
        | Some true => mret (LoggedIn (hydrate d) (generateToken (u_id d)))
        end
      end in
    match run body st with
    | (st', inr r) => (st', r)
    | (st', inl _) => (st', Denied 500 "Login failed")
    end
  end.

End WithCredentials.

End Session.
Export Session.

Module MoreSamples.

Definition withStyle (id : N) (vibes : list string) : UserDoc :=
  Samples.userWith id (Some {| sp_style := Some vibes; sp_budget_min := None;
     sp_budget_max := None; sp_budget_currency := None;
     sp_favoriteCategories := None; sp_sizes_tops := None;
     sp_sizes_bottoms := None; sp_sizes_shoes := None;
     sp_favoriteLocations := None; sp_shoppingFrequency := None;
     sp_sustainabilityImportance := None; sp_vintagePreference := None;
     sp_brandPreference := None; sp_aestheticVibes := None |}).

Definition worldOf (catalog : list IShop) (us : list UserDoc)
    (failing : nat → bool) : World :=
  {| shops := catalog; users := us; readFails := failing;
     rand := λ n, n; castIn := λ _, None |}.

(** Two shops: one stored with the review count 0, one stored without any. *)
Definition uncounted : list IShop :=
  [ Samples.mkShop 1 "a" "Vintage" "koramangala" (Some 1%Q) (Some 0%Q) 100;
    Samples.mkShop 2 "b" "Vintage" "koramangala" (Some 5%Q) None 200 ].

(** Six active shops, all tagged "Budget". *)
Definition sixBudget : list IShop :=
  Samples.budgetCatalog
  ++ [Samples.mkShop 6 "f" "Budget" "indiranagar" (Some 2%Q) (Some 1%Q) 600].

(** The lower-casing of the code units [A]-[Z], the others left alone. *)
Definition asciiLower (s : string) : string :=
  String.string_of_list_ascii
    ((λ c, let n := nat_of_ascii c in
           if ((65 <=? n) && (n <=? 90))%nat then ascii_of_nat (n + 32) else c)
       <$> String.list_ascii_of_string s).

(** A verifier that knows one token. *)
Definition onlyToken (t : string) (uid : ObjectId) : option string → Verified :=
  λ token, match token with
           | Some t' => if String.eqb t t' then Decoded (Some uid) else OtherError
           | None => OtherError
           end.

(** Tokens that carry the identifier as their length. *)
Definition unaryToken (id : ObjectId) : string :=
  String.string_of_list_ascii (replicate (N.to_nat id) "a"%char).

Definition unaryVerify (token : option string) : Verified :=
  match token with
  | Some t => Decoded (Some (N.of_nat (String.length t)))
  | None => OtherError
  end.

(** Every user's password is "secret". *)
Definition secret (d : UserDoc) (candidate : string) : option bool :=
  Some (String.eqb candidate "secret").

End MoreSamples.

(* ===================================================================== *)
(** * Properties                                                           *)
(* ===================================================================== *)

(** ** The definitions at work *)

Example getProp_own :
  getProp Explore.categoryTagMap "vintage" = PArray ["Vintage"; "Pre-Loved"; "Thrift"].
Proof. reflexivity. Qed.

Example getProp_missing : getProp Explore.categoryTagMap "shoes" = PUndefined.
Proof. reflexivity. Qed.

Example getProp_inherited :
  getProp Explore.categoryTagMap "constructor" = PFunction 1 ∧
  getProp Explore.categoryTagMap "toString" = PFunction 0 ∧
  getProp Explore.categoryTagMap "__proto__" = PObject.
Proof. repeat split. Qed.

Example collectTags_styles :
  collectTags ["vintage"; "unheard-of"; "y2k"] []
  = inr ["Vintage"; "Pre-Loved"; "Thrift"; "Streetwear"; "Hype"].
Proof. reflexivity. Qed.

Example collectTags_inherited : collectTags ["vintage"; "valueOf"] [] = inl TypeError.
Proof. reflexivity. Qed.

Example uniq_tags :
  uniq [] ["Ethnic"; "Boutique"; "Ethnic"; "Boutique"; "Vintage"]
  = ["Ethnic"; "Boutique"; "Vintage"].
Proof. reflexivity. Qed.

Example toKey_array : toKey (JArr [JStr "budget-low"]) = Key "budget-low".
Proof. reflexivity. Qed.

Example toKey_own_toString :
  toKey (JArr [JStr "a"; JObj [("toString", JNum 1)]]) = KeyTypeError.
Proof. reflexivity. Qed.

Example parse_answers :
  parseOnboardingAnswers
    (JObj [ ("budget", JStr "budget-high"); ("style", JArr [JStr "grunge"]);
            ("sustainability", JNum 0) ])
  = inr [ ("style", JArr [JStr "grunge"]);
          ("budget", JObj [ ("min", JNum 1500); ("max", JNum 3000);
                            ("currency", JStr "INR") ]) ].
Proof. reflexivity. Qed.

Example parse_unknown_bracket :
  parseOnboardingAnswers (JObj [("budget", JStr "lavish")])
  = inr [("budget", JObj [("currency", JStr "INR")])].
Proof. reflexivity. Qed.

Example trending_sample :
  _id <$> findShops Samples.budgetCatalog active byReviewsThenRating 12
  = [3; 2; 1; 5; 4]%N.
Proof. reflexivity. Qed.

Example newest_sample :
  _id <$> findShops Samples.budgetCatalog active byNewest 3 = [5; 4; 3]%N.
Proof. reflexivity. Qed.

Example sample_draws :
  _id <$> sample (λ n, n + 1)%nat 0 3 Samples.budgetCatalog = [2; 4; 1]%N.
Proof. reflexivity. Qed.

(** ** Positions in lists *)

Lemma precedes_nil {A} (a b : A) : ¬ precedes a b [].
Proof. intros (i & j & _ & Hi & _). by rewrite lookup_nil in Hi. Qed.

Lemma precedes_cons {A} (a b x : A) (l : list A) :
  precedes a b (x :: l) ↔ (x = a ∧ b ∈ l) ∨ precedes a b l.
Proof.
  split.
  - intros (i & j & Hlt & Hi & Hj).
    destruct j as [|j]; [lia|]. simpl in Hj.
    destruct i as [|i]; simpl in Hi.
    + left. split; [congruence|]. apply list_elem_of_lookup. eauto.
    + right. exists i, j. split; [lia|done].
  - intros [[-> Hb]|(i & j & Hlt & Hi & Hj)].
    + apply list_elem_of_lookup in Hb as [j Hj].
      exists 0%nat, (S j). split; [lia|done].
    + exists (S i), (S j). split; [lia|done].
Qed.

Lemma precedes_elem_of {A} (a b : A) (l : list A) :
  precedes a b l → a ∈ l ∧ b ∈ l.
Proof.
  intros (i & j & _ & Hi & Hj). split; apply list_elem_of_lookup; eauto.
Qed.

Lemma precedes_app {A} (a b : A) (l1 l2 : list A) :
  precedes a b (l1 ++ l2) ↔
  precedes a b l1 ∨ precedes a b l2 ∨ (a ∈ l1 ∧ b ∈ l2).
Proof.
  induction l1 as [|x l1 IH]; simpl.
  - split; [tauto|]. intros [H|[H|[H _]]]; [by apply precedes_nil in H|done|].
    by apply elem_of_nil in H.
  - rewrite !precedes_cons, IH, elem_of_app, elem_of_cons. naive_solver.
Qed.

Lemma precedes_take {A} (a b : A) (n : nat) (l : list A) :
  precedes a b (take n l) → precedes a b l.
Proof.
  intros (i & j & Hlt & Hi & Hj).
  apply lookup_take_Some in Hi as [Hi _]. apply lookup_take_Some in Hj as [Hj _].
  by exists i, j.
Qed.

Lemma precedes_filter {A} (P : A → Prop) `{∀ x, Decision (P x)} (a b : A) (l : list A) :
  precedes a b (filter P l) → precedes a b l.
Proof.
  induction l as [|x l IH]; [done|].
  rewrite filter_cons. destruct (decide (P x)).
  - rewrite !precedes_cons, list_elem_of_filter. naive_solver.
  - rewrite precedes_cons. auto.
Qed.

(** ** The stable sort *)

Section StableSortFacts.
Context {A : Type} (before : A → A → bool).
Hypothesis before_asym : ∀ a b, before a b = true → before b a = false.
Hypothesis not_before_trans :
  ∀ a b c, before b a = false → before c b = false → before c a = false.

Lemma insert_sorted_split (x : A) (l : list A) :
  ∃ l1 l2, l = l1 ++ l2 ∧ insert_sorted before x l = l1 ++ x :: l2 ∧
           Forall (λ y, before y x = true) l1 ∧
           match l2 with [] => True | y :: _ => before y x = false end.
Proof.
  induction l as [|y l (l1 & l2 & -> & Hins & Hall & Hhd)]; simpl.
  - by exists [], [].
  - destruct (before y x) eqn:Hyx.
    + exists (y :: l1), l2. rewrite Hins. by repeat split; [constructor|..].
    + by exists [], (y :: l1 ++ l2).
Qed.

Lemma insert_sorted_perm (x : A) (l : list A) : insert_sorted before x l ≡ₚ x :: l.
Proof.
  destruct (insert_sorted_split x l) as (l1 & l2 & -> & -> & _).
  by rewrite Permutation_middle.
Qed.

Lemma stable_sort_perm (l : list A) : stable_sort before l ≡ₚ l.
Proof.
  induction l as [|x l IH]; [done|]. simpl.
  by rewrite insert_sorted_perm, IH.
Qed.

(** No element of the result is strictly after one it should precede. *)
Lemma stable_sort_sorted (l : list A) (a b : A) :
  precedes a b (stable_sort before l) → before b a = false.
Proof.
  revert a b. induction l as [|x l IH]; intros a b; simpl.
  - by intros ?%precedes_nil.
  - destruct (insert_sorted_split x (stable_sort before l))
      as (l1 & l2 & Heq & -> & Hall & Hhd).
    fold (stable_sort before l) in *. rewrite Heq in IH.
    rewrite precedes_app, precedes_cons, elem_of_cons.
    intros [H|[[[-> Hb]|H]|[Ha [->|Hb]]]].
    + apply IH, precedes_app; auto.
    + destruct l2 as [|y l2]; [by apply elem_of_nil in Hb|].
      apply elem_of_cons in Hb as [->|Hb]; [done|].
      apply (not_before_trans _ y); [done|].
      apply IH, precedes_app. right; left. apply precedes_cons; auto.
    + apply IH, precedes_app; auto.
    + apply before_asym. by eapply (proj1 (Forall_forall _ _) Hall).
    + apply IH, precedes_app; auto.
Qed.

(** Elements that tie keep the order they had in the input. *)
Lemma stable_sort_stable (l : list A) (a b : A) :
  precedes a b (stable_sort before l) → before a b = false → precedes a b l.
Proof.
  intros Hp Hab. revert Hp. induction l as [|x l IH]; simpl.
  - by intros ?%precedes_nil.
  - destruct (insert_sorted_split x (stable_sort before l))
      as (l1 & l2 & Heq & -> & Hall & Hhd).
    fold (stable_sort before l) in *. rewrite Heq in IH.
    rewrite precedes_app, !precedes_cons, elem_of_cons.
    intros [H|[[[-> Hb]|H]|[Ha [->|Hb]]]].
    + right. apply IH, precedes_app; auto.
    + left. split; [done|]. rewrite <-(stable_sort_perm l), Heq.
      apply elem_of_app; auto.
    + right. apply IH, precedes_app; auto.
    + apply (proj1 (Forall_forall _ _) Hall) in Ha. congruence.
    + right. apply IH, precedes_app; auto.
Qed.
End StableSortFacts.

(** ** Sort orders *)

Lemma cmpValue_order : OrderCmp cmpValue.
Proof.
  split.
  - intros [x|] [y|]; simpl; try done. by rewrite <-Qcompare_antisym.
  - intros [x|] [y|] [z|]; simpl; try done.
    rewrite <-!Qlt_alt. apply Qlt_trans.
  - intros [x|] [y|] [z|]; simpl; try done.
    intros Hxy%Qeq_alt. by rewrite Hxy.
Qed.

Lemma OrderCmp_on {A B} (f : A → B) (c : B → B → comparison) :
  OrderCmp c → OrderCmp (λ a b, c (f a) (f b)).
Proof. intros [Hs Ht He]. split; eauto. Qed.

Lemma OrderCmp_opp {A} (c : A → A → comparison) :
  OrderCmp c → OrderCmp (λ a b, CompOpp (c a b)).
Proof.
  intros [Hs Ht He]. split.
  - intros a b. by rewrite (Hs a b).
  - intros a b d Hab Hbd.
    rewrite (Hs d a). rewrite (Hs b a) in Hab. rewrite (Hs d b) in Hbd.
    rewrite (Ht d b a); [done|..].
    + by destruct (c d b).
    + by destruct (c b a).
  - intros a b d Hab. f_equal. apply He. by destruct (c a b).
Qed.

Lemma OrderCmp_lex {A} (c1 c2 : A → A → comparison) :
  OrderCmp c1 → OrderCmp c2 →
  OrderCmp (λ a b, match c1 a b with Eq => c2 a b | r => r end).
Proof.
  intros [Hs1 Ht1 He1] [Hs2 Ht2 He2]. split.
  - intros a b. rewrite (Hs1 a b), (Hs2 a b). by destruct (c1 a b).
  - intros a b d.
    destruct (c1 a b) eqn:Hab; [|intros _|done].
    + rewrite (He1 a b d Hab). destruct (c1 b d); eauto.
    + destruct (c1 b d) eqn:Hbd; [|intros _|done].
      * assert (c1 a d = Lt) as ->; [|done].
        assert (c1 d b = Eq) as Hdb by (by rewrite (Hs1 b d), Hbd).
        by rewrite (Hs1 d a), (He1 d b a Hdb), (Hs1 a b), Hab.
      * by rewrite (Ht1 a b d).
  - intros a b d.
    destruct (c1 a b) eqn:Hab; [|done..].
    intros H2. rewrite (He1 a b d Hab). destruct (c1 b d); eauto.
Qed.

Lemma cmpField_order (fd : SortField * Direction) : OrderCmp (cmpField fd).
Proof.
  destruct fd as [f []]; unfold cmpField; simpl.
  - apply (OrderCmp_on (fieldValue f)), cmpValue_order.
  - apply OrderCmp_opp, (OrderCmp_on (fieldValue f)), cmpValue_order.
Qed.

Lemma cmpSpec_order (spec : list (SortField * Direction)) : OrderCmp (cmpSpec spec).
Proof.
  induction spec as [|fd spec IH]; simpl.
  - by split.
  - apply (OrderCmp_lex (cmpField fd) (cmpSpec spec)); [apply cmpField_order|done].
Qed.

Lemma sortsBefore_asym spec a b :
  sortsBefore spec a b = true → sortsBefore spec b a = false.
Proof.
  unfold sortsBefore. rewrite (cmp_sym _ (cmpSpec_order spec) a b).
  by destruct (cmpSpec spec a b).
Qed.

Lemma sortsBefore_not_trans spec a b c :
  sortsBefore spec b a = false → sortsBefore spec c b = false →
  sortsBefore spec c a = false.
Proof.
  pose proof (cmpSpec_order spec) as [Hs Ht He]. unfold sortsBefore.
  destruct (cmpSpec spec c a) eqn:Hca; [done| |done].
  destruct (cmpSpec spec b a) eqn:Hba; [|done|]; intros _.
  - rewrite (Hs b c), (He b a c Hba), <-(Hs a c), Hca. done.
  - assert (cmpSpec spec a b = Lt) as Hab by (by rewrite (Hs b a), Hba).
    by rewrite (Ht c a b).
Qed.

(** ** Queries over the catalog *)

Lemma matches_active (s : IShop) : matches active s = isActive s.
Proof. unfold matches. simpl. by rewrite !andb_true_r. Qed.

Lemma active_filter (catalog : list IShop) :
  filter (λ s, matches active s) catalog = filter (λ s, isActive s) catalog.
Proof. apply list_filter_iff. intros s. by rewrite matches_active. Qed.

Lemma ranking_perm catalog q spec :
  ranking catalog q spec ≡ₚ filter (λ s, matches q s) catalog.
Proof. apply stable_sort_perm. Qed.

Lemma ranking_sorted catalog q spec a b :
  precedes a b (ranking catalog q spec) → sortsBefore spec b a = false.
Proof.
  apply stable_sort_sorted;
    [apply sortsBefore_asym | apply sortsBefore_not_trans].
Qed.

Lemma ranking_stable catalog q spec a b :
  precedes a b (ranking catalog q spec) → sortsBefore spec a b = false →
  precedes a b catalog.
Proof.
  intros Hp Hab. eapply precedes_filter, stable_sort_stable; eauto.
Qed.

(** Hydration changes nothing the filters, the identifiers or the other
    sort keys depend on. *)
Lemma hydrateShop_id (s : IShop) : _id (hydrateShop s) = _id s.
Proof. done. Qed.

Lemma hydrateShop_ids (l : list IShop) : _id <$> (hydrateShop <$> l) = _id <$> l.
Proof. rewrite <-list_fmap_compose. by apply list_fmap_ext. Qed.

Lemma matches_hydrate (q : CastQuery) (s : IShop) :
  matches q (hydrateShop s) = matches q s.
Proof. done. Qed.

Lemma hydrateShop_stored (s : IShop) :
  is_Some (reviewCount s) → hydrateShop s = s.
Proof. destruct s as [? ? ? ? ? ? ? rc ? ? ?]. by intros [q [= ->]]. Qed.

Lemma hydrateShop_idemp (s : IShop) : hydrateShop (hydrateShop s) = hydrateShop s.
Proof. done. Qed.

Lemma findShops_submseteq catalog q spec n :
  findShops catalog q spec n ⊆+ hydrateShop <$> filter (λ s, matches q s) catalog.
Proof.
  unfold findShops. apply fmap_submseteq.
  rewrite <-(ranking_perm catalog q spec). apply submseteq_take.
Qed.

Lemma findShops_elem_of catalog q spec n s :
  s ∈ findShops catalog q spec n →
  matches q s = true ∧ s ∈ hydrateShop <$> catalog.
Proof.
  intros Hs. eapply elem_of_submseteq in Hs; [|apply findShops_submseteq].
  apply list_elem_of_fmap in Hs as (s0 & -> & Hs0).
  apply list_elem_of_filter in Hs0 as [Hm ?]. split.
  - rewrite matches_hydrate. by apply Is_true_true.
  - by apply list_elem_of_fmap_2.
Qed.

Lemma findShops_length catalog q spec n :
  length (findShops catalog q spec n)
  = n `min` length (filter (λ s, matches q s) catalog).
Proof.
  unfold findShops. by rewrite length_fmap, length_take, (ranking_perm catalog q spec).
Qed.

(** ** Running requests *)

Lemma run_bind {A B} (m : M A) (k : A → M B) (st : St) :
  run (m ≫= k) st =
  match run m st with
  | (st', inl e) => (st', inl e)
  | (st', inr a) => run (k a) st'
  end.
Proof. done. Qed.

Lemma run_ret {A} (a : A) (st : St) : run (mret a) st = (st, inr a).
Proof. done. Qed.

Lemma run_throw {A} (e : Exn) (st : St) : run (@throw A e) st = (st, inl e).
Proof. done. Qed.

Lemma run_read (w : World) (st : St) :
  run (read w) st
  = ({| reads := S (reads st); draws := draws st |},
     if readFails w (reads st) then inl RepositoryError else inr ()).
Proof. done. Qed.

Lemma run_advance (k : nat) (st : St) :
  run (advance k) st
  = ({| reads := reads st; draws := draws st + k |}, inr (draws st)).
Proof. done. Qed.

Ltac run_step :=
  rewrite ?run_bind, ?run_read, ?run_advance, ?run_ret, ?run_throw;
  cbv beta iota.

Lemma run_read_ok (w : World) (st : St) :
  readFails w (reads st) = false →
  run (read w) st = ({| reads := S (reads st); draws := draws st |}, inr ()).
Proof. intros H. unfold read; simpl. by rewrite H. Qed.

Lemma stops_ret w {A} (a : A) : stopsAtFailure w (mret a).
Proof. intros st st' r [= <- <-]. split; [done|]. intros; lia. Qed.

Lemma stops_throw w {A} (e : Exn) : stopsAtFailure w (@throw A e).
Proof. intros st st' r [= <- <-]. split; [done|]. intros; lia. Qed.

Lemma stops_read w : stopsAtFailure w (read w).
Proof.
  intros st st' r [= <- <-]; simpl. split; [lia|].
  intros i Hi Hf. assert (i = reads st) as -> by lia. rewrite Hf. eauto.
Qed.

Lemma stops_advance w k : stopsAtFailure w (advance k).
Proof. intros st st' r [= <- <-]; simpl. split; [done|]. intros; lia. Qed.

Lemma stops_bind w {A B} (m : M A) (k : A → M B) :
  stopsAtFailure w m → (∀ a, stopsAtFailure w (k a)) → stopsAtFailure w (m ≫= k).
Proof.
  intros Hm Hk st st' r. rewrite run_bind.
  destruct (run m st) as [st1 [e|a]] eqn:Hrun.
  - intros [= <- <-]. destruct (Hm _ _ _ Hrun) as [Hle Hf]. split; [done|].
    intros i Hi Hfi. destruct (Hf i Hi Hfi) as [? _]. eauto.
  - intros Hrun'. destruct (Hm _ _ _ Hrun) as [Hle1 Hf1].
    destruct (Hk a _ _ _ Hrun') as [Hle2 Hf2]. split; [lia|].
    intros i Hi Hf. destruct (decide (i < reads st1)%nat) as [Hlt|Hge].
    + destruct (Hf1 i) as [_ [e He]]; [lia|done|done].
    + apply Hf2; [lia|done].
Qed.

Lemma stops_Shop_find w q spec n : stopsAtFailure w (Shop_find w q spec n).
Proof.
  unfold Shop_find. destruct (castQuery w q); [|apply stops_throw].
  apply stops_bind; [apply stops_read|]. intros; apply stops_ret.
Qed.

Lemma stops_Shop_aggregate w nin k : stopsAtFailure w (Shop_aggregate w nin k).
Proof.
  unfold Shop_aggregate. apply stops_bind; [apply stops_read|]. intros _.
  apply stops_bind; [apply stops_advance|]. intros; apply stops_ret.
Qed.

Lemma stops_User_findById w id : stopsAtFailure w (User_findById w id).
Proof.
  unfold User_findById. apply stops_bind; [apply stops_read|].
  intros; apply stops_ret.
Qed.

Lemma stops_getPersonalizedShops w prefs :
  stopsAtFailure w (getPersonalizedShops w prefs).
Proof.
  unfold getPersonalizedShops. destruct (collectTags _ _); [apply stops_throw|].
  apply stops_bind; [apply stops_Shop_find|]. intros shops.
  destruct (_ <? _)%nat; [|apply stops_ret].
  apply stops_bind; [apply stops_Shop_aggregate|]. intros; apply stops_ret.
Qed.

Lemma stops_sectionsBody w userId : stopsAtFailure w (sectionsBody w userId).
Proof.
  unfold sectionsBody. apply stops_bind.
  - destruct userId as [uid|]; [|apply stops_ret].
    apply stops_bind; [apply stops_User_findById|]. intros user.
    destruct (user ≫= preferences); [|apply stops_ret].
    apply stops_bind; [apply stops_getPersonalizedShops|]. intros; apply stops_ret.
  - intros forYou. apply stops_bind; [apply stops_Shop_find|]. intros tr.
    apply stops_bind; [apply stops_Shop_find|]. intros; apply stops_ret.
Qed.

(** ** Trending *)

Lemma cmpValue_refl (x : option Q) : cmpValue x x = Eq.
Proof.
  pose proof (cmp_sym _ cmpValue_order x x) as H. by destruct (cmpValue x x).
Qed.

Lemma trending_before (a b : IShop) :
  sortsBefore byReviewsThenRating a b =
  match cmpValue (reviewCount a) (reviewCount b) with
  | Gt => true
  | Lt => false
  | Eq => match cmpValue (rating a) (rating b) with Gt => true | _ => false end
  end.
Proof.
  unfold sortsBefore, byReviewsThenRating, cmpSpec, cmpField; simpl.
  destruct (cmpValue (reviewCount a) _); simpl; try done.
  by destruct (cmpValue (rating a) _).
Qed.

Lemma trending_ok (w : World) :
  readFails w 0 = false →
  trending w start
  = ({| reads := 1; draws := 0 |},
     Success (Shops (findShops (shops w) active byReviewsThenRating 12))).
Proof.
  intros Hr. unfold trending, handler, Shop_find. simpl. by rewrite Hr.
Qed.

(** C9, as stated, fails on the review counts a response shows: of two
    shops, one stored with the review count 0 and one stored without any,
    both are shown with 0, and the one with the lower rating stands first. *)
Lemma trending_shown_counts_misordered :
  ∃ a b,
    snd (trending (MoreSamples.worldOf MoreSamples.uncounted [] Samples.never) start)
    = Success (Shops [a; b]) ∧
    same (reviewCount a) (reviewCount b) ∧ higher (rating b) (rating a).
Proof. eexists _, _. split; [reflexivity|]. split; reflexivity. Qed.

(** C9, amended: a Trending result is the first N shops of the ranking of
    the active shops by stored review count, then rating, each shown with the
    schema default 0 where it is stored without a review count.  In that
    ranking a shop with a higher stored review count comes first, a missing
    one being lower than every number; with equal stored review counts the
    higher rating comes first; with both equal the catalog order is kept.
    Where every stored shop has a review count, this is the order on the
    review counts the response shows. *)
Theorem trending_order (w : World) (Hread : readFails w 0 = false) :
  let rk := ranking (shops w) active byReviewsThenRating in
  rk ≡ₚ filter (λ s, isActive s) (shops w) ∧
  snd (trending w start) = Success (Shops (hydrateShop <$> take 12 rk)) ∧
  (∀ n, findShops (shops w) active byReviewsThenRating n
        = hydrateShop <$> take n rk) ∧
  (∀ s, rating (hydrateShop s) = rating s ∧
        reviewCount (hydrateShop s) = Some (default 0%Q (reviewCount s))) ∧
  (∀ i j a b, rk !! i = Some a → rk !! j = Some b →
    (higher (reviewCount a) (reviewCount b) → (i < j)%nat) ∧
    (same (reviewCount a) (reviewCount b) → higher (rating a) (rating b) →
       (i < j)%nat) ∧
    (same (reviewCount a) (reviewCount b) → same (rating a) (rating b) →
       (i < j)%nat → precedes a b (shops w))) ∧
  (Forall (λ s, is_Some (reviewCount s)) (shops w) →
   ∃ res, snd (trending w start) = Success (Shops res) ∧
     ∀ i j a b, res !! i = Some a → res !! j = Some b →
       (higher (reviewCount a) (reviewCount b) → (i < j)%nat) ∧
       (same (reviewCount a) (reviewCount b) → higher (rating a) (rating b) →
          (i < j)%nat) ∧
       (same (reviewCount a) (reviewCount b) → same (rating a) (rating b) →
          (i < j)%nat → precedes a b (shops w))).
Proof.
  intros rk.
  assert (∀ i j a b, rk !! i = Some a → rk !! j = Some b →
    (higher (reviewCount a) (reviewCount b) → (i < j)%nat) ∧
    (same (reviewCount a) (reviewCount b) → higher (rating a) (rating b) →
       (i < j)%nat) ∧
    (same (reviewCount a) (reviewCount b) → same (rating a) (rating b) →
       (i < j)%nat → precedes a b (shops w))) as Hstored.
  { intros i j a b Hi Hj.
    assert (sortsBefore byReviewsThenRating a b = true → (i < j)%nat) as Hlt.
    { intros Hab. destruct (decide (i < j)%nat) as [|Hge]; [done|exfalso].
      destruct (decide (i = j)) as [->|Hne].
      - assert (a = b) as -> by congruence.
        rewrite trending_before, !cmpValue_refl in Hab. done.
      - assert (precedes b a rk) as Hp by (exists j, i; split; [lia|done]).
        apply ranking_sorted in Hp. congruence. }
    unfold higher, same. repeat split.
    + intros H. apply Hlt. by rewrite trending_before, H.
    + intros H1 H2. apply Hlt. by rewrite trending_before, H1, H2.
    + intros H1 H2 Hij. apply (ranking_stable _ active byReviewsThenRating).
      * by exists i, j.
      * by rewrite trending_before, H1, H2. }
  split_and!; try done.
  - unfold rk. rewrite ranking_perm, active_filter. done.
  - by rewrite trending_ok.
  - intros Hall. exists (take 12 rk). split.
    + rewrite trending_ok by done. cbn [snd]. unfold findShops. fold rk.
      do 2 f_equal. rewrite <-(list_fmap_id (take 12 rk)) at 2.
      apply list_fmap_ext. intros k s Hs. apply hydrateShop_stored.
      rewrite Forall_forall in Hall. apply Hall.
      apply lookup_take_Some in Hs as [Hs _]. apply list_elem_of_lookup_2 in Hs.
      unfold rk in Hs. rewrite ranking_perm in Hs.
      by apply list_elem_of_filter in Hs as [_ ?].
    + intros i j a b [Hi _]%lookup_take_Some [Hj _]%lookup_take_Some.
      by apply Hstored.
Qed.

Lemma trending_order_witness :
  ∃ res,
    snd (trending (Samples.world Samples.budgetCatalog Samples.never) start)
    = Success (Shops res) ∧ _id <$> res = [3; 2; 1; 5; 4]%N.
Proof.
  destruct (proj2 (proj2 (proj2 (proj2 (proj2
    (trending_order (Samples.world Samples.budgetCatalog Samples.never) eq_refl)))))
    ltac:(repeat constructor; by eexists)) as (res & Hres & _).
  exists res. split; [exact Hres|].
  injection Hres as <-. reflexivity.
Defined.

(** ** Repository failures in [/sections] *)

(** C7: when a read of a [/sections] request fails, also after earlier
    sections were computed, the response is the 500 failure, which carries
    no section; the failed read is the last one issued (nothing is retried,
    nothing further is read). *)
Theorem sections_read_failure (w : World) (userId : option ObjectId)
    (st' : St) (resp : Response) (i : nat) :
  sections w userId start = (st', resp) →
  (i < reads st')%nat →
  readFails w i = true →
  resp = Failure 500 "Failed to get explore sections" ∧ reads st' = S i.
Proof.
  unfold sections, handler. rewrite run_bind.
  destruct (run (sectionsBody w userId) start) as [st1 [e|secs]] eqn:Hrun.
  - intros [= <- <-] Hi Hf. split; [done|].
    destruct (stops_sectionsBody w userId _ _ _ Hrun) as [_ H].
    destruct (H i) as [? _]; [simpl; lia|done|done].
  - rewrite run_ret. intros [= <- <-] Hi Hf.
    destruct (stops_sectionsBody w userId _ _ _ Hrun) as [_ H].
    destruct (H i) as [_ [e He]]; [simpl; lia|done|done].
Qed.

Lemma sections_read_failure_witness :
  snd (sections (Samples.world Samples.budgetCatalog (Samples.onlyAt 3)) (Some 7%N) start)
  = Failure 500 "Failed to get explore sections".
Proof.
  refine (proj1 (sections_read_failure
    (Samples.world Samples.budgetCatalog (Samples.onlyAt 3)) (Some 7%N)
    (fst (sections (Samples.world Samples.budgetCatalog (Samples.onlyAt 3))
            (Some 7%N) start)) _ 3 _ _ _)).
  - apply surjective_pairing.
  - vm_compute. lia.
  - reflexivity.
Defined.

(** ** Sampling *)

Lemma sample_submseteq rand pos k (pool : list IShop) :
  sample rand pos k pool ⊆+ pool.
Proof.
  revert pos pool. induction k as [|k IH]; intros pos pool; simpl.
  - apply submseteq_nil_l.
  - destruct (pool !! _) as [s|] eqn:Hs; [|apply submseteq_nil_l].
    etrans; [apply submseteq_skip, IH|].
    apply Permutation_submseteq. symmetry. by apply delete_Permutation.
Qed.

Lemma sample_length rand pos k (pool : list IShop) :
  length (sample rand pos k pool) = k `min` length pool.
Proof.
  revert pos pool. induction k as [|k IH]; intros pos pool; simpl; [done|].
  destruct pool as [|s0 pool'] eqn:Hpool.
  - by rewrite lookup_nil.
  - rewrite <-Hpool.
    assert (rand pos mod length pool < length pool)%nat as Hlt.
    { apply Nat.mod_upper_bound. by rewrite Hpool. }
    destruct (lookup_lt_is_Some_2 pool _ Hlt) as [s Hs]. rewrite Hs. simpl.
    rewrite IH, length_delete by eauto. rewrite Hpool. simpl. lia.
Qed.

(** When the pool has no more than [k] shops the sample takes them all. *)
Lemma sample_exhausts rand pos k (pool : list IShop) :
  (length pool ≤ k)%nat → sample rand pos k pool ≡ₚ pool.
Proof.
  intros Hk. apply submseteq_length_Permutation.
  - apply sample_submseteq.
  - rewrite sample_length. lia.
Qed.

(** ** The content-match scorer *)

Lemma castQuery_personalized w prefs tags :
  castQuery w (personalizedQuery prefs tags) = Some (contentQuery prefs tags).
Proof.
  unfold castQuery, personalizedQuery, contentQuery; simpl.
  by destruct (0 <? length tags)%nat.
Qed.

Lemma getPersonalizedShops_inv w prefs st st' result :
  run (getPersonalizedShops w prefs) st = (st', inr result) →
  ∃ tags, collectTags (style prefs) [] = inr tags ∧
    result = contentMatches (shops w) prefs tags
             ++ backfill w (draws st) (contentMatches (shops w) prefs tags).
Proof.
  unfold getPersonalizedShops, backfill.
  destruct (collectTags _ _) as [e|tags]; [done|].
  unfold Shop_find. rewrite castQuery_personalized.
  fold (contentMatches (shops w) prefs tags).
  run_step. destruct (readFails w (reads st)); [done|]. run_step.
  destruct (_ <? 6)%nat eqn:Hshort.
  - unfold Shop_aggregate. run_step.
    destruct (readFails w _); [done|]. run_step.
    intros [= <- <-]. exists tags. by rewrite Hshort.
  - run_step. intros [= <- <-]. exists tags. by rewrite Hshort, app_nil_r.
Qed.

Lemma getPersonalizedShops_ok w prefs tags st :
  collectTags (style prefs) [] = inr tags →
  reliable w →
  ∃ st', run (getPersonalizedShops w prefs) st
         = (st', inr (contentMatches (shops w) prefs tags
                      ++ backfill w (draws st) (contentMatches (shops w) prefs tags)))
         ∧ (reads st < reads st')%nat.
Proof.
  intros Htags Hrel. unfold getPersonalizedShops, backfill. rewrite Htags.
  unfold Shop_find. rewrite castQuery_personalized.
  fold (contentMatches (shops w) prefs tags).
  run_step. rewrite Hrel. run_step.
  destruct (_ <? 6)%nat eqn:Hshort.
  - unfold Shop_aggregate. run_step. rewrite Hrel. run_step.
    eexists; split; [done|]. simpl. lia.
  - run_step. rewrite app_nil_r. eexists; split; [done|]. simpl. lia.
Qed.

(** ** The sections of [/sections] *)

Lemma submseteq_NoDup {A} (l k : list A) : l ⊆+ k → NoDup k → NoDup l.
Proof.
  intros [k' Hk]%submseteq_Permutation. rewrite Hk, NoDup_app. tauto.
Qed.

Lemma findShops_ids_NoDup catalog q spec n :
  NoDup (_id <$> catalog) → NoDup (_id <$> findShops catalog q spec n).
Proof.
  apply submseteq_NoDup. unfold findShops. rewrite hydrateShop_ids.
  apply fmap_submseteq. etrans; [apply submseteq_take|].
  rewrite ranking_perm. apply sublist_submseteq, sublist_filter.
Qed.

Lemma samplePool_elem_of catalog ids s :
  s ∈ samplePool catalog (Some ids) ↔ (isActive s = true ∧ _id s ∉ ids) ∧ s ∈ catalog.
Proof.
  unfold samplePool. rewrite list_elem_of_filter. unfold matches; simpl.
  rewrite !andb_true_r, andb_True, negb_True, bool_decide_spec, Is_true_true.
  tauto.
Qed.

Lemma backfill_submseteq w pos matched :
  backfill w pos matched ⊆+ samplePool (shops w) (Some (_id <$> matched)).
Proof.
  unfold backfill. destruct (_ <? _)%nat; [apply sample_submseteq|].
  apply submseteq_nil_l.
Qed.

Lemma backfill_elem_of w pos matched s :
  s ∈ backfill w pos matched →
  isActive s = true ∧ (_id s ∉ _id <$> matched) ∧ s ∈ shops w.
Proof.
  intros Hs. eapply elem_of_submseteq in Hs; [|apply backfill_submseteq].
  apply samplePool_elem_of in Hs. tauto.
Qed.

Lemma personalized_ids_NoDup w pos matched :
  NoDup (_id <$> shops w) → NoDup (_id <$> matched) →
  NoDup (_id <$> (matched ++ backfill w pos matched)).
Proof.
  intros Hcat Hm. rewrite fmap_app. apply NoDup_app. split; [done|]. split.
  - intros id Hid [s [-> Hs]]%list_elem_of_fmap.
    apply backfill_elem_of in Hs. tauto.
  - revert Hcat. apply submseteq_NoDup, fmap_submseteq.
    etrans; [apply backfill_submseteq|].
    apply sublist_submseteq, sublist_filter.
Qed.

Lemma shopIds_item r score b (l : list IShop) (t st ty : string) :
  shopIds {| title := t; subtitle := st; type_ := ty; items := item r score b <$> l |}
  = _id <$> l.
Proof. unfold shopIds; simpl. by rewrite <-list_fmap_compose. Qed.

Lemma castQuery_activeOnly w : castQuery w activeOnly = Some active.
Proof. done. Qed.

(** What a successful composition returns. *)
Lemma sectionsBody_inv w userId st st' secs :
  run (sectionsBody w userId) st = (st', inr secs) →
  ∃ fy, secs = fy ++ [trendingSection (findShops (shops w) active byReviewsThenRating 6);
                      newSection (findShops (shops w) active byNewest 6)] ∧
    match userId ≫= lookupUser w with
    | None => fy = []
    | Some d => ∃ tags pos,
        collectTags (style (profileOf d)) [] = inr tags ∧
        fy = [forYouSection
                (contentMatches (shops w) (profileOf d) tags
                 ++ backfill w pos (contentMatches (shops w) (profileOf d) tags))]
    end.
Proof.
  unfold sectionsBody. run_step.
  destruct (run (match userId with Some _ => _ | None => _ end) st)
    as [st1 [e|fy]] eqn:Hfy; [done|].
  unfold Shop_find. rewrite castQuery_activeOnly. run_step.
  destruct (readFails w (reads st1)); [done|]. run_step.
  destruct (readFails w _); [done|]. run_step.
  intros [= <- <-]. exists fy. split; [by rewrite <-app_assoc|].
  destruct userId as [uid|]; simpl; [|by inversion Hfy].
  revert Hfy. unfold User_findById. run_step.
  destruct (readFails w (reads st)); [done|]. run_step.
  destruct (lookupUser w uid) as [d|]; simpl; [|by intros [= <- <-]].
  run_step.
  destruct (run (getPersonalizedShops w _) _) as [st2 [e|res]] eqn:Hres; [done|].
  run_step. intros [= <- <-].
  apply getPersonalizedShops_inv in Hres as (tags & Htags & ->). eauto.
Qed.

Lemma sections_inv w userId st' secs :
  sections w userId start = (st', Success (Sections secs)) →
  run (sectionsBody w userId) start = (st', inr secs).
Proof.
  unfold sections, handler. run_step.
  destruct (run (sectionsBody w userId) start) as [st1 [e|s]]; [done|].
  run_step. by intros [= <- <-].
Qed.

(** C1, as stated, fails: with five active shops and an anonymous caller,
    Trending and Recently Added both list every shop. *)
Lemma sections_share_shops :
  ∃ secs,
    snd (sections (Samples.world Samples.budgetCatalog Samples.never) None start)
    = Success (Sections secs) ∧ ¬ disjointSections secs.
Proof.
  eexists. split; [vm_compute; reflexivity|].
  intros H. refine (H 0%nat 1%nat _ _ 1%N _ eq_refl eq_refl _ _).
  - done.
  - apply (bool_decide_unpack _). by vm_compute.
  - apply (bool_decide_unpack _). by vm_compute.
Qed.

(** C1 (amended): identifiers being unique in the catalog, no shop
    identifier appears twice within any one section of a [/sections]
    response; the sections are composed independently of one another. *)
Theorem sections_no_repeat_within (w : World) (userId : option ObjectId)
    (st' : St) (secs : list RecommendationSection) :
  NoDup (_id <$> shops w) →
  sections w userId start = (st', Success (Sections secs)) →
  ∀ sec, sec ∈ secs → NoDup (shopIds sec).
Proof.
  intros Hcat Hrun%sections_inv sec Hsec.
  apply sectionsBody_inv in Hrun as (fy & -> & Hfy).
  apply elem_of_app in Hsec as [Hsec|Hsec].
  - destruct (userId ≫= lookupUser w) as [d|];
      [|subst fy; by apply elem_of_nil in Hsec].
    destruct Hfy as (tags & pos & _ & ->).
    apply list_elem_of_singleton in Hsec as ->.
    unfold forYouSection. rewrite shopIds_item.
    by apply personalized_ids_NoDup, findShops_ids_NoDup.
  - apply elem_of_cons in Hsec as [->|Hsec];
      [|apply list_elem_of_singleton in Hsec as ->].
    + unfold trendingSection. rewrite shopIds_item. by apply findShops_ids_NoDup.
    + unfold newSection. rewrite shopIds_item. by apply findShops_ids_NoDup.
Qed.

Lemma sections_no_repeat_within_witness :
  NoDup (shopIds (trendingSection
                    (findShops Samples.budgetCatalog active byReviewsThenRating 6))).
Proof.
  refine (sections_no_repeat_within
    (Samples.world Samples.budgetCatalog Samples.never) None
    (fst (sections (Samples.world Samples.budgetCatalog Samples.never) None start))
    _ _ eq_refl _ _).
  - apply (bool_decide_unpack _). by vm_compute.
  - left.
Defined.

(** C4, as stated, fails: for an anonymous caller the response has two
    sections, Trending first; no "Recommended For You" section is built. *)
Lemma sections_anonymous_has_no_first_slot :
  snd (sections (Samples.world Samples.budgetCatalog Samples.never) None start)
  = Success (Sections
      [trendingSection (findShops Samples.budgetCatalog active byReviewsThenRating 6);
       newSection (findShops Samples.budgetCatalog active byNewest 6)])
  ∧ type_ (trendingSection
             (findShops Samples.budgetCatalog active byReviewsThenRating 6))
    ≠ "for-you".
Proof. split; [reflexivity|done]. Qed.

(** C4 (amended): a [/sections] response lists, in this order, the For You
    section, present exactly when the caller identity is that of a stored
    user, then Trending This Week, then Recently Added; without such an
    identity the response holds the last two only. *)
Theorem sections_order (w : World) (userId : option ObjectId)
    (st' : St) (secs : list RecommendationSection) :
  sections w userId start = (st', Success (Sections secs)) →
  ∃ fy tr nw,
    secs = fy ++ [tr; nw] ∧
    title tr = "Trending This Week" ∧ type_ tr = "trending" ∧
    title nw = "Recently Added" ∧ type_ nw = "new" ∧
    match userId ≫= lookupUser w with
    | Some _ => ∃ s, fy = [s] ∧ title s = "For You" ∧ type_ s = "for-you"
    | None => fy = []
    end.
Proof.
  intros Hrun%sections_inv.
  apply sectionsBody_inv in Hrun as (fy & -> & Hfy).
  eexists fy, _, _. split; [done|]. repeat split.
  destruct (userId ≫= lookupUser w) as [d|]; [|done].
  destruct Hfy as (tags & pos & _ & ->). eauto.
Qed.

Lemma sections_order_witness :
  ∃ fy tr nw,
    [trendingSection (findShops Samples.budgetCatalog active byReviewsThenRating 6);
     newSection (findShops Samples.budgetCatalog active byNewest 6)]
    = fy ++ [tr; nw] ∧
    title tr = "Trending This Week" ∧ type_ tr = "trending" ∧
    title nw = "Recently Added" ∧ type_ nw = "new" ∧ fy = [].
Proof.
  exact (sections_order (Samples.world Samples.budgetCatalog Samples.never) None
    (fst (sections (Samples.world Samples.budgetCatalog Samples.never) None start))
    _ eq_refl).
Defined.

(** ** The For You endpoint *)

Lemma forYou_inv w uid st' sec :
  forYou w (Some uid) start = (st', Success (OneSection sec)) →
  ∃ d tags,
    lookupUser w uid = Some d ∧
    collectTags (style (profileOf d)) [] = inr tags ∧
    sec = personalSection (profileOf d)
            (contentMatches (shops w) (profileOf d) tags
             ++ backfill w 0 (contentMatches (shops w) (profileOf d) tags)).
Proof.
  unfold forYou, handler, User_findById. run_step.
  destruct (readFails w (reads start)); [done|]. run_step.
  destruct (lookupUser w uid) as [d|]; simpl; [|run_step; done].
  run_step. fold (profileOf d).
  destruct (run (getPersonalizedShops w _) _) as [st2 [e|res]] eqn:Hres; [done|].
  run_step. intros [= <- <-].
  apply getPersonalizedShops_inv in Hres as (tags & Htags & ->). eauto.
Qed.

Lemma forYou_anonymous_inv w st' sec :
  forYou w None start = (st', Success (OneSection sec)) →
  sec = anonymousSection (sample (rand w) 0 12 (samplePool (shops w) None)).
Proof.
  unfold forYou, handler, Shop_aggregate. run_step.
  destruct (readFails w (reads start)); [done|]. run_step.
  by intros [= <- <-].
Qed.

(** C2, as stated, fails: five active shops tagged "Budget" and a profile
    whose style is "vintage" give no genuine match, and the five backfilled
    items are tagged as style matches with score 0.85. *)
Lemma forYou_backfill_tagged_as_match :
  contentMatches Samples.budgetCatalog (profileOf Samples.vintageFan)
    ["Vintage"; "Pre-Loved"; "Thrift"] = [] ∧
  ∃ sec,
    snd (forYou (Samples.world Samples.budgetCatalog Samples.never) (Some 7%N) start)
    = Success (OneSection sec) ∧
    length (items sec) = 5%nat ∧
    Forall (λ it, reason it = "Matches your vintage vibe" ∧
                  reason it ≠ "Popular in your area" ∧
                  matchScore it = 0.85%Q ∧ basedOn it = "style") (items sec).
Proof.
  split; [reflexivity|]. eexists. split; [vm_compute; reflexivity|].
  split; [reflexivity|]. repeat constructor; done.
Qed.

(** C2 (amended): in a For-You answer to an authenticated request every
    item, genuine match or backfilled, carries score 0.85, basis "style" and
    the reason naming the first vibe of the profile; the backfilled shops,
    drawn when the content-match query returns fewer than six, follow the
    genuine matches. *)
Theorem forYou_items_uniform (w : World) (uid : ObjectId) (st' : St)
    (sec : RecommendationSection) :
  forYou w (Some uid) start = (st', Success (OneSection sec)) →
  ∃ d tags,
    lookupUser w uid = Some d ∧
    collectTags (style (profileOf d)) [] = inr tags ∧
    let matched := contentMatches (shops w) (profileOf d) tags in
    let extra := backfill w 0 matched in
    shop <$> items sec = matched ++ extra ∧
    ((length matched < 6)%nat →
       length extra
       = (6 - length matched) `min`
           length (samplePool (shops w) (Some (_id <$> matched)))) ∧
    ((6 ≤ length matched)%nat → extra = []) ∧
    Forall (λ it, reason it = "Matches your " +:+ firstVibe (profileOf d) +:+ " vibe" ∧
                  matchScore it = 0.85%Q ∧ basedOn it = "style") (items sec).
Proof.
  intros (d & tags & Hd & Htags & ->)%forYou_inv. exists d, tags.
  split; [done|]. split; [done|]. simpl. repeat split.
  - rewrite <-list_fmap_compose. apply list_fmap_id.
  - intros Hlt. unfold backfill.
    apply Nat.ltb_lt in Hlt. rewrite Hlt. apply sample_length.
  - intros Hge. unfold backfill. apply Nat.ltb_ge in Hge. by rewrite Hge.
  - apply Forall_fmap, Forall_true. done.
Qed.

Lemma forYou_items_uniform_witness :
  ∃ d tags,
    lookupUser (Samples.world Samples.budgetCatalog Samples.never) 7%N = Some d ∧
    collectTags (style (profileOf d)) [] = inr tags.
Proof.
  destruct (forYou_items_uniform
    (Samples.world Samples.budgetCatalog Samples.never) 7%N
    (fst (forYou (Samples.world Samples.budgetCatalog Samples.never) (Some 7%N) start))
    _ eq_refl) as (d & tags & Hd & Htags & _).
  exists d, tags. split; [exact Hd|exact Htags].
Defined.

Lemma sample_nil rand pos k : sample rand pos k [] = [].
Proof. by destruct k. Qed.

Lemma collectTags_nil : collectTags [] [] = inr [].
Proof. done. Qed.

(** With no restriction and fewer than six matches, every active shop is
    already selected: nothing is left to draw from. *)
Lemma backfill_unrestricted w pos :
  backfill w pos (findShops (shops w) active byRatingThenReviews 12) = [].
Proof.
  unfold backfill. destruct (_ <? 6)%nat eqn:Hshort; [|done].
  apply Nat.ltb_lt in Hshort. rewrite findShops_length in Hshort.
  set (matched := findShops (shops w) active byRatingThenReviews 12).
  assert (samplePool (shops w) (Some (_id <$> matched)) = []) as ->;
    [|apply sample_nil].
  destruct (samplePool _ _) as [|s pool] eqn:Hpool; [done|exfalso].
  assert (s ∈ samplePool (shops w) (Some (_id <$> matched))) as Hs
    by (rewrite Hpool; left).
  apply samplePool_elem_of in Hs as [[Hact Hid] Hs]. apply Hid.
  apply list_elem_of_fmap. exists (hydrateShop s). split; [done|].
  unfold matched, findShops. apply list_elem_of_fmap_2. rewrite take_ge.
  - rewrite ranking_perm. apply list_elem_of_filter. split; [|done].
    rewrite matches_active. by apply Is_true_true.
  - rewrite (ranking_perm (shops w)). lia.
Qed.

(** C3, as stated, fails: a stored user with an empty profile is answered
    with the best rated shops tagged as style matches, not with the
    anonymous section. *)
Lemma forYou_empty_profile_is_not_anonymous :
  style (profileOf Samples.newcomer) = [] ∧
  favoriteLocations (profileOf Samples.newcomer) = [] ∧
  snd (forYou (Samples.world Samples.budgetCatalog Samples.never) (Some 8%N) start)
  ≠ snd (forYou (Samples.world Samples.budgetCatalog Samples.never) None start) ∧
  ∃ sec,
    snd (forYou (Samples.world Samples.budgetCatalog Samples.never) (Some 8%N) start)
    = Success (OneSection sec) ∧
    _id <$> (shop <$> items sec) = [3; 1; 2; 5; 4]%N ∧
    Forall (λ it, reason it = "Matches your style vibe" ∧ basedOn it = "style")
           (items sec).
Proof.
  split; [reflexivity|]. split; [reflexivity|]. split.
  - vm_compute. discriminate.
  - eexists. split; [vm_compute; reflexivity|]. split; [reflexivity|].
    repeat constructor.
Qed.

(** C3 (amended): for a stored user whose profile has no style vibes and no
    favorite locations, the For-You computation applies neither catalog
    restriction and answers with the first twelve active shops by rating,
    then review count, descending, each tagged "Matches your style vibe",
    score 0.85, basis "style"; the random sample tagged "Popular in your
    area", basis "trending", answers requests without a caller identity. *)
Theorem forYou_empty_profile (w : World) (uid : ObjectId) (d : UserDoc) :
  reliable w →
  lookupUser w uid = Some d →
  style (profileOf d) = [] →
  favoriteLocations (profileOf d) = [] →
  snd (forYou w (Some uid) start)
  = Success (OneSection
      {| title := "For You";
         subtitle := "Based on your style preferences";
         type_ := "for-you";
         items := item "Matches your style vibe" 0.85 "style"
                    <$> findShops (shops w) active byRatingThenReviews 12 |})
  ∧ snd (forYou w None start)
  = Success (OneSection
      {| title := "Recommended For You";
         subtitle := "Sign up to get personalized picks";
         type_ := "for-you";
         items := item "Popular in your area" 0.7 "trending"
                    <$> sample (rand w) 0 12 (filter (λ s, isActive s) (shops w)) |}).
Proof.
  intros Hrel Hd Hstyle Hloc. split.
  - unfold forYou, handler, User_findById. run_step. rewrite Hrel. run_step.
    rewrite Hd. simpl. fold (profileOf d).
    destruct (getPersonalizedShops_ok w (profileOf d) [] {| reads := 1; draws := 0 |})
      as (st' & Hrun & _); [by rewrite Hstyle|done|].
    run_step. simpl reads. simpl draws. rewrite Hrun. run_step. simpl.
    unfold contentMatches, contentQuery. rewrite Hloc. simpl.
    fold active. rewrite backfill_unrestricted, app_nil_r.
    unfold personalSection, firstVibe. by rewrite Hstyle.
  - unfold forYou, handler, Shop_aggregate. run_step. rewrite Hrel. run_step.
    simpl. unfold anonymousSection, samplePool. fold active.
    by rewrite active_filter.
Qed.

Lemma forYou_empty_profile_witness :
  snd (forYou (Samples.world Samples.budgetCatalog Samples.never) (Some 8%N) start)
  = Success (OneSection
      {| title := "For You";
         subtitle := "Based on your style preferences";
         type_ := "for-you";
         items := item "Matches your style vibe" 0.85 "style"
                    <$> findShops Samples.budgetCatalog active byRatingThenReviews 12 |}).
Proof.
  refine (proj1 (forYou_empty_profile
    (Samples.world Samples.budgetCatalog Samples.never) 8%N Samples.newcomer
    _ eq_refl eq_refl eq_refl)).
  intros i. reflexivity.
Defined.

(** ** Categories *)

(** A category that is "trending", that maps to no tag, or that names no
    property at all of the table object, is answered with the Trending
    query. *)
Lemma category_fallback (w : World) (c : string) (st : St) :
  c = "trending" ∨ getProp categoryTagMap c = PArray [] ∨
    getProp categoryTagMap c = PUndefined →
  run (if String.eqb c "trending" || lengthIsZero (categoryTags c)
       then Shop_find w activeOnly byReviewsThenRating 12
       else Shop_find w {| q_location := None; q_tag := Some (categoryTags c);
                           q_nin := None |} byRating 12) st
  = run (Shop_find w activeOnly byReviewsThenRating 12) st.
Proof.
  intros [->|[H|H]]; [done|..]; unfold categoryTags; rewrite H; simpl;
    by rewrite orb_true_r.
Qed.

Lemma category_unknown_is_trending (w : World) (c : string) :
  c = "trending" ∨ getProp categoryTagMap c = PArray [] ∨
    getProp categoryTagMap c = PUndefined →
  readFails w 0 = false →
  snd (category w c start) = snd (trending w start).
Proof.
  intros Hc Hr. unfold category, trending, handler. run_step.
  rewrite (category_fallback w c start Hc).
  unfold Shop_find. rewrite castQuery_activeOnly. run_step.
  change (reads start) with 0%nat. by rewrite Hr.
Qed.

(** C5 at the category "constructor": the name is no key of the
    category table, yet the lookup finds the member every object inherits, a
    function of length 1, and the route runs the tag query with it.
    Whatever the object mapper makes of that operand, the answer differs
    from the Trending answer. *)
Theorem category_constructor_is_not_trending
    (cast : jsProp → option (list string)) :
  let w := {| shops := Samples.twoShops; users := [];
              readFails := Samples.never; rand := λ n, n; castIn := cast |} in
  assoc "constructor" categoryTagMap = None ∧
  categoryTags "constructor" = PFunction 1 ∧
  snd (trending w start)
  = Success (Shops (findShops Samples.twoShops active byReviewsThenRating 12)) ∧
  snd (category w "constructor" start) ≠ snd (trending w start).
Proof.
  intros w. split; [done|]. split; [done|]. split; [done|].
  unfold category, trending, handler, Shop_find, castQuery.
  change (categoryTags "constructor") with (PFunction 1). simpl.
  destruct (cast (PFunction 1)) as [l|]; [|done].
  simpl. unfold findShops, ranking, matches, Samples.twoShops. simpl.
  rewrite !filter_cons. simpl.
  destruct (bool_decide ("Vintage" ∈ l)); vm_compute; intros [=].
Qed.

(** ** The preference profile builder *)

Lemma assoc_app {V} (k k' : string) (v : V) (l : list (string * V)) :
  assoc k (l ++ [(k', v)])
  = match assoc k l with
    | Some x => Some x
    | None => if String.eqb k k' then Some v else None
    end.
Proof.
  induction l as [|[k0 v0] l IH]; simpl; [done|].
  by destruct (String.eqb k k0).
Qed.

Lemma assoc_setIf (k k' : string) (c v : jsval) (l : list (string * jsval)) :
  assoc k (setIf c k' v l)
  = match assoc k l with
    | Some x => Some x
    | None => if truthy c && String.eqb k k' then Some v else None
    end.
Proof.
  unfold setIf. destruct (truthy c); simpl; [apply assoc_app|].
  by destruct (assoc k l).
Qed.

(** Each path of the parsed preferences, read off the answers. *)
Ltac parsed H :=
  unfold parseOnboardingAnswers in H;
  match type of H with
  | match ?lookup with _ => _ end = _ =>
      let e := fresh "e" in let b := fresh "fields" in
      let Hb := fresh "Hlookup" in
      destruct lookup as [e|b] eqn:Hb; [done|]; injection H as <-
  end.

Lemma spreadBracket_key (v : jsval) (fields : list (string * jsval)) :
  spreadBracket v = inr fields →
  toKey v ≠ KeyTypeError ∧
  fields = match (match toKey v with Key k => assoc k budgetMap | _ => None end) with
           | Some (lo, hi) => [("min", JNum lo); ("max", JNum hi)]
           | None => []
           end.
Proof.
  unfold spreadBracket. destruct (toKey v) as [k| |]; [|by intros [= <-]|done].
  destruct (assoc k budgetMap) as [[lo hi]|]; by intros [= <-].
Qed.

Lemma parsed_budget (a : jsval) (prefs : list (string * jsval)) :
  parseOnboardingAnswers a = inr prefs →
  assoc "budget" prefs
  = if truthy (getField a "budget")
    then Some (JObj (match bracket a with
                     | Some (lo, hi) => [("min", JNum lo); ("max", JNum hi)]
                     | None => []
                     end ++ [("currency", JStr "INR")]))
    else None.
Proof.
  intros H. parsed H. rewrite !assoc_setIf. simpl. rewrite !andb_false_r.
  unfold bracket. destruct (truthy (getField a "budget")); [|done].
  by apply spreadBracket_key in Hlookup as [_ ->].
Qed.

Lemma parsed_path (a : jsval) (prefs : list (string * jsval)) (k path : string) :
  parseOnboardingAnswers a = inr prefs →
  (k, path) ∈ [ ("style", "style"); ("categories", "favoriteCategories");
                ("locations", "favoriteLocations"); ("frequency", "shoppingFrequency");
                ("sustainability", "sustainabilityImportance");
                ("vintage-preference", "vintagePreference");
                ("brand-preference", "brandPreference") ] →
  assoc path prefs
  = if truthy (getField a k) then Some (getField a k) else None.
Proof.
  intros Hp H. parsed Hp. clear Hlookup.
  repeat (apply elem_of_cons in H as [[= -> ->]|H];
          [rewrite !assoc_setIf; simpl; rewrite ?andb_false_r, ?andb_true_r;
           by destruct (truthy (getField a _))|]).
  by apply elem_of_nil in H.
Qed.

Lemma parsed_sizes (a : jsval) (prefs : list (string * jsval)) :
  parseOnboardingAnswers a = inr prefs →
  assoc "sizes" prefs
  = if truthy (getField a "sizes-tops")
    then Some (JObj [ ("tops", getField a "sizes-tops");
                      ("bottoms", jsOr (getField a "sizes-bottoms") (JStr ""));
                      ("shoes", JStr "") ])
    else None.
Proof.
  intros H. parsed H. clear Hlookup. rewrite !assoc_setIf. simpl.
  rewrite ?andb_false_r, ?andb_true_r. by destruct (truthy (getField a _)).
Qed.

Lemma parsed_aestheticVibes (a : jsval) (prefs : list (string * jsval)) :
  parseOnboardingAnswers a = inr prefs →
  assoc "aestheticVibes" prefs = None.
Proof.
  intros H. parsed H. rewrite !assoc_setIf. simpl.
  by rewrite ?andb_false_r.
Qed.

Lemma storePath_absent {T} (cast : jsval → option T) obj k :
  assoc k obj = None → storePath cast obj k = Some None.
Proof. unfold storePath. by intros ->. Qed.

(** The budget of the parsed answers is always stored, and reads back as
    the bracket named, or as the default. *)
Lemma castBudget_parsed (a : jsval) (prefs : list (string * jsval)) :
  parseOnboardingAnswers a = inr prefs →
  ∃ lo hi cur,
    castBudget prefs = Some (lo, hi, cur) ∧
    {| b_min := default 0%Q lo; b_max := default 5000%Q hi;
       b_currency := default "INR" cur |} = expectedBudget a ∧
    (bracket a = None → lo = None ∧ hi = None).
Proof.
  intros H. unfold castBudget, subdocument, expectedBudget.
  rewrite (parsed_budget a prefs H).
  destruct (truthy (getField a "budget")) eqn:Ht.
  - destruct (bracket a) as [[lo hi]|]; simpl.
    + by exists (Some lo), (Some hi), (Some "INR").
    + by exists None, None, (Some "INR").
  - exists None, None, None. unfold bracket. by rewrite Ht.
Qed.

Lemma parsed_agree (a a' : jsval) (prefs prefs' : list (string * jsval))
    (path : string) :
  (∀ k, k ≠ "budget" → getField a' k = getField a k) →
  path ≠ "budget" →
  parseOnboardingAnswers a = inr prefs →
  parseOnboardingAnswers a' = inr prefs' →
  assoc path prefs' = assoc path prefs.
Proof.
  intros H Hne Hp Hp'. parsed Hp. parsed Hp'. rewrite !assoc_setIf.
  rewrite (H "style"), (H "categories"), (H "sizes-tops"), (H "sizes-bottoms"),
    (H "locations"), (H "frequency"), (H "sustainability"),
    (H "vintage-preference"), (H "brand-preference") by done.
  apply String.eqb_neq in Hne. rewrite Hne. simpl. by rewrite !andb_false_r.
Qed.

Lemma storePath_ext {T} (cast : jsval → option T) o1 o2 k :
  assoc k o1 = assoc k o2 → storePath cast o1 k = storePath cast o2 k.
Proof. unfold storePath. by intros ->. Qed.

Lemma subdocument_ext o1 o2 k :
  assoc k o1 = assoc k o2 → subdocument o1 k = subdocument o2 k.
Proof. unfold subdocument. by intros ->. Qed.

Lemma castPreferences_inv (obj : list (string * jsval)) (sp : StoredPreferences) :
  castPreferences obj = Some sp →
  castBudget obj = Some (sp_budget_min sp, sp_budget_max sp, sp_budget_currency sp) ∧
  storePath castScore obj "sustainabilityImportance"
    = Some (sp_sustainabilityImportance sp) ∧
  storePath castScore obj "vintagePreference" = Some (sp_vintagePreference sp) ∧
  storePath castString obj "brandPreference" = Some (sp_brandPreference sp).
Proof.
  unfold castPreferences. intros H.
  destruct (storePath castStrings obj "style"); simpl in H; [|done].
  destruct (castBudget obj) as [[[lo hi] cur]|]; simpl in H; [|done].
  repeat match type of H with
         | context [storePath ?c ?o ?k ≫= _] =>
             destruct (storePath c o k); simpl in H; [|done]
         | context [subdocument ?o ?k ≫= _] =>
             destruct (subdocument o k); simpl in H; [|done]
         end.
  by injection H as <-.
Qed.

Lemma parse_absent_budget (a : jsval) :
  absent a "budget" → ∃ prefs, parseOnboardingAnswers a = inr prefs.
Proof. unfold absent, parseOnboardingAnswers. intros ->. eauto. Qed.

(** Where the parser returns, the profile built from the answers has the
    default budget {0, 5000, INR}, sustainability 3, vintage preference 3 and
    brand preference "no-preference" where the answer is absent; its budget
    is that of the bracket the answer names among the four of the lookup; and
    an answer that names no bracket gives the profile an absent answer
    gives. *)
Lemma profile_defaults (answers : jsval) (prefs : list (string * jsval))
    (Hparse : parseOnboardingAnswers answers = inr prefs) :
  (∃ lo hi cur,
     castBudget prefs = Some (lo, hi, cur) ∧
     {| b_min := default 0%Q lo; b_max := default 5000%Q hi;
        b_currency := default "INR" cur |} = expectedBudget answers) ∧
  (absent answers "budget" → expectedBudget answers = defaultBudget) ∧
  (∀ p, buildProfile answers = Some p →
     budget p = expectedBudget answers ∧
     (absent answers "sustainability" → sustainabilityImportance p = 3%Q) ∧
     (absent answers "vintage-preference" → vintagePreference p = 3%Q) ∧
     (absent answers "brand-preference" → brandPreference p = "no-preference")) ∧
  (∀ answers',
     (∀ k, k ≠ "budget" → getField answers' k = getField answers k) →
     absent answers' "budget" →
     bracket answers = None →
     buildProfile answers = buildProfile answers').
Proof.
  split; [|split; [|split]].
  - destruct (castBudget_parsed answers prefs Hparse) as (lo & hi & cur & H1 & H2 & _).
    eauto.
  - unfold absent, expectedBudget, bracket. by intros ->.
  - intros p. unfold buildProfile. rewrite Hparse.
    intros (sp & Hsp & ->)%fmap_Some.
    apply castPreferences_inv in Hsp as (Hb & Hs & Hv & Hbr).
    destruct (castBudget_parsed answers prefs Hparse) as (lo & hi & cur & H1 & H2 & _).
    rewrite H1 in Hb. injection Hb as -> -> ->.
    split; [done|]. unfold absent. repeat split; intros Habs; simpl.
    + rewrite storePath_absent in Hs; [by injection Hs as <-|].
      rewrite (parsed_path answers prefs "sustainability" _ Hparse), Habs; [done|].
      repeat (first [left|right]).
    + rewrite storePath_absent in Hv; [by injection Hv as <-|].
      rewrite (parsed_path answers prefs "vintage-preference" _ Hparse), Habs; [done|].
      repeat (first [left|right]).
    + rewrite storePath_absent in Hbr; [by injection Hbr as <-|].
      rewrite (parsed_path answers prefs "brand-preference" _ Hparse), Habs; [done|].
      repeat (first [left|right]).
  - intros a' Hsame Habs Hnone.
    destruct (parse_absent_budget a' Habs) as [prefs' Hparse'].
    unfold buildProfile, castPreferences. rewrite Hparse, Hparse'.
    pose proof (λ path Hne, parsed_agree answers a' prefs prefs' path Hsame Hne
                              Hparse Hparse') as Hagree.
    rewrite !(storePath_ext _ _ _ "style" (Hagree "style" ltac:(done))).
    rewrite !(storePath_ext _ _ _ "favoriteCategories"
                (Hagree "favoriteCategories" ltac:(done))).
    rewrite !(storePath_ext _ _ _ "favoriteLocations"
                (Hagree "favoriteLocations" ltac:(done))).
    rewrite !(storePath_ext _ _ _ "shoppingFrequency"
                (Hagree "shoppingFrequency" ltac:(done))).
    rewrite !(storePath_ext _ _ _ "sustainabilityImportance"
                (Hagree "sustainabilityImportance" ltac:(done))).
    rewrite !(storePath_ext _ _ _ "vintagePreference"
                (Hagree "vintagePreference" ltac:(done))).
    rewrite !(storePath_ext _ _ _ "brandPreference"
                (Hagree "brandPreference" ltac:(done))).
    rewrite !(storePath_ext _ _ _ "aestheticVibes"
                (Hagree "aestheticVibes" ltac:(done))).
    rewrite (subdocument_ext _ _ _ (Hagree "sizes" ltac:(done))).
    destruct (castBudget_parsed answers prefs Hparse) as (lo & hi & cur & -> & Hb & Hlh).
    destruct (castBudget_parsed a' prefs' Hparse') as (lo' & hi' & cur' & -> & Hb' & Hlh').
    destruct (Hlh Hnone) as [-> ->].
    assert (bracket a' = None) as Hnone' by (unfold bracket; by rewrite Habs).
    destruct (Hlh' Hnone') as [-> ->].
    unfold expectedBudget in Hb, Hb'. rewrite Hnone in Hb. rewrite Hnone' in Hb'.
    injection Hb as Hcur. injection Hb' as Hcur'.
    destruct (storePath castStrings _ "style"); [|done].
    cbn [mbind option_bind].
    destruct (storePath castStrings _ "favoriteCategories"); [|done].
    cbn [mbind option_bind].
    destruct (subdocument _ "sizes") as [sz|]; [|done].
    cbn [mbind option_bind].
    destruct (storePath castString sz "tops"); [|done].
    destruct (storePath castString sz "bottoms"); [|done].
    destruct (storePath castString sz "shoes"); [|done].
    cbn [mbind option_bind].
    destruct (storePath castStrings _ "favoriteLocations"); [|done].
    destruct (storePath castString _ "shoppingFrequency"); [|done].
    destruct (storePath castScore _ "sustainabilityImportance"); [|done].
    destruct (storePath castScore _ "vintagePreference"); [|done].
    destruct (storePath castString _ "brandPreference"); [|done].
    destruct (storePath castStrings _ "aestheticVibes"); [|done].
    cbn [mbind option_bind fmap option_fmap option_map].
    unfold userPreferencesSchema. cbn -[default]. cbn [default]. 
    by rewrite Hcur, Hcur'.
Qed.


(** ** Minimum section size *)

Lemma NoDup_fmap_eq {A B} (f : A → B) (l : list A) (x y : A) :
  NoDup (f <$> l) → x ∈ l → y ∈ l → f x = f y → x = y.
Proof.
  induction l as [|z l IH]; simpl; [by intros _ ?%elem_of_nil|].
  rewrite NoDup_cons, !elem_of_cons, list_elem_of_fmap.
  intros [Hz Hl] [->|Hx] [->|Hy] Hf; [done| | |by apply IH].
  - destruct Hz. eauto.
  - destruct Hz. eauto.
Qed.

Lemma filter_none {A} (P : A → Prop) `{∀ x, Decision (P x)} (l : list A) :
  (∀ x, x ∈ l → ¬ P x) → filter P l = [].
Proof.
  induction l as [|x l IH]; [done|]. intros Hl.
  rewrite filter_cons_False by (apply Hl; left).
  apply IH. intros y Hy. apply Hl. by right.
Qed.

Lemma filter_all {A} (P : A → Prop) `{∀ x, Decision (P x)} (l : list A) :
  (∀ x, x ∈ l → P x) → filter P l = l.
Proof.
  induction l as [|x l IH]; [done|]. intros Hl.
  rewrite filter_cons_True by (apply Hl; left).
  f_equal. apply IH. intros y Hy. apply Hl. by right.
Qed.

Lemma matches_isActive q s : matches q s = true → isActive s = true.
Proof. unfold matches. rewrite !andb_true_iff. tauto. Qed.

Lemma contentMatches_active catalog prefs tags :
  contentMatches catalog prefs tags
  ⊆+ hydrateShop <$> filter (λ s, isActive s) catalog.
Proof.
  unfold contentMatches. etrans; [apply findShops_submseteq|].
  apply fmap_submseteq, sublist_submseteq.
  assert (filter (λ s, matches (contentQuery prefs tags) s) catalog
          = filter (λ s, matches (contentQuery prefs tags) s)
              (filter (λ s, isActive s) catalog)) as ->; [|apply sublist_filter].
  rewrite list_filter_filter. apply list_filter_iff. intros s. split; [|tauto].
  intros Hm. split; [done|].
  apply Is_true_true. apply Is_true_true in Hm. by eapply matches_isActive.
Qed.

Lemma contentMatches_ids catalog prefs tags :
  _id <$> contentMatches catalog prefs tags
  ⊆+ _id <$> filter (λ s, isActive s) catalog.
Proof.
  rewrite <-(hydrateShop_ids (filter _ catalog)).
  apply fmap_submseteq, contentMatches_active.
Qed.

Lemma unselected_length (ids : list ObjectId) (l : list IShop) :
  length (filter (λ s, _id s ∉ ids) l)
  = length (filter (λ i, i ∉ ids) (_id <$> l)).
Proof.
  induction l as [|a l IH]; [done|]. rewrite fmap_cons, !filter_cons.
  destruct (decide (_id a ∉ ids)); simpl; by rewrite IH.
Qed.

(** The shops left for the backfill: the active ones not yet selected. *)
Lemma samplePool_length catalog (matched : list IShop) :
  NoDup (_id <$> catalog) →
  _id <$> matched ⊆+ _id <$> filter (λ s, isActive s) catalog →
  length (samplePool catalog (Some (_id <$> matched)))
  = (length (filter (λ s, isActive s) catalog) - length matched)%nat.
Proof.
  intros Hnd Hsub.
  assert (NoDup (_id <$> filter (λ s, isActive s) catalog)) as HndA.
  { revert Hnd. apply submseteq_NoDup, fmap_submseteq, sublist_submseteq,
      sublist_filter. }
  assert (samplePool catalog (Some (_id <$> matched))
          = filter (λ s, _id s ∉ _id <$> matched) (filter (λ s, isActive s) catalog))
    as ->.
  { unfold samplePool. rewrite list_filter_filter. apply list_filter_iff.
    intros s. unfold matches; simpl.
    rewrite !andb_true_r, andb_True, negb_True, bool_decide_spec. tauto. }
  rewrite unselected_length.
  rewrite <-(length_fmap _id (filter (λ s, isActive s) catalog)).
  rewrite <-(length_fmap _id matched).
  destruct (submseteq_Permutation _ _ Hsub) as [rest Hperm].
  rewrite Hperm in HndA |- *. rewrite filter_app, !length_app.
  apply NoDup_app in HndA as (_ & Hdisj & _).
  assert (filter (λ i, i ∉ _id <$> matched) (_id <$> matched) = []) as ->.
  { apply filter_none. intros i Hi Hn. by apply Hn. }
  assert (filter (λ i, i ∉ _id <$> matched) rest = rest) as ->.
  { apply filter_all. intros i Hi Hin. by apply (Hdisj i). }
  simpl. lia.
Qed.

Lemma backfill_length w pos matched :
  (length matched < 6)%nat →
  length (backfill w pos matched)
  = (6 - length matched) `min`
      length (samplePool (shops w) (Some (_id <$> matched))).
Proof.
  intros Hlt. unfold backfill. apply Nat.ltb_lt in Hlt. rewrite Hlt.
  apply sample_length.
Qed.

Lemma backfill_full w pos matched : (6 ≤ length matched)%nat → backfill w pos matched = [].
Proof. intros Hge. unfold backfill. apply Nat.ltb_ge in Hge. by rewrite Hge. Qed.

Lemma personalized_length w pos prefs tags :
  NoDup (_id <$> shops w) →
  (6 `min` length (filter (λ s, isActive s) (shops w))
   ≤ length (contentMatches (shops w) prefs tags
             ++ backfill w pos (contentMatches (shops w) prefs tags)))%nat.
Proof.
  intros Hnd. rewrite length_app.
  pose proof (contentMatches_ids (shops w) prefs tags) as Hsub.
  pose proof (submseteq_length _ _ Hsub) as Hle. rewrite !length_fmap in Hle.
  destruct (decide (length (contentMatches (shops w) prefs tags) < 6)%nat) as [Hlt|Hge].
  - rewrite backfill_length, samplePool_length by done. lia.
  - lia.
Qed.

Lemma personalized_exhausts w pos prefs tags s :
  NoDup (_id <$> shops w) →
  (length (contentMatches (shops w) prefs tags
           ++ backfill w pos (contentMatches (shops w) prefs tags)) < 6)%nat →
  s ∈ shops w → isActive s = true →
  _id s ∈ _id <$> (contentMatches (shops w) prefs tags
                   ++ backfill w pos (contentMatches (shops w) prefs tags)).
Proof.
  intros Hnd Hlen Hs Hact. rewrite length_app in Hlen.
  rewrite fmap_app. apply elem_of_app.
  set (matched := contentMatches (shops w) prefs tags) in *.
  destruct (decide (_id s ∈ _id <$> matched)) as [Hin|Hout]; [by left|].
  right. apply list_elem_of_fmap_2.
  pose proof (contentMatches_ids (shops w) prefs tags) as Hsub.
  rewrite backfill_length in Hlen by lia.
  unfold backfill. assert ((length matched <? 6)%nat = true) as ->
    by (apply Nat.ltb_lt; lia).
  rewrite sample_exhausts by lia. by apply samplePool_elem_of.
Qed.


(** ** Stored users always have a profile *)

Lemma sections_member_ok w uid d tags :
  reliable w →
  lookupUser w uid = Some d →
  collectTags (style (profileOf d)) [] = inr tags →
  ∃ st',
    sections w (Some uid) start
    = (st', Success (Sections
         [forYouSection
            (contentMatches (shops w) (profileOf d) tags
             ++ backfill w 0 (contentMatches (shops w) (profileOf d) tags));
          trendingSection (findShops (shops w) active byReviewsThenRating 6);
          newSection (findShops (shops w) active byNewest 6)])).
Proof.
  intros Hrel Hd Htags.
  unfold sections, handler, sectionsBody, User_findById. run_step.
  rewrite Hrel. run_step. rewrite Hd. simpl. fold (profileOf d). run_step.
  destruct (getPersonalizedShops_ok w (profileOf d) tags
              {| reads := 1; draws := 0 |} Htags Hrel)
    as (st1 & -> & _).
  simpl. rewrite !Hrel. eauto.
Qed.

Lemma register_inv normalizeEmail trim w newId validation email name answers
    st st' u us :
  register normalizeEmail trim w newId validation email name answers st
    = (st', (Created u, us)) →
  ∃ doc prefs sp,
    registrationPreferences answers = inr prefs ∧
    castPreferences prefs = Some sp ∧
    u_preferences doc = Some sp ∧ u_id doc = newId ∧
    u_email doc = normalizeEmail email ∧ u_name doc = trim name ∧
    nameAccepted (trim name) = true ∧
    us = users w ++ [doc] ∧ u = hydrate doc.
Proof.
  unfold register. destruct validation; [done|]. run_step.
  destruct (readFails w (reads st)); [done|]. run_step.
  destruct (List.find _ _); run_step; [done|].
  destruct (registrationPreferences answers) as [e|prefs] eqn:Hprefs;
    cbn [completion]; run_step; [done|].
  unfold User_create. destruct (nameAccepted (trim name)) eqn:Hname;
    cbn [negb]; run_step; [|done].
  destruct (castPreferences _) as [sp|] eqn:Hsp; run_step; [|done].
  destruct (readFails w _); [done|]. run_step.
  intros [= <- <- <-].
  exists {| u_id := newId; u_email := normalizeEmail email; u_name := trim name;
            u_preferences := Some sp; u_onboardingCompleted := truthy answers |},
         prefs, sp.
  split_and!; done.
Qed.

(* ===================================================================== *)
(** * Further properties of the routes                                     *)
(* ===================================================================== *)

(** ** Recently added *)

Lemma newest_before (a b : IShop) :
  sortsBefore byNewest a b = (createdAt b <? createdAt a)%Z.
Proof.
  unfold sortsBefore, byNewest, cmpSpec, cmpField; simpl.
  unfold Qcompare; simpl. rewrite !Z.mul_1_r.
  rewrite (Z.ltb_compare (createdAt b)), (Z.compare_antisym (createdAt b) (createdAt a)).
  by destruct (createdAt b ?= createdAt a)%Z.
Qed.

Lemma newStores_ok (w : World) :
  readFails w 0 = false →
  newStores w start
  = ({| reads := 1; draws := 0 |},
     Success (Shops (findShops (shops w) active byNewest 12))).
Proof.
  intros Hr. unfold newStores, handler, Shop_find. simpl. by rewrite Hr.
Qed.

(** X1: [/new] answers with the active shops only, at most twelve of them,
    as the schema reads them, and a shop created later always stands before
    one created earlier. *)
Theorem newStores_newest_first (w : World) (Hread : readFails w 0 = false) :
  let rk := ranking (shops w) active byNewest in
  snd (newStores w start) = Success (Shops (hydrateShop <$> take 12 rk)) ∧
  rk ≡ₚ filter (λ s, isActive s) (shops w) ∧
  (length (hydrateShop <$> take 12 rk) ≤ 12)%nat ∧
  (∀ i j a b, rk !! i = Some a → rk !! j = Some b →
     (createdAt b < createdAt a)%Z → (i < j)%nat) ∧
  (∀ i j a b, (hydrateShop <$> take 12 rk) !! i = Some a →
     (hydrateShop <$> take 12 rk) !! j = Some b →
     (createdAt b < createdAt a)%Z → (i < j)%nat).
Proof.
  intros rk.
  assert (∀ i j a b, rk !! i = Some a → rk !! j = Some b →
     (createdAt b < createdAt a)%Z → (i < j)%nat) as Horder.
  { intros i j a b Hi Hj Hlt.
    destruct (decide (i < j)%nat) as [|Hge]; [done|exfalso].
    destruct (decide (i = j)) as [->|Hne].
    + assert (a = b) as -> by congruence. lia.
    + assert (precedes b a rk) as Hp by (exists j, i; split; [lia|done]).
      apply ranking_sorted in Hp. rewrite newest_before in Hp.
      apply Z.ltb_ge in Hp. lia. }
  split; [by rewrite newStores_ok|]. split_and!; [| |done|].
  - unfold rk. by rewrite ranking_perm, active_filter.
  - rewrite length_fmap, length_take. lia.
  - intros i j a b Hi Hj.
    apply list_lookup_fmap_Some in Hi as (a0 & -> & [Hi _]%lookup_take_Some).
    apply list_lookup_fmap_Some in Hj as (b0 & -> & [Hj _]%lookup_take_Some).
    exact (Horder i j a0 b0 Hi Hj).
Qed.

Lemma newStores_newest_first_witness :
  snd (newStores (Samples.world Samples.budgetCatalog Samples.never) start)
  = Success (Shops (hydrateShop
                    <$> take 12 (ranking Samples.budgetCatalog active byNewest))).
Proof.
  exact (proj1 (newStores_newest_first
    (Samples.world Samples.budgetCatalog Samples.never) eq_refl)).
Defined.

(** ** Categories with tags *)

Lemma rating_before (a b : IShop) :
  sortsBefore byRating a b
  = match cmpValue (rating a) (rating b) with Gt => true | _ => false end.
Proof.
  unfold sortsBefore, byRating, cmpSpec, cmpField; simpl.
  by destruct (cmpValue (rating a) (rating b)).
Qed.

Lemma category_tagged_ok (w : World) (c : string) (tags : list string) :
  assoc c categoryTagMap = Some tags → tags ≠ [] →
  readFails w 0 = false →
  category w c start
  = ({| reads := 1; draws := 0 |},
     Success (Shops (findShops (shops w)
        {| c_location := None; c_tag := Some tags; c_nin := None |} byRating 12))).
Proof.
  intros Hc Hne Hr. unfold category, handler, categoryTags, getProp. rewrite Hc.
  assert (String.eqb c "trending" = false) as ->.
  { apply String.eqb_neq. intros ->. by injection Hc as <-. }
  assert (lengthIsZero (PArray tags) = false) as -> by (by destruct tags).
  unfold Shop_find, castQuery; simpl. by rewrite Hr.
Qed.

(** X2: a category that the table maps to tags is answered with at most
    twelve shops, all of them active shops of the catalog, as the schema
    reads them, carrying one of the category's tags, a higher rating always
    first; when no more than twelve shops qualify, every one of them is
    listed. *)
Theorem category_tagged (w : World) (c : string) (tags : list string)
    (Hc : assoc c categoryTagMap = Some tags) (Hne : tags ≠ [])
    (Hread : readFails w 0 = false) :
  ∃ result,
    snd (category w c start) = Success (Shops result) ∧
    (length result ≤ 12)%nat ∧
    (∀ s, s ∈ result →
       isActive s = true ∧ tag s ∈ tags ∧ s ∈ hydrateShop <$> shops w) ∧
    (∀ i j a b, result !! i = Some a → result !! j = Some b →
       higher (rating a) (rating b) → (i < j)%nat) ∧
    ((length (filter (λ s, isActive s = true ∧ tag s ∈ tags) (shops w)) ≤ 12)%nat →
     ∀ s, s ∈ shops w → isActive s = true → tag s ∈ tags →
          hydrateShop s ∈ result).
Proof.
  set (q := {| c_location := None; c_tag := Some tags; c_nin := None |}).
  assert (∀ s, matches q s = true ↔ isActive s = true ∧ tag s ∈ tags) as Hq.
  { intros s. unfold matches; simpl.
    rewrite !andb_true_r, andb_true_iff, bool_decide_eq_true. tauto. }
  exists (findShops (shops w) q byRating 12).
  split; [by rewrite (category_tagged_ok w c tags)|]. split; [|split; [|split]].
  - rewrite findShops_length. lia.
  - intros s [Hm Hs]%findShops_elem_of. apply Hq in Hm. tauto.
  - intros i j a b Hi Hj Hab. unfold findShops in Hi, Hj.
    apply list_lookup_fmap_Some in Hi as (a0 & -> & [Hi _]%lookup_take_Some).
    apply list_lookup_fmap_Some in Hj as (b0 & -> & [Hj _]%lookup_take_Some).
    change (higher (rating a0) (rating b0)) in Hab.
    destruct (decide (i < j)%nat) as [|Hge]; [done|exfalso].
    destruct (decide (i = j)) as [->|Hne'].
    + assert (a0 = b0) as -> by congruence.
      unfold higher in Hab. by rewrite cmpValue_refl in Hab.
    + assert (precedes b0 a0 (ranking (shops w) q byRating)) as Hp
        by (exists j, i; split; [lia|done]).
      apply ranking_sorted in Hp. rewrite rating_before in Hp.
      unfold higher in Hab. by rewrite Hab in Hp.
  - intros Hlen s Hs Hact Htag. unfold findShops. apply list_elem_of_fmap_2.
    rewrite take_ge.
    + rewrite ranking_perm. apply list_elem_of_filter. split; [|done].
      apply Is_true_true, Hq. done.
    + rewrite (ranking_perm (shops w)).
      erewrite (list_filter_iff _ (λ s, isActive s = true ∧ tag s ∈ tags)); [done|].
      intros s'. by rewrite Is_true_true.
Qed.

Lemma category_tagged_witness :
  ∃ result,
    snd (category (Samples.world Samples.twoShops Samples.never) "vintage" start)
    = Success (Shops result) ∧ (length result ≤ 12)%nat.
Proof.
  destruct (category_tagged (Samples.world Samples.twoShops Samples.never)
              "vintage" ["Vintage"; "Pre-Loved"; "Thrift"] eq_refl
              ltac:(discriminate) eq_refl) as (result & H1 & H2 & _).
  exists result. split; [exact H1|exact H2].
Defined.

(** ** Where the Trending fallback of categories applies *)




(** ** The style-tag mapper *)

Lemma uniq_elem_of (seen l : list string) (x : string) :
  x ∈ uniq seen l ↔ x ∈ l ∧ x ∉ seen.
Proof.
  revert seen. induction l as [|y l IH]; intros seen; simpl.
  - rewrite elem_of_nil. tauto.
  - destruct (bool_decide (y ∈ seen)) eqn:Hy.
    + apply bool_decide_eq_true in Hy. rewrite IH, elem_of_cons.
      split; [tauto|]. intros [[->|?] ?]; tauto.
    + apply bool_decide_eq_false in Hy.
      rewrite !elem_of_cons, IH, not_elem_of_cons.
      destruct (decide (x = y)) as [->|]; tauto.
Qed.

Lemma uniq_NoDup (seen l : list string) : NoDup (uniq seen l).
Proof.
  revert seen. induction l as [|y l IH]; intros seen; simpl; [constructor|].
  destruct (bool_decide (y ∈ seen)); [done|].
  constructor; [|done]. rewrite uniq_elem_of, not_elem_of_cons. tauto.
Qed.

Lemma collectTags_inr (styles acc tags : list string) :
  collectTags styles acc = inr tags →
  tags = acc ++ (styles ≫= λ s, default [] (assoc s styleToTagMap)).
Proof.
  revert acc. induction styles as [|s styles IH]; intros acc; cbn -[assoc inherited].
  - intros [= <-]. by rewrite app_nil_r.
  - unfold getProp. destruct (assoc s styleToTagMap) as [l|]; cbn -[assoc inherited].
    + intros H. rewrite (IH (acc ++ l) H). by rewrite app_assoc.
    + destruct (inherited s) eqn:Hi; try done; [|apply IH].
      exfalso. unfold inherited in Hi. by repeat case_match.
Qed.

Lemma collectTags_inl (styles acc : list string) (e : Exn) :
  collectTags styles acc = inl e ↔
  e = TypeError ∧
  ∃ s, s ∈ styles ∧ assoc s styleToTagMap = None ∧ inherited s ≠ PUndefined.
Proof.
  revert acc. induction styles as [|s styles IH]; intros acc; cbn -[assoc inherited].
  - split; [done|]. intros [_ (s & Hs & _)]. by apply elem_of_nil in Hs.
  - unfold getProp. destruct (assoc s styleToTagMap) as [l|] eqn:Hs.
    + rewrite IH. split; intros [-> (s' & Hs' & Hn & Hi)]; (split; [done|]).
      * exists s'. split; [by right|done].
      * exists s'. apply elem_of_cons in Hs' as [->|Hs']; [congruence|done].
    + destruct (inherited s) eqn:Hi.
      * exfalso. unfold inherited in Hi. by repeat case_match.
      * split; [intros [= <-]|by intros [-> _]]. split; [done|].
        exists s. rewrite Hi. split; [left|done].
      * split; [intros [= <-]|by intros [-> _]]. split; [done|].
        exists s. rewrite Hi. split; [left|done].
      * rewrite IH. split; intros [-> (s' & Hs' & Hn & Hi')]; (split; [done|]).
        -- exists s'. split; [by right|done].
        -- exists s'. apply elem_of_cons in Hs' as [->|Hs']; [congruence|done].
Qed.

(** X9: the tags gathered for a profile are those of its vibes that the
    style table knows, in order, an unknown vibe adding nothing; the tag
    restriction of the query lists each of them once; gathering fails, with
    a type error and nothing else, exactly when a vibe names a member that
    the table object inherits. *)
Theorem style_tag_mapper (styles : list string) :
  (∀ tags, collectTags styles [] = inr tags →
     tags = (styles ≫= λ s, default [] (assoc s styleToTagMap)) ∧
     NoDup (uniq [] tags) ∧
     ∀ t, t ∈ uniq [] tags ↔
          ∃ s l, s ∈ styles ∧ assoc s styleToTagMap = Some l ∧ t ∈ l) ∧
  (∀ e, collectTags styles [] = inl e ↔
     e = TypeError ∧
     ∃ s, s ∈ styles ∧ assoc s styleToTagMap = None ∧ inherited s ≠ PUndefined).
Proof.
  split; [|intros e; apply collectTags_inl].
  intros tags ->%collectTags_inr. rewrite app_nil_l.
  split; [done|]. split; [apply uniq_NoDup|].
  intros t. rewrite uniq_elem_of, list_elem_of_bind. split.
  - intros [(s & Ht & Hs) _]. destruct (assoc s styleToTagMap) as [l|] eqn:Hl.
    + eauto.
    + by apply elem_of_nil in Ht.
  - intros (s & l & Hs & Hl & Ht). split; [|apply not_elem_of_nil].
    exists s. by rewrite Hl.
Qed.

(** ** What the content-match scorer returns *)

Lemma inOpt_restriction (x : string) (l l' : list string) :
  (∀ y, y ∈ l' ↔ y ∈ l) →
  inOpt x (if (0 <? length l)%nat then Some l' else None) = true ↔ (l ≠ [] → x ∈ l).
Proof.
  intros Hl. destruct l as [|y l]; simpl.
  - split; [done|tauto].
  - rewrite bool_decide_eq_true, Hl. split; [tauto|]. intros H. by apply H.
Qed.

Lemma contentQuery_matches prefs tags s :
  matches (contentQuery prefs tags) s = true ↔
  isActive s = true ∧
  (favoriteLocations prefs ≠ [] → loc_id (location s) ∈ favoriteLocations prefs) ∧
  (tags ≠ [] → tag s ∈ tags).
Proof.
  unfold matches, contentQuery; cbn [c_location c_tag c_nin ninOpt].
  rewrite !andb_true_r, !andb_true_iff.
  rewrite (inOpt_restriction _ (favoriteLocations prefs)) by done.
  rewrite (inOpt_restriction _ tags).
  - tauto.
  - intros y. rewrite uniq_elem_of. split; [tauto|].
    intros ?. split; [done|apply not_elem_of_nil].
Qed.

(** X4: the content-match scorer returns at most twelve shops, all active
    and of the catalog, as the schema reads them (the matches) or as they are
    stored (the backfill); a shop that does not meet the profile's location
    and tag restrictions is returned only in a result of at most six shops. *)
Theorem personalized_bounds (w : World) (prefs : IUserPreferences) (st st' : St)
    (result : list IShop)
    (Hrun : run (getPersonalizedShops w prefs) st = (st', inr result)) :
  (length result ≤ 12)%nat ∧
  (∀ s, s ∈ result →
     isActive s = true ∧ (s ∈ hydrateShop <$> shops w ∨ s ∈ shops w)) ∧
  ∃ tags, collectTags (style prefs) [] = inr tags ∧
    ∀ s, s ∈ result →
      ((favoriteLocations prefs ≠ [] →
          loc_id (location s) ∈ favoriteLocations prefs) ∧
       (tags ≠ [] → tag s ∈ tags)) ∨
      (length result ≤ 6)%nat.
Proof.
  apply getPersonalizedShops_inv in Hrun as (tags & Htags & ->).
  set (matched := contentMatches (shops w) prefs tags).
  assert (length matched ≤ 12)%nat as H12.
  { unfold matched, contentMatches. rewrite findShops_length. lia. }
  assert (∀ s, s ∈ matched → matches (contentQuery prefs tags) s = true ∧
                             s ∈ hydrateShop <$> shops w)
    as Hm by (intros s; apply findShops_elem_of).
  destruct (decide (length matched < 6)%nat) as [Hlt|Hge].
  - assert (length (matched ++ backfill w (draws st) matched) ≤ 6)%nat as H6.
    { rewrite length_app, backfill_length by done. lia. }
    split; [lia|]. split.
    + intros s [Hs|Hs]%elem_of_app.
      * destruct (Hm s Hs) as [Hq ?]. apply contentQuery_matches in Hq. tauto.
      * apply backfill_elem_of in Hs. tauto.
    + exists tags. split; [done|]. intros; by right.
  - rewrite backfill_full, app_nil_r by lia. split; [done|]. split.
    + intros s Hs. destruct (Hm s Hs) as [Hq ?].
      apply contentQuery_matches in Hq. tauto.
    + exists tags. split; [done|]. intros s Hs. left.
      destruct (Hm s Hs) as [Hq ?]. apply contentQuery_matches in Hq. tauto.
Qed.

Lemma personalized_bounds_witness :
  ∃ st' result,
    run (getPersonalizedShops (Samples.world Samples.budgetCatalog Samples.never)
           (profileOf Samples.vintageFan)) start = (st', inr result) ∧
    (length result ≤ 12)%nat.
Proof.
  eexists _, _. split; [reflexivity|].
  exact (proj1 (personalized_bounds
    (Samples.world Samples.budgetCatalog Samples.never)
    (profileOf Samples.vintageFan) start _ _ eq_refl)).
Defined.

(** ** A style vibe that names an inherited member *)

Lemma getPersonalizedShops_throws w prefs e st :
  collectTags (style prefs) [] = inl e →
  run (getPersonalizedShops w prefs) st = (st, inl e).
Proof. intros H. unfold getPersonalizedShops. by rewrite H. Qed.

(** X5: when a style vibe of the stored profile is no key of the style table
    but names a member the table object inherits, both [/for-you] and
    [/sections] answer the 500 failure right after the user is read: no
    shop is queried and no section is returned. *)
Theorem inherited_style_fails (w : World) (uid : ObjectId) (d : UserDoc) (s : string)
    (Huser : lookupUser w uid = Some d)
    (Hs : s ∈ style (profileOf d))
    (Hown : assoc s styleToTagMap = None)
    (Hinh : inherited s ≠ PUndefined)
    (Hread : readFails w 0 = false) :
  forYou w (Some uid) start
  = ({| reads := 1; draws := 0 |}, Failure 500 "Failed to get recommendations") ∧
  sections w (Some uid) start
  = ({| reads := 1; draws := 0 |}, Failure 500 "Failed to get explore sections").
Proof.
  assert (collectTags (style (profileOf d)) [] = inl TypeError) as Hthrow.
  { apply collectTags_inl. split; [done|]. eauto. }
  split.
  - unfold forYou, handler, User_findById. run_step.
    change (reads start) with 0%nat. rewrite Hread. run_step. rewrite Huser.
    cbn [fmap option_fmap option_map hydrate preferences]. fold (profileOf d).
    run_step. by rewrite (getPersonalizedShops_throws w _ TypeError).
  - unfold sections, handler, sectionsBody, User_findById. run_step.
    change (reads start) with 0%nat. rewrite Hread. run_step. rewrite Huser.
    cbn [fmap option_fmap option_map hydrate preferences mbind option_bind].
    fold (profileOf d).
    run_step. by rewrite (getPersonalizedShops_throws w _ TypeError).
Qed.

Lemma inherited_style_fails_witness :
  snd (forYou (MoreSamples.worldOf Samples.budgetCatalog
                 [MoreSamples.withStyle 9 ["vintage"; "toString"]] Samples.never)
         (Some 9%N) start)
  = Failure 500 "Failed to get recommendations".
Proof.
  refine (f_equal snd (proj1 (inherited_style_fails
    (MoreSamples.worldOf Samples.budgetCatalog
       [MoreSamples.withStyle 9 ["vintage"; "toString"]] Samples.never)
    9%N (MoreSamples.withStyle 9 ["vintage"; "toString"]) "toString"
    eq_refl _ eq_refl _ eq_refl))).
  - right. left.
  - discriminate.
Defined.

(** ** [/for-you] and [/sections] side by side *)

(** X6: for the same stored user, the For You section of [/sections] and
    the section of [/for-you] list the same shops in the same order; only
    the item reasons differ. *)
Theorem forYou_sections_same_shops (w : World) (uid : ObjectId) (st1 st2 : St)
    (secs : list RecommendationSection) (sec : RecommendationSection)
    (Hsections : sections w (Some uid) start = (st1, Success (Sections secs)))
    (HforYou : forYou w (Some uid) start = (st2, Success (OneSection sec))) :
  ∃ fy rest, secs = fy :: rest ∧
    title fy = title sec ∧ type_ fy = type_ sec ∧
    shop <$> items fy = shop <$> items sec ∧
    Forall (λ it, matchScore it = 0.85%Q ∧ basedOn it = "style")
           (items fy ++ items sec).
Proof.
  revert Hsections HforYou.
  unfold sections, forYou, handler, sectionsBody, User_findById. run_step.
  destruct (readFails w (reads start)); [done|]. run_step.
  destruct (lookupUser w uid) as [d|];
    cbn [fmap option_fmap option_map hydrate preferences mbind option_bind];
    [|run_step; done].
  run_step.
  destruct (run (getPersonalizedShops w _) _) as [st3 [e|res]]; [done|].
  run_step. unfold Shop_find. rewrite castQuery_activeOnly. run_step.
  destruct (readFails w (reads st3)); [done|]. run_step.
  destruct (readFails w _); [done|]. run_step.
  intros [= <- <-] [= <- <-]. eexists _, _. split; [reflexivity|].
  split; [done|]. split; [done|]. split.
  - unfold forYouSection, personalSection; cbn [items].
    by rewrite <-!list_fmap_compose.
  - apply Forall_app. split; apply Forall_fmap, Forall_true; done.
Qed.

Lemma forYou_sections_same_shops_witness :
  ∃ fy sec,
    snd (forYou (Samples.world Samples.budgetCatalog Samples.never) (Some 7%N) start)
    = Success (OneSection sec) ∧
    shop <$> items fy = shop <$> items sec.
Proof.
  destruct (forYou_sections_same_shops
    (Samples.world Samples.budgetCatalog Samples.never) 7%N _ _ _ _ eq_refl eq_refl)
    as (fy & rest & _ & _ & _ & H & _).
  eexists fy, _. split; [reflexivity|exact H].
Defined.

(** X7: an identity that belongs to no stored user is refused by [/for-you]
    with 404 "User not found" after one read, while [/sections] serves it
    the two sections an anonymous caller gets. *)
Theorem unknown_identity (w : World) (uid : ObjectId)
    (Huser : lookupUser w uid = None) (Hrel : reliable w) :
  forYou w (Some uid) start
  = ({| reads := 1; draws := 0 |}, Failure 404 "User not found") ∧
  snd (sections w (Some uid) start) = snd (sections w None start) ∧
  snd (sections w None start)
  = Success (Sections
      [trendingSection (findShops (shops w) active byReviewsThenRating 6);
       newSection (findShops (shops w) active byNewest 6)]).
Proof.
  split; [|split].
  - unfold forYou, handler, User_findById. run_step. rewrite Hrel. run_step.
    rewrite Huser. done.
  - unfold sections, handler, sectionsBody, User_findById.
    run_step. rewrite !Hrel. run_step.
    rewrite Huser. cbn [fmap option_fmap option_map mbind option_bind].
    repeat (progress (run_step; cbn [reads]; rewrite ?Hrel)).
    unfold Shop_find; rewrite castQuery_activeOnly.
    repeat (progress (run_step; cbn [reads]; rewrite ?Hrel)). reflexivity.
  - unfold sections, handler, sectionsBody, Shop_find.
    rewrite castQuery_activeOnly.
    repeat (progress (run_step; cbn [reads]; rewrite ?Hrel)). reflexivity.
Qed.

Lemma unknown_identity_witness :
  forYou (Samples.world Samples.budgetCatalog Samples.never) (Some 99%N) start
  = ({| reads := 1; draws := 0 |}, Failure 404 "User not found").
Proof.
  refine (proj1 (unknown_identity
    (Samples.world Samples.budgetCatalog Samples.never) 99%N eq_refl _)).
  intros i. reflexivity.
Defined.

(** ** Read failures in the other endpoints *)

Lemma handler_read_failure (w : World) (message : string) (body : M Response)
    (st st' : St) (resp : Response) (i : nat) :
  stopsAtFailure w body →
  handler message body st = (st', resp) →
  (reads st ≤ i < reads st')%nat → readFails w i = true →
  resp = Failure 500 message ∧ reads st' = S i.
Proof.
  intros Hstops. unfold handler.
  destruct (run body st) as [st1 [e|r]] eqn:Hrun; intros [= <- <-] Hi Hf;
    destruct (Hstops _ _ _ Hrun) as [_ H]; destruct (H i Hi Hf) as [? [e' He']];
    by try split.
Qed.

(** X8: in [/for-you], [/trending], [/new] and [/category/:category] a
    failed read is answered with the endpoint's 500 failure and is the last
    read of the request; in particular [/for-you] returns no section when
    its backfill read fails after the content-match query succeeded. *)
Theorem endpoints_read_failure (w : World) :
  (∀ userId st' resp i,
     forYou w userId start = (st', resp) → (i < reads st')%nat →
     readFails w i = true →
     resp = Failure 500 "Failed to get recommendations" ∧ reads st' = S i) ∧
  (∀ st' resp i,
     trending w start = (st', resp) → (i < reads st')%nat →
     readFails w i = true →
     resp = Failure 500 "Failed to get trending shops" ∧ reads st' = S i) ∧
  (∀ st' resp i,
     newStores w start = (st', resp) → (i < reads st')%nat →
     readFails w i = true →
     resp = Failure 500 "Failed to get new shops" ∧ reads st' = S i) ∧
  (∀ c st' resp i,
     category w c start = (st', resp) → (i < reads st')%nat →
     readFails w i = true →
     resp = Failure 500 "Failed to get category shops" ∧ reads st' = S i).
Proof.
  split_and!.
  - intros userId st' resp i Hrun Hi Hf.
    eapply (handler_read_failure w); [|exact Hrun|simpl; lia|done].
    destruct userId as [uid|].
    + apply stops_bind; [apply stops_User_findById|]. intros [u|]; [|apply stops_ret].
      destruct (preferences u); [|apply stops_throw].
      apply stops_bind; [apply stops_getPersonalizedShops|].
      intros; apply stops_ret.
    + apply stops_bind; [apply stops_Shop_aggregate|]. intros; apply stops_ret.
  - intros st' resp i Hrun Hi Hf.
    eapply (handler_read_failure w); [|exact Hrun|simpl; lia|done].
    apply stops_bind; [apply stops_Shop_find|]. intros; apply stops_ret.
  - intros st' resp i Hrun Hi Hf.
    eapply (handler_read_failure w); [|exact Hrun|simpl; lia|done].
    apply stops_bind; [apply stops_Shop_find|]. intros; apply stops_ret.
  - intros c st' resp i Hrun Hi Hf.
    eapply (handler_read_failure w); [|exact Hrun|simpl; lia|done].
    apply stops_bind; [|intros; apply stops_ret].
    destruct (_ || _); apply stops_Shop_find.
Qed.

(* ===================================================================== *)
(** * Further properties of onboarding and registration                   *)
(* ===================================================================== *)

(** ** What [parseOnboardingAnswers] writes *)

Lemma setIf_keys (c v : jsval) (k : string) (l : list (string * jsval)) :
  (setIf c k v l).*1 = l.*1 ++ (if truthy c then [k] else []).
Proof.
  unfold setIf. destruct (truthy c); [|by rewrite app_nil_r].
  by rewrite fmap_app.
Qed.

Lemma sublist_optional {A} (b : bool) (x : A) (l k : list A) :
  l `sublist_of` k → (if b then [x] else []) ++ l `sublist_of` x :: k.
Proof. intros H. destruct b; simpl; by constructor. Qed.

(** X10: the parsed preferences hold only schema paths, each at most once
    and in a fixed order, and the parser's result, the preferences or the
    exception, depends on nothing but the ten answers the parser reads: any
    other field of the answers is ignored. *)
Theorem parse_reads_ten_answers (answers : jsval) :
  (∀ prefs, parseOnboardingAnswers answers = inr prefs →
     prefs.*1 `sublist_of`
       [ "style"; "budget"; "favoriteCategories"; "sizes"; "favoriteLocations";
         "shoppingFrequency"; "sustainabilityImportance"; "vintagePreference";
         "brandPreference" ]) ∧
  ∀ answers',
    (∀ k, k ∈ [ "style"; "budget"; "categories"; "sizes-tops"; "sizes-bottoms";
                "locations"; "frequency"; "sustainability";
                "vintage-preference"; "brand-preference" ] →
          getField answers' k = getField answers k) →
    parseOnboardingAnswers answers' = parseOnboardingAnswers answers.
Proof.
  split.
  - intros prefs Hp. parsed Hp. rewrite !setIf_keys. simpl.
    rewrite <-(app_nil_r (_ ++ _)), <-!app_assoc.
    repeat apply sublist_optional. done.
  - intros a' H. unfold parseOnboardingAnswers.
    rewrite (H "style"), (H "budget"), (H "categories"), (H "sizes-tops"),
      (H "sizes-bottoms"), (H "locations"), (H "frequency"), (H "sustainability"),
      (H "vintage-preference"), (H "brand-preference");
      [done|repeat (first [left|right])..].
Qed.

(** ** From the answers to the stored profile *)

Lemma buildProfile_inv (answers : jsval) (p : IUserPreferences) :
  buildProfile answers = Some p →
  ∃ prefs sp, parseOnboardingAnswers answers = inr prefs ∧
              castPreferences prefs = Some sp ∧ p = userPreferencesSchema sp.
Proof.
  unfold buildProfile. destruct (parseOnboardingAnswers answers) as [e|prefs]; [done|].
  intros (sp & Hsp & ->)%fmap_Some. eauto.
Qed.

Lemma castPreferences_paths (obj : list (string * jsval)) (sp : StoredPreferences) :
  castPreferences obj = Some sp →
  storePath castStrings obj "style" = Some (sp_style sp) ∧
  storePath castStrings obj "favoriteCategories" = Some (sp_favoriteCategories sp) ∧
  (∃ sz, subdocument obj "sizes" = Some sz ∧
         storePath castString sz "tops" = Some (sp_sizes_tops sp) ∧
         storePath castString sz "bottoms" = Some (sp_sizes_bottoms sp) ∧
         storePath castString sz "shoes" = Some (sp_sizes_shoes sp)) ∧
  storePath castStrings obj "favoriteLocations" = Some (sp_favoriteLocations sp) ∧
  storePath castString obj "shoppingFrequency" = Some (sp_shoppingFrequency sp) ∧
  storePath castScore obj "sustainabilityImportance"
    = Some (sp_sustainabilityImportance sp) ∧
  storePath castScore obj "vintagePreference" = Some (sp_vintagePreference sp) ∧
  storePath castStrings obj "aestheticVibes" = Some (sp_aestheticVibes sp).
Proof.
  unfold castPreferences. intros H.
  destruct (storePath castStrings obj "style"); simpl in H; [|done].
  destruct (castBudget obj) as [[[lo hi] cur]|]; simpl in H; [|done].
  destruct (storePath castStrings obj "favoriteCategories"); simpl in H; [|done].
  destruct (subdocument obj "sizes") as [sz|]; simpl in H; [|done].
  repeat match type of H with
         | context [storePath ?c ?o ?k ≫= _] =>
             destruct (storePath c o k) eqn:?; simpl in H; [|done]
         end.
  injection H as <-. simpl. split_and!; try done. by exists sz.
Qed.

Lemma castStrings_strings (l : list string) : castStrings (JArr (JStr <$> l)) = Some l.
Proof.
  unfold castStrings. apply mapM_Some. induction l; by constructor.
Qed.

Lemma storePath_present {T} (cast : jsval → option T) obj k v :
  assoc k obj = Some v → v ≠ JUndefined → storePath cast obj k = Some <$> cast v.
Proof. unfold storePath. intros -> ?. by destruct v. Qed.

(** X13: an answer that is an array of strings reaches the profile as it
    is, under the schema's name for it ([style], [favoriteLocations] for
    [locations], [favoriteCategories] for [categories]), and so does a
    non-empty [frequency]; onboarding never sets the aesthetic vibes. *)
Theorem answers_reach_profile (answers : jsval) (p : IUserPreferences)
    (Hp : buildProfile answers = Some p) :
  (∀ l, getField answers "style" = JArr (JStr <$> l) → style p = l) ∧
  (∀ l, getField answers "locations" = JArr (JStr <$> l) → favoriteLocations p = l) ∧
  (∀ l, getField answers "categories" = JArr (JStr <$> l) → favoriteCategories p = l) ∧
  (∀ s, getField answers "frequency" = JStr s → s ≠ "" → shoppingFrequency p = s) ∧
  aestheticVibes p = [].
Proof.
  apply buildProfile_inv in Hp as (prefs & sp & Hparse & Hsp & ->).
  apply castPreferences_paths in Hsp
    as (Hst & Hcat & _ & Hloc & Hfreq & _ & _ & Hvibes).
  split_and!.
  - intros l Hl.
    rewrite (storePath_present _ _ _ (JArr (JStr <$> l))), castStrings_strings in Hst;
      [injection Hst as Hst; simpl; by rewrite <-Hst| |done].
    by rewrite (parsed_path answers prefs "style" _ Hparse), Hl; [|repeat (first [left|right])].
  - intros l Hl.
    rewrite (storePath_present _ _ _ (JArr (JStr <$> l))), castStrings_strings in Hloc;
      [injection Hloc as Hloc; simpl; by rewrite <-Hloc| |done].
    by rewrite (parsed_path answers prefs "locations" _ Hparse), Hl; [|repeat (first [left|right])].
  - intros l Hl.
    rewrite (storePath_present _ _ _ (JArr (JStr <$> l))), castStrings_strings in Hcat;
      [injection Hcat as Hcat; simpl; by rewrite <-Hcat| |done].
    by rewrite (parsed_path answers prefs "categories" _ Hparse), Hl; [|repeat (first [left|right])].
  - intros s Hs Hne.
    rewrite (storePath_present _ _ _ (JStr s)) in Hfreq;
      [injection Hfreq as Hfreq; simpl; by rewrite <-Hfreq| |done].
    rewrite (parsed_path answers prefs "frequency" _ Hparse), Hs; [|repeat (first [left|right])].
    simpl. apply String.eqb_neq in Hne. by rewrite Hne.
  - rewrite storePath_absent in Hvibes by apply (parsed_aestheticVibes answers _ Hparse).
    injection Hvibes as Hvibes. simpl. by rewrite <-Hvibes.
Qed.

Lemma answers_reach_profile_witness :
  ∃ p, buildProfile (JObj [("locations", JArr [JStr "koramangala"]);
                           ("style", JArr [JStr "grunge"; JStr "y2k"])]) = Some p ∧
       style p = ["grunge"; "y2k"] ∧ favoriteLocations p = ["koramangala"].
Proof.
  eexists. split; [reflexivity|].
  destruct (answers_reach_profile _ _
    (eq_refl : buildProfile (JObj [("locations", JArr [JStr "koramangala"]);
                           ("style", JArr [JStr "grunge"; JStr "y2k"])]) = Some _))
    as (H1 & H2 & _).
  split; [exact (H1 ["grunge"; "y2k"] eq_refl)|exact (H2 ["koramangala"] eq_refl)].
Defined.

(** X11: sizes are stored only with a tops size: without one a bottoms
    answer is dropped and the profile keeps the default sizes; with one, a
    missing bottoms size is stored as the empty string, not as the default.
    The shoe size of a built profile is always empty. *)
Theorem sizes_need_tops (answers : jsval) (p : IUserPreferences)
    (Hp : buildProfile answers = Some p) :
  shoes (sizes p) = "" ∧
  (absent answers "sizes-tops" →
     sizes p = {| tops := "m"; bottoms := "30-32"; shoes := "" |}) ∧
  (∀ t, getField answers "sizes-tops" = JStr t → t ≠ "" →
     tops (sizes p) = t ∧
     (absent answers "sizes-bottoms" → bottoms (sizes p) = "") ∧
     (∀ b, getField answers "sizes-bottoms" = JStr b → bottoms (sizes p) = b)).
Proof.
  apply buildProfile_inv in Hp as (prefs & sp & Hparse & Hsp & ->).
  apply castPreferences_paths in Hsp
    as (_ & _ & (sz & Hsz & Htops & Hbottoms & Hshoes) & _).
  unfold subdocument in Hsz. rewrite (parsed_sizes answers prefs Hparse) in Hsz.
  unfold absent.
  cbn [sizes userPreferencesSchema tops bottoms shoes].
  destruct (truthy (getField answers "sizes-tops")) eqn:Htruthy.
  - injection Hsz as <-. simpl in Hshoes. injection Hshoes as <-.
    split; [done|]. split; [done|]. intros t Ht Hne. rewrite Ht in Htops.
    simpl in Htops. injection Htops as <-. split; [done|]. split.
    + intros Hb. unfold storePath, jsOr in Hbottoms. rewrite Hb in Hbottoms.
      simpl in Hbottoms. by injection Hbottoms as <-.
    + intros b Hb. unfold storePath, jsOr in Hbottoms. rewrite Hb in Hbottoms.
      simpl in Hbottoms. destruct (negb (b =? "")) eqn:Hbe; simpl in Hbottoms.
      * by injection Hbottoms as <-.
      * injection Hbottoms as <-. simpl.
        apply negb_false_iff, String.eqb_eq in Hbe. done.
  - injection Hsz as <-. simpl in Htops, Hbottoms, Hshoes.
    injection Htops as <-. injection Hbottoms as <-. injection Hshoes as <-.
    split; [done|]. split; [done|]. intros t Ht Hne. rewrite Ht in Htruthy.
    simpl in Htruthy. apply String.eqb_neq in Hne. by rewrite Hne in Htruthy.
Qed.

Lemma sizes_need_tops_witness :
  ∃ p, buildProfile (JObj [("sizes-bottoms", JStr "34")]) = Some p ∧
       sizes p = {| tops := "m"; bottoms := "30-32"; shoes := "" |}.
Proof.
  eexists. split; [reflexivity|].
  exact (proj1 (proj2 (sizes_need_tops (JObj [("sizes-bottoms", JStr "34")]) _
    eq_refl)) eq_refl).
Defined.

(** ** Registration and the user documents *)

Lemma find_email_None (us : list UserDoc) (email : string) :
  List.find (λ d, String.eqb (u_email d) email) us = None →
  email ∉ u_email <$> us.
Proof.
  induction us as [|d us IH]; simpl; [intros _; apply not_elem_of_nil|].
  destruct (String.eqb (u_email d) email) eqn:He; [done|].
  apply String.eqb_neq in He. rewrite not_elem_of_cons. auto.
Qed.

Lemma find_email_Some (us : list UserDoc) (email : string) (d : UserDoc) :
  d ∈ us → u_email d = email →
  is_Some (List.find (λ d, String.eqb (u_email d) email) us).
Proof.
  intros Hd He. induction us as [|d' us IH]; simpl; [by apply elem_of_nil in Hd|].
  destruct (String.eqb (u_email d') email) eqn:He'; [eauto|].
  apply elem_of_cons in Hd as [->|Hd]; [|by apply IH].
  apply String.eqb_neq in He'. done.
Qed.

(** X12: a registration leaves every stored user document as it was and
    adds at most one, at the end, with the identifier of the request, its
    e-mail as the sanitizer normalised it and its name as trimmed, a name
    that is not empty and of at most 100 characters; it adds none when it is
    rejected; a validation message is answered with 400 before any read; an
    e-mail whose normalised form a stored user has is answered with 400; and
    the e-mails of the stored users stay distinct. *)
Theorem register_store (normalizeEmail trim : string → string)
    (w : World) (newId : ObjectId) (validation : option string)
    (email name : string) (answers : jsval) (st st' : St)
    (r : RegisterResult) (us : list UserDoc)
    (Hrun : register normalizeEmail trim w newId validation email name answers st
            = (st', (r, us))) :
  ((us = users w ∧ ∃ code msg, r = Rejected code msg ∧ code ∈ [400; 500]%nat) ∨
   (∃ doc, us = users w ++ [doc] ∧ r = Created (hydrate doc) ∧
           u_id doc = newId ∧ u_email doc = normalizeEmail email ∧
           u_name doc = trim name ∧ u_name doc ≠ "" ∧
           (String.length (u_name doc) ≤ 100)%nat ∧
           u_onboardingCompleted doc = truthy answers)) ∧
  (∀ msg, validation = Some msg → r = Rejected 400 msg ∧ st' = st) ∧
  (validation = None → readFails w (reads st) = false →
   ∀ d, d ∈ users w → u_email d = normalizeEmail email →
     r = Rejected 400 "Email already registered") ∧
  (NoDup (u_email <$> users w) → NoDup (u_email <$> us)).
Proof.
  assert (∀ code msg, code ∈ [400; 500]%nat →
            (users w = users w ∧
             ∃ code' msg', Rejected code msg = Rejected code' msg' ∧
                           code' ∈ [400; 500]%nat) ∨
            (∃ doc, users w = users w ++ [doc] ∧
                    Rejected code msg = Created (hydrate doc) ∧
                    u_id doc = newId ∧ u_email doc = normalizeEmail email ∧
                    u_name doc = trim name ∧ u_name doc ≠ "" ∧
                    (String.length (u_name doc) ≤ 100)%nat ∧
                    u_onboardingCompleted doc = truthy answers)) as Hrej.
  { intros code msg Hcode. left. split; [done|]. by eexists _, _. }
  assert (400%nat ∈ [400; 500]%nat) as H400 by left.
  assert (500%nat ∈ [400; 500]%nat) as H500 by (right; left).
  revert Hrun. unfold register. destruct validation as [msg|].
  { intros [= <- <- <-]. split_and!; try done; [by apply Hrej|].
    by intros ? [= ->]. }
  run_step. destruct (readFails w (reads st)) eqn:Hfail.
  { intros [= <- <- <-]. split_and!; try done. by apply Hrej. }
  run_step. destruct (List.find _ _) as [d0|] eqn:Hfind.
  { run_step. intros [= <- <- <-]. split_and!; try done. by apply Hrej. }
  assert (∀ d, d ∈ users w → u_email d = normalizeEmail email → False) as Hfresh.
  { intros d Hd He. destruct (find_email_Some _ _ _ Hd He) as [? Hs]. congruence. }
  destruct (registrationPreferences answers) as [e|prefs];
    cbn [completion]; run_step.
  { intros [= <- <- <-]. split_and!; try done; [by apply Hrej|].
    intros _ _ d Hd He. by destruct (Hfresh d). }
  unfold User_create. destruct (nameAccepted (trim name)) eqn:Hname;
    cbn [negb]; run_step.
  2:{ intros [= <- <- <-]. split_and!; try done; [by apply Hrej|].
      intros _ _ d Hd He. by destruct (Hfresh d). }
  destruct (castPreferences _) as [sp|].
  2:{ run_step. intros [= <- <- <-]. split_and!; try done; [by apply Hrej|].
      intros _ _ d Hd He. by destruct (Hfresh d). }
  repeat (progress run_step). cbn [reads draws].
  destruct (readFails w (S (reads st))).
  { repeat (progress run_step).
    intros [= <- <- <-]. split_and!; try done; [by apply Hrej|].
    intros _ _ d Hd He. by destruct (Hfresh d). }
  repeat (progress run_step). intros [= <- <- <-]. split_and!; try done.
  - right. eexists. split; [reflexivity|]. cbn [u_id u_email u_name u_onboardingCompleted].
    unfold nameAccepted in Hname. apply andb_true_iff in Hname as [Hne Hlen].
    apply negb_true_iff, String.eqb_neq in Hne. apply Nat.leb_le in Hlen.
    split_and!; done.
  - intros _ _ d Hd He. by destruct (Hfresh d).
  - intros Hnd. rewrite fmap_app. apply NoDup_app. split; [done|]. split.
    + intros e He ->%list_elem_of_singleton.
      by apply find_email_None in Hfind.
    + apply NoDup_singleton.
Qed.

Lemma register_store_witness :
  ∃ r,
    snd (register MoreSamples.asciiLower (λ s, s)
           (Samples.world Samples.budgetCatalog Samples.never) 10%N None
           "U@Example.COM" "v" JUndefined start)
    = (r, users (Samples.world Samples.budgetCatalog Samples.never)) ∧
    r = Rejected 400 "Email already registered".
Proof.
  eexists. split; [reflexivity|].
  refine (proj1 (proj2 (proj2 (register_store MoreSamples.asciiLower (λ s, s)
    (Samples.world Samples.budgetCatalog Samples.never) 10%N None
    "U@Example.COM" "v" JUndefined start _ _ _ eq_refl))) eq_refl eq_refl
    Samples.vintageFan _ eq_refl).
  left.
Defined.

(** ** Stored scores *)

Lemma castScore_range obj k o :
  storePath castScore obj k = Some o →
  (1 <= default 3 o)%Q ∧ (default 3 o <= 5)%Q.
Proof.
  unfold storePath.
  destruct (assoc k obj) as [v|]; [|by intros [= <-]].
  assert (Some <$> castScore v = Some o → (1 <= default 3 o)%Q ∧ (default 3 o <= 5)%Q)
    as Hcast.
  { unfold castScore. destruct (castNumber v) as [q|]; simpl; [|done].
    destruct (Qle_bool 1 q && Qle_bool q 5) eqn:Hq; simpl; [|done].
    intros [= <-]. simpl. apply andb_true_iff in Hq as [H1 H2].
    by rewrite <-!Qle_bool_iff. }
  destruct v; try exact Hcast. by intros [= <-].
Qed.

Lemma putPreferences_inv w uid body st st' r us :
  putPreferences w uid body st = (st', (r, us)) →
  (∃ sp, castPreferences body = Some sp ∧ readFails w (reads st) = false ∧
         st' = {| reads := S (reads st); draws := draws st |} ∧
         us = setPreferences uid sp (users w) ∧
         r = match lookupUser (withUsers w us) uid with
             | Some d => Found (hydrate d)
             | None => Refused 404 "User not found"
             end) ∨
  (r = Refused 500 "Failed to update preferences" ∧ us = users w ∧
   ((castPreferences body = None ∧ st' = st) ∨
    (castPreferences body ≠ None ∧ readFails w (reads st) = true))).
Proof.
  unfold putPreferences, User_updatePreferences.
  destruct (castPreferences body) as [sp|];
    [|run_step; intros [= <- <- <-]; right; split_and!; auto].
  run_step. destruct (readFails w (reads st)) eqn:Hf.
  - intros [= <- <- <-]. right. split_and!; try done. right. done.
  - repeat (progress run_step). left. exists sp.
    destruct (lookupUser _ uid) as [d|] eqn:Hd; simpl in H;
      injection H as <- <- <-; by rewrite Hd.
Qed.

Lemma lookup_setPreferences (w : World) uid sp us d :
  lookupUser (withUsers w (setPreferences uid sp us)) uid = Some d →
  u_preferences d = Some sp.
Proof.
  unfold lookupUser. cbn [users withUsers].
  induction us as [|x us IH]; [done|]. cbn [setPreferences].
  destruct (N.eqb (u_id x) uid) eqn:Hx; cbn [List.find].
  - cbn [u_id]. rewrite Hx. by intros [= <-].
  - rewrite Hx. exact IH.
Qed.

Lemma castScore_refuses (obj : list (string * jsval)) (k : string) (q : Q) :
  assoc k obj = Some (JNum q) → (q < 1 ∨ 5 < q)%Q →
  storePath castScore obj k = None.
Proof.
  intros Hk Hq. unfold storePath. rewrite Hk. unfold castScore. simpl.
  destruct (Qle_bool 1 q && Qle_bool q 5) eqn:Hle; [|done]. exfalso.
  apply andb_true_iff in Hle as [H1%Qle_bool_iff H5%Qle_bool_iff].
  destruct Hq as [Hq|Hq]; [exact (Qlt_not_le _ _ Hq H1)|exact (Qlt_not_le _ _ Hq H5)].
Qed.

(** X14: the sustainability importance and the vintage preference of a user
    that a registration returns lie between 1 and 5, and so do those of a
    user that a preferences update returns when the body gives each of the
    two as a number or not at all; an update whose body gives one of them as
    a number outside 1 to 5 is refused with 500 before any read and changes
    no stored user. *)
Theorem stored_scores_in_range (w : World) :
  (∀ normalizeEmail trim newId validation email name answers st st' u us,
     register normalizeEmail trim w newId validation email name answers st
       = (st', (Created u, us)) →
     ∃ p, preferences u = Some p ∧
          (1 <= sustainabilityImportance p <= 5)%Q ∧
          (1 <= vintagePreference p <= 5)%Q) ∧
  (∀ uid body st st' u us,
     (∀ k, k ∈ ["sustainabilityImportance"; "vintagePreference"] →
           assoc k body = None ∨ ∃ q, assoc k body = Some (JNum q)) →
     putPreferences w uid body st = (st', (Found u, us)) →
     ∃ p, preferences u = Some p ∧
          (1 <= sustainabilityImportance p <= 5)%Q ∧
          (1 <= vintagePreference p <= 5)%Q) ∧
  (∀ uid body st k q,
     k ∈ ["sustainabilityImportance"; "vintagePreference"] →
     assoc k body = Some (JNum q) → (q < 1 ∨ 5 < q)%Q →
     putPreferences w uid body st
     = (st, (Refused 500 "Failed to update preferences", users w))).
Proof.
  assert (∀ obj sp, castPreferences obj = Some sp →
            (1 <= sustainabilityImportance (userPreferencesSchema sp) <= 5)%Q ∧
            (1 <= vintagePreference (userPreferencesSchema sp) <= 5)%Q) as Hrange.
  { intros obj sp (_ & _ & _ & _ & _ & Hs & Hv & _)%castPreferences_paths.
    apply castScore_range in Hs, Hv. done. }
  split_and!.
  - intros normalizeEmail trim newId validation email name answers st st' u us
      (doc & prefs & sp & _ & Hsp & Hdoc & _ & _ & _ & _ & _ & ->)%register_inv.
    eexists. split; [reflexivity|]. rewrite Hdoc. exact (Hrange _ _ Hsp).
  - intros uid body st st' u us _
      [(sp & Hsp & _ & _ & -> & Hr)|[[=] _]]%putPreferences_inv.
    destruct (lookupUser _ uid) as [d|] eqn:Hd; [|done]. injection Hr as ->.
    eexists. split; [reflexivity|].
    assert (u_preferences d = Some sp) as ->; [|exact (Hrange _ _ Hsp)].
    eapply lookup_setPreferences, Hd.
  - intros uid body st k q Hk Hbody Hq.
    assert (castPreferences body = None) as Hnone.
    { destruct (castPreferences body) as [sp|] eqn:Hsp; [|done].
      apply castPreferences_paths in Hsp as (_ & _ & _ & _ & _ & Hs & Hv & _).
      pose proof (castScore_refuses body k q Hbody Hq) as Hrefuse.
      apply elem_of_cons in Hk as [->|Hk]; [congruence|].
      apply list_elem_of_singleton in Hk as ->. congruence. }
    unfold putPreferences, User_updatePreferences. rewrite Hnone. by run_step.
Qed.

Lemma stored_scores_in_range_witness :
  ∃ u p,
    putPreferences (Samples.world Samples.budgetCatalog Samples.never) 7%N
      [("vintagePreference", JNum 4%Q)] start
    = ({| reads := 1; draws := 0 |},
       (Found u, Account.setPreferences 7%N
          (default emptyPreferences
             (castPreferences [("vintagePreference", JNum 4%Q)]))
          (users (Samples.world Samples.budgetCatalog Samples.never)))) ∧
    preferences u = Some p ∧ (vintagePreference p == 4)%Q ∧
    (1 <= vintagePreference p <= 5)%Q ∧
    putPreferences (Samples.world Samples.budgetCatalog Samples.never) 7%N
      [("vintagePreference", JNum 7%Q)] start
    = (start, (Refused 500 "Failed to update preferences",
               users (Samples.world Samples.budgetCatalog Samples.never))).
Proof.
  eexists _, _.
  assert (∀ k, k ∈ ["sustainabilityImportance"; "vintagePreference"] →
            assoc k [("vintagePreference", JNum 4%Q)] = None ∨
            ∃ q, assoc k [("vintagePreference", JNum 4%Q)] = Some (JNum q))
    as Htyped.
  { intros k [->| ->%list_elem_of_singleton]%elem_of_cons;
      [by left|right; by exists 4%Q]. }
  pose proof (proj1 (proj2 (stored_scores_in_range
    (Samples.world Samples.budgetCatalog Samples.never))) 7%N
    [("vintagePreference", JNum 4%Q)] start _ _ _ Htyped eq_refl)
    as (p & Hp & Hs & Hv).
  split; [reflexivity|]. split; [reflexivity|]. split; [reflexivity|].
  split; [injection Hp as <-; exact Hv|].
  apply (proj2 (proj2 (stored_scores_in_range
    (Samples.world Samples.budgetCatalog Samples.never))) 7%N
    [("vintagePreference", JNum 7%Q)] start "vintagePreference" 7%Q).
  - right; left.
  - reflexivity.
  - right. reflexivity.
Defined.

(** ** Updating the preferences *)

Lemma find_setPreferences_same uid sp us d :
  List.find (λ x, N.eqb (u_id x) uid) us = Some d →
  List.find (λ x, N.eqb (u_id x) uid) (setPreferences uid sp us)
  = Some {| u_id := u_id d; u_email := u_email d; u_name := u_name d;
            u_preferences := Some sp;
            u_onboardingCompleted := u_onboardingCompleted d |}.
Proof.
  induction us as [|x us IH]; [done|]. cbn [setPreferences List.find].
  destruct (N.eqb (u_id x) uid) eqn:Hx; cbn [List.find].
  - cbn [u_id]. rewrite Hx. by intros [= <-].
  - rewrite Hx. exact IH.
Qed.

Lemma find_setPreferences_other uid other sp us :
  other ≠ uid →
  List.find (λ x, N.eqb (u_id x) other) (setPreferences uid sp us)
  = List.find (λ x, N.eqb (u_id x) other) us.
Proof.
  intros Hne. induction us as [|x us IH]; [done|]. cbn [setPreferences].
  destruct (N.eqb (u_id x) uid) eqn:Hx; cbn [List.find u_id].
  - apply N.eqb_eq in Hx.
    by destruct (N.eqb (u_id x) other) eqn:Hy; [apply N.eqb_eq in Hy; congruence|].
  - by rewrite IH.
Qed.

Lemma setPreferences_absent uid sp us :
  List.find (λ x, N.eqb (u_id x) uid) us = None →
  setPreferences uid sp us = us.
Proof.
  induction us as [|x us IH]; [done|]. cbn [setPreferences List.find].
  destruct (N.eqb (u_id x) uid); [done|]. intros H. by rewrite IH.
Qed.

Lemma setPreferences_length uid sp us :
  length (setPreferences uid sp us) = length us.
Proof.
  induction us as [|x us IH]; [done|]. cbn [setPreferences].
  destruct (N.eqb (u_id x) uid); simpl; by rewrite ?IH.
Qed.

Lemma me_found (w : World) uid d st :
  readFails w (reads st) = false → lookupUser w uid = Some d →
  me w uid st = ({| reads := S (reads st); draws := draws st |}, Found (hydrate d)).
Proof.
  intros Hr Hd. unfold me, User_findById. repeat (progress run_step).
  rewrite Hr. repeat (progress run_step). by rewrite Hd.
Qed.

Lemma find_id (uid : ObjectId) (us : list UserDoc) d :
  List.find (λ x, N.eqb (u_id x) uid) us = Some d → u_id d = uid.
Proof. by intros [_ ?%N.eqb_eq]%find_some. Qed.

(** X15: a preferences update with a body of the declared types, for a stored
    user and with the store answering, replaces the whole profile: the user
    returned has the body's fields with the schema defaults for every field
    the body leaves out (whatever was stored before), keeps identifier, email,
    name and onboarding flag, no other user changes, and a later [/me] returns
    the same user. *)
Theorem preferences_update_replaces (w : World) (uid : ObjectId)
    (body : list (string * jsval)) (sp : StoredPreferences) (st : St) (d : UserDoc)
    (Hbody : castPreferences body = Some sp)
    (Hread : readFails w (reads st) = false)
    (Huser : lookupUser w uid = Some d) :
  ∃ u us,
    putPreferences w uid body st
      = ({| reads := S (reads st); draws := draws st |}, (Found u, us)) ∧
    preferences u = Some (userPreferencesSchema sp) ∧
    (assoc "style" body = None → style (userPreferencesSchema sp) = []) ∧
    (assoc "aestheticVibes" body = None →
       aestheticVibes (userPreferencesSchema sp) = []) ∧
    (assoc "vintagePreference" body = None →
       vintagePreference (userPreferencesSchema sp) = 3%Q) ∧
    user_id u = uid ∧ email u = u_email d ∧ user_name u = u_name d ∧
    onboardingCompleted u = u_onboardingCompleted d ∧
    length us = length (users w) ∧
    (∀ other, other ≠ uid →
       lookupUser (withUsers w us) other = lookupUser w other) ∧
    (∀ st2, readFails w (reads st2) = false →
       snd (me (withUsers w us) uid st2) = Found u).
Proof.
  pose proof (find_setPreferences_same uid sp _ _ Huser) as Hnew.
  eexists _, (setPreferences uid sp (users w)).
  split.
  { unfold putPreferences, User_updatePreferences. rewrite Hbody.
    repeat (progress run_step). rewrite Hread. repeat (progress run_step).
    unfold lookupUser at 1. cbn [users withUsers]. rewrite Hnew. reflexivity. }
  apply castPreferences_paths in Hbody as (Hst & _ & _ & _ & _ & _ & Hv & Hvibes).
  split_and!; try done.
  - intros Ha. unfold storePath in Hst. rewrite Ha in Hst.
    injection Hst as Hst. simpl. by rewrite <-Hst.
  - intros Ha. unfold storePath in Hvibes. rewrite Ha in Hvibes.
    injection Hvibes as Hvibes. simpl. by rewrite <-Hvibes.
  - intros Ha. unfold storePath in Hv. rewrite Ha in Hv.
    injection Hv as Hv. simpl. by rewrite <-Hv.
  - exact (find_id _ _ _ Huser).
  - apply setPreferences_length.
  - intros other Hne. unfold lookupUser. cbn [users withUsers].
    by apply find_setPreferences_other.
  - intros st2 Hr. erewrite me_found; [done|done|].
    unfold lookupUser. cbn [users withUsers]. exact Hnew.
Qed.

Lemma preferences_update_replaces_witness :
  ∃ u us,
    putPreferences (Samples.world Samples.budgetCatalog Samples.never) 7%N
      [("vintagePreference", JNum 4%Q)] start
    = ({| reads := 1; draws := 0 |}, (Found u, us)) ∧
    style <$> preferences u = Some [] ∧
    style <$> preferences (hydrate Samples.vintageFan) = Some ["vintage"].
Proof.
  destruct (preferences_update_replaces
    (Samples.world Samples.budgetCatalog Samples.never) 7%N
    [("vintagePreference", JNum 4%Q)]
    (default emptyPreferences (castPreferences [("vintagePreference", JNum 4%Q)]))
    start Samples.vintageFan eq_refl eq_refl eq_refl)
    as (u & us & Hrun & Hp & _).
  exists u, us. split; [exact Hrun|]. split; [|reflexivity].
  rewrite Hp. reflexivity.
Defined.

(** X16: a preferences update that is refused leaves every stored user as it
    was; it is refused with 404 exactly for an identifier no stored user has
    (once the body is accepted and the store answers), and with 500
    otherwise. *)
Theorem preferences_update_refused (w : World) (uid : ObjectId)
    (body : list (string * jsval)) (st st' : St) (code : nat) (msg : string)
    (us : list UserDoc)
    (Hrun : putPreferences w uid body st = (st', (Refused code msg, us))) :
  us = users w ∧
  ((code = 404%nat ∧ msg = "User not found" ∧ lookupUser w uid = None ∧
    readFails w (reads st) = false) ∨
   (code = 500%nat ∧ msg = "Failed to update preferences" ∧
    (castPreferences body = None ∨ readFails w (reads st) = true))).
Proof.
  apply putPreferences_inv in Hrun
    as [(sp & Hsp & Hread & _ & -> & Hr)|(Hr & -> & Hwhy)].
  - destruct (lookupUser w uid) as [d|] eqn:Hd.
    + unfold lookupUser in Hr at 1. cbn [users withUsers] in Hr.
      by rewrite (find_setPreferences_same uid sp _ _ Hd) in Hr.
    + split; [by apply setPreferences_absent|]. left.
      unfold lookupUser in Hr at 1. cbn [users withUsers] in Hr.
      rewrite (setPreferences_absent uid sp _ Hd) in Hr.
      unfold lookupUser in Hd. rewrite Hd in Hr. by injection Hr as <- <-.
  - injection Hr as -> ->. split; [done|]. right. split_and!; try done.
    destruct Hwhy as [[? _]|[_ ?]]; auto.
Qed.

Lemma preferences_update_refused_witness :
  snd (snd (putPreferences (Samples.world Samples.budgetCatalog Samples.never)
              9%N [] start))
  = users (Samples.world Samples.budgetCatalog Samples.never) ∧
  lookupUser (Samples.world Samples.budgetCatalog Samples.never) 9%N = None.
Proof.
  destruct (preferences_update_refused
    (Samples.world Samples.budgetCatalog Samples.never) 9%N [] start
    _ _ _ _ eq_refl) as [Hus [(_ & _ & Hnone & _)|(Hc & _)]].
  - split; [reflexivity|exact Hnone].
  - discriminate Hc.
Defined.

(** ** Registration, then the account routes *)

Lemma find_id_app (uid : ObjectId) (us : list UserDoc) (d : UserDoc) :
  List.find (λ x, N.eqb (u_id x) uid) (us ++ [d])
  = match List.find (λ x, N.eqb (u_id x) uid) us with
    | Some x => Some x
    | None => if N.eqb (u_id d) uid then Some d else None
    end.
Proof.
  induction us as [|x us IH]; [done|]. simpl.
  by destruct (N.eqb (u_id x) uid).
Qed.

Lemma find_id_None (uid : ObjectId) (us : list UserDoc) :
  (∀ d, d ∈ us → u_id d ≠ uid) →
  List.find (λ x, N.eqb (u_id x) uid) us = None.
Proof.
  intros H. destruct (List.find _ us) as [d|] eqn:Hd; [|done].
  apply find_some in Hd as [Hin ?%N.eqb_eq]. destruct (H d); [|done].
  by apply list_elem_of_In.
Qed.

(** X17: after a registration that created a user under an identifier no
    stored user had, [/me] for that identifier returns the user the
    registration returned, for as long as the store answers, and every other
    identifier finds what it found before. *)
Theorem register_then_me (normalizeEmail trim : string → string)
    (w : World) (newId : ObjectId) (validation : option string)
    (email name : string) (answers : jsval) (st st' : St) (u : IUser)
    (us : list UserDoc)
    (Hrun : register normalizeEmail trim w newId validation email name answers st
            = (st', (Created u, us)))
    (Hfresh : ∀ d, d ∈ users w → u_id d ≠ newId) :
  (∀ st2, readFails w (reads st2) = false →
     snd (me (withUsers w us) newId st2) = Found u) ∧
  (∀ other, other ≠ newId →
     lookupUser (withUsers w us) other = lookupUser w other) ∧
  (∀ st2, readFails w (reads st2) = true →
     snd (me (withUsers w us) newId st2) = Refused 500 "Failed to get user").
Proof.
  apply register_inv in Hrun as (doc & prefs & sp & _ & _ & _ & Hid & _ & _ & _ & -> & ->).
  split_and!.
  - intros st2 Hr. erewrite me_found; [done|done|].
    unfold lookupUser. cbn [users withUsers]. rewrite find_id_app.
    by rewrite (find_id_None _ _ Hfresh), Hid, N.eqb_refl.
  - intros other Hne. unfold lookupUser. cbn [users withUsers].
    rewrite find_id_app. destruct (List.find _ (users w)); [done|].
    rewrite Hid. by destruct (N.eqb newId other) eqn:He; [apply N.eqb_eq in He|].
  - intros st2 Hr. unfold me, User_findById. repeat (progress run_step).
    cbn [readFails withUsers]. by rewrite Hr.
Qed.

Lemma register_then_me_witness :
  ∃ u us,
    snd (register MoreSamples.asciiLower (λ s, s)
           (Samples.world Samples.budgetCatalog Samples.never) 10%N None
           "New@Example.com" "v" JUndefined start) = (Created u, us) ∧
    snd (me (withUsers (Samples.world Samples.budgetCatalog Samples.never) us)
           10%N start) = Found u.
Proof.
  eexists _, _. split; [reflexivity|].
  refine (proj1 (register_then_me MoreSamples.asciiLower (λ s, s)
    (Samples.world Samples.budgetCatalog Samples.never) 10%N None
    "New@Example.com" "v" JUndefined start _ _ _ eq_refl _) start eq_refl).
  intros d Hd. repeat (apply elem_of_cons in Hd as [->|Hd]; [done|]).
  by apply elem_of_nil in Hd.
Defined.

(* ===================================================================== *)
(** * Further properties: shop slugs                                        *)
(* ===================================================================== *)

Lemma dashRuns_wellDashed b l : wellDashed b (dashRuns b l).
Proof.
  revert b. induction l as [|c l IH]; intros b; [done|]. cbn [dashRuns].
  destruct (isSlugChar c) eqn:Hc.
  - cbn [wellDashed]. rewrite Hc. apply IH.
  - destruct b; [apply IH|]. cbn [wellDashed].
    change (isSlugChar dash) with false. cbv iota. auto.
Qed.

Lemma wellDashed_weaken b l : wellDashed b l → wellDashed false l.
Proof.
  destruct l as [|c l]; [done|]. cbn [wellDashed].
  destruct (isSlugChar c); [done|]. intros (? & _ & ?). auto.
Qed.

Lemma wellDashed_fixed b l : wellDashed b l → dashRuns b l = l.
Proof.
  revert b. induction l as [|c l IH]; intros b; [done|].
  cbn [wellDashed dashRuns]. destruct (isSlugChar c).
  - intros H. by rewrite (IH _ H).
  - intros (-> & -> & H). by rewrite (IH _ H).
Qed.

Lemma wellDashed_chars b l :
  wellDashed b l → Forall (λ c, isSlugChar c = true ∨ c = dash) l.
Proof.
  revert b. induction l as [|c l IH]; intros b; [constructor|].
  cbn [wellDashed]. destruct (isSlugChar c) eqn:Hc.
  - intros H. constructor; [by left|by eapply IH].
  - intros (-> & _ & H). constructor; [by right|by eapply IH].
Qed.

Lemma wellDashed_no_double b l l1 l2 :
  wellDashed b l → l ≠ l1 ++ dash :: dash :: l2.
Proof.
  intros H ->. revert b H. induction l1 as [|c l1 IH]; intros b.
  - cbn. change (isSlugChar dash) with false. cbv iota.
    by intros (_ & _ & _ & [=] & _).
  - cbn [app wellDashed]. destruct (isSlugChar c); [apply IH|].
    intros (_ & _ & H). by eapply IH.
Qed.

Lemma eqb_dash c : Ascii.eqb c dash = true → c = dash.
Proof. by intros ?%Ascii.eqb_eq. Qed.

Lemma dropLeadingDash_wellDashed l :
  wellDashed false l →
  wellDashed false (dropLeadingDash l) ∧ head (dropLeadingDash l) ≠ Some dash.
Proof.
  destruct l as [|c l]; [done|]. cbn [dropLeadingDash].
  destruct (Ascii.eqb c dash) eqn:Hc.
  - apply eqb_dash in Hc as ->. cbn [wellDashed].
    change (isSlugChar dash) with false. cbv iota. intros (_ & _ & H).
    split; [by eapply wellDashed_weaken|].
    destruct l as [|c l]; [done|]. cbn in *. intros [= ->].
    change (isSlugChar dash) with false in H. by destruct H as (_ & [=] & _).
  - intros H. split; [done|]. cbn. intros [= ->].
    by rewrite Ascii.eqb_refl in Hc.
Qed.

Lemma dropTrailingDash_wellDashed b l :
  wellDashed b l → wellDashed b (dropTrailingDash l).
Proof.
  revert b. induction l as [|c l IH]; intros b; [done|].
  destruct l as [|c' l].
  - cbn [dropTrailingDash]. by destruct (Ascii.eqb c dash).
  - change (dropTrailingDash (c :: c' :: l)) with (c :: dropTrailingDash (c' :: l)).
    cbn [wellDashed]. destruct (isSlugChar c); [apply IH|].
    intros (? & ? & H). split_and!; try done. by apply IH.
Qed.

Lemma dropTrailingDash_head l :
  head l ≠ Some dash → head (dropTrailingDash l) ≠ Some dash.
Proof.
  destruct l as [|c [|c' l]]; [done| |done].
  cbn [dropTrailingDash]. by destruct (Ascii.eqb c dash).
Qed.

Lemma dropTrailingDash_last b l :
  wellDashed b l → last (dropTrailingDash l) ≠ Some dash.
Proof.
  revert b. induction l as [|c l IH]; intros b; [done|].
  destruct l as [|c' l].
  - cbn [dropTrailingDash]. destruct (Ascii.eqb c dash) eqn:Hc; [done|].
    intros _. cbn. intros [= ->]. by rewrite Ascii.eqb_refl in Hc.
  - change (dropTrailingDash (c :: c' :: l)) with (c :: dropTrailingDash (c' :: l)).
    intros H.
    assert (wellDashed (negb (isSlugChar c)) (c' :: l)) as H'.
    { cbn [wellDashed] in H. destruct (isSlugChar c); [done|]. by destruct H as (_ & _ & ?). }
    specialize (IH _ H').
    destruct (dropTrailingDash (c' :: l)) as [|x r] eqn:Hd; [|done].
    (* the rest was one dash: then [c] is of the class *)
    destruct l as [|c'' l]; [|done]. cbn [dropTrailingDash] in Hd.
    destruct (Ascii.eqb c' dash) eqn:Hc'; [|done]. apply eqb_dash in Hc' as ->.
    cbn. intros [= ->]. cbn in H. change (isSlugChar dash) with false in H.
    by destruct H as (_ & _ & _ & [=] & _).
Qed.

Lemma filter_dashRuns b l :
  List.filter isSlugChar (dashRuns b l) = List.filter isSlugChar l.
Proof.
  revert b. induction l as [|c l IH]; intros b; [done|]. cbn [dashRuns List.filter].
  destruct (isSlugChar c) eqn:Hc.
  - cbn [List.filter]. by rewrite Hc, IH.
  - destruct b; [apply IH|]. cbn [List.filter].
    change (isSlugChar dash) with false. cbv iota. apply IH.
Qed.

Lemma filter_dropLeadingDash l :
  List.filter isSlugChar (dropLeadingDash l) = List.filter isSlugChar l.
Proof.
  destruct l as [|c l]; [done|]. cbn [dropLeadingDash].
  destruct (Ascii.eqb c dash) eqn:Hc; [|done]. by apply eqb_dash in Hc as ->.
Qed.

Lemma filter_dropTrailingDash l :
  List.filter isSlugChar (dropTrailingDash l) = List.filter isSlugChar l.
Proof.
  induction l as [|c l IH]; [done|]. destruct l as [|c' l].
  - cbn [dropTrailingDash]. destruct (Ascii.eqb c dash) eqn:Hc; [|done].
    by apply eqb_dash in Hc as ->.
  - change (dropTrailingDash (c :: c' :: l)) with (c :: dropTrailingDash (c' :: l)).
    cbn [List.filter] in *. by rewrite IH.
Qed.

Lemma trimDashes_fixed l :
  wellDashed false l → head l ≠ Some dash → last l ≠ Some dash →
  trimDashes l = l.
Proof.
  intros _ Hh Hl. unfold trimDashes.
  assert (dropLeadingDash l = l) as ->.
  { destruct l as [|c l]; [done|]. cbn [dropLeadingDash].
    destruct (Ascii.eqb c dash) eqn:Hc; [|done]. by apply eqb_dash in Hc as ->. }
  clear Hh. induction l as [|c l IH]; [done|]. destruct l as [|c' l].
  - cbn [dropTrailingDash]. destruct (Ascii.eqb c dash) eqn:Hc; [|done].
    by apply eqb_dash in Hc as ->.
  - change (dropTrailingDash (c :: c' :: l)) with (c :: dropTrailingDash (c' :: l)).
    f_equal. apply IH. by rewrite last_cons_cons in Hl.
Qed.

Lemma slug_wellDashed toLowerCase name :
  let s := String.list_ascii_of_string (getShopSlug toLowerCase name) in
  wellDashed false s ∧ head s ≠ Some dash ∧ last s ≠ Some dash.
Proof.
  unfold getShopSlug. rewrite String.list_ascii_of_string_of_list_ascii. cbv zeta.
  pose proof (dashRuns_wellDashed false
    (String.list_ascii_of_string (toLowerCase name))) as H.
  apply dropLeadingDash_wellDashed in H as [H Hh]. unfold trimDashes.
  split_and!.
  - by apply dropTrailingDash_wellDashed.
  - by apply dropTrailingDash_head.
  - by eapply dropTrailingDash_last.
Qed.

(** X18: whatever the name and the platform's lower-casing, a slug holds only
    lower-case letters, digits and dashes, neither starts nor ends with a
    dash, has no two dashes in a row, and its letters and digits are those of
    the lower-cased name, in their order. *)
Theorem slug_shape (toLowerCase : string → string) (name : string) :
  let s := String.list_ascii_of_string (getShopSlug toLowerCase name) in
  Forall (λ c, isSlugChar c = true ∨ c = dash) s ∧
  head s ≠ Some dash ∧ last s ≠ Some dash ∧
  (∀ l1 l2, s ≠ l1 ++ dash :: dash :: l2) ∧
  List.filter isSlugChar s
  = List.filter isSlugChar (String.list_ascii_of_string (toLowerCase name)).
Proof.
  destruct (slug_wellDashed toLowerCase name) as (Hw & Hh & Hl). cbv zeta.
  split_and!; try done.
  - by eapply wellDashed_chars.
  - intros l1 l2. by eapply wellDashed_no_double.
  - unfold getShopSlug, trimDashes.
    rewrite String.list_ascii_of_string_of_list_ascii.
    by rewrite filter_dropTrailingDash, filter_dropLeadingDash, filter_dashRuns.
Qed.

(** X19: where lower-casing leaves strings of lower-case letters, digits and
    dashes as they are, the slug of a slug is that slug. *)
Theorem slug_idempotent (toLowerCase : string → string) (name : string)
    (Hlower : ∀ s, Forall (λ c, isSlugChar c = true ∨ c = dash)
                     (String.list_ascii_of_string s) → toLowerCase s = s) :
  getShopSlug toLowerCase (getShopSlug toLowerCase name)
  = getShopSlug toLowerCase name.
Proof.
  destruct (slug_wellDashed toLowerCase name) as (Hw & Hh & Hl).
  cbv zeta in *.
  unfold getShopSlug at 1. rewrite Hlower by by eapply wellDashed_chars.
  rewrite (wellDashed_fixed _ _ Hw), (trimDashes_fixed _ Hw Hh Hl).
  apply String.string_of_list_ascii_of_string.
Qed.

Lemma asciiLower_fixes (s : string) :
  Forall (λ c, isSlugChar c = true ∨ c = dash) (String.list_ascii_of_string s) →
  MoreSamples.asciiLower s = s.
Proof.
  intros H. unfold MoreSamples.asciiLower.
  rewrite <-(String.string_of_list_ascii_of_string s) at 2. f_equal.
  induction H as [|c l Hc _ IH]; [done|]. cbn [fmap list_fmap]. f_equal; [|exact IH].
  assert ((65 <=? nat_of_ascii c) && (nat_of_ascii c <=? 90) = false)%nat as ->; [|done].
  destruct Hc as [Hc| ->]; [|done]. unfold isSlugChar in Hc.
  apply andb_false_iff.
  destruct (Nat.leb_spec 65 (nat_of_ascii c)), (Nat.leb_spec (nat_of_ascii c) 90);
    auto.
  exfalso. apply orb_true_iff in Hc as [Hc|Hc];
    apply andb_true_iff in Hc as [?%Nat.leb_le ?%Nat.leb_le]; lia.
Qed.

Lemma slug_idempotent_witness :
  getShopSlug MoreSamples.asciiLower "Retro  Threads & Co." = "retro-threads-co" ∧
  getShopSlug MoreSamples.asciiLower "retro-threads-co" = "retro-threads-co".
Proof.
  split; [reflexivity|].
  exact (slug_idempotent MoreSamples.asciiLower "Retro  Threads & Co."
           asciiLower_fixes).
Defined.

(* ===================================================================== *)
(** * Further properties: the authentication middleware                    *)
(* ===================================================================== *)

Lemma upToSpace_idemp (s : string) : upToSpace (upToSpace s) = upToSpace s.
Proof.
  induction s as [|c s IH]; [done|]. cbn [upToSpace].
  destruct (Ascii.eqb c space) eqn:Hc; [done|]. cbn [upToSpace].
  by rewrite Hc, IH.
Qed.

Lemma bearer_header (s : string) :
  noBearer (Some ("Bearer " +:+ s)) = false ∧
  secondSegment ("Bearer " +:+ s) = Some (upToSpace s).
Proof. split; [|done]. cbn. by destruct s. Qed.

Lemma optional_auth_agree (verify : option string → Verified)
    (authHeader : option string) (u : option ObjectId) :
  authMiddleware verify authHeader = Next u →
  optionalAuthMiddleware verify authHeader = Next u.
Proof.
  unfold optionalAuthMiddleware, authMiddleware.
  destruct (noBearer authHeader); [done|]. by destruct (verify _).
Qed.

(** X20: the optional middleware never replies: it lets every request
    through, with the identity the required middleware would set where that
    one lets the request through, and with none where that one replies;
    and the required one only ever replies 401, with one of three
    messages. *)
Theorem optional_auth_never_rejects (verify : option string → Verified)
    (authHeader : option string) :
  (∃ u, optionalAuthMiddleware verify authHeader = Next u) ∧
  (∀ u, authMiddleware verify authHeader = Next u →
        optionalAuthMiddleware verify authHeader = Next u) ∧
  (∀ code msg, authMiddleware verify authHeader = Reply code msg →
     code = 401%nat ∧
     msg ∈ ["No token provided"; "Token expired"; "Invalid token"] ∧
     optionalAuthMiddleware verify authHeader = Next None).
Proof.
  unfold optionalAuthMiddleware, authMiddleware.
  destruct (noBearer authHeader).
  { split_and!; [by eexists|done|]. intros ?? [= <- <-].
    split_and!; [done|left|done]. }
  destruct (verify _); split_and!; try done; try (by eexists).
  - intros ?? [= <- <-]. split_and!; [done|right; left|done].
  - intros ?? [= <- <-]. split_and!; [done|right; right; left|done].
Qed.

(** X21: of a header that starts with "Bearer ", the token verified is what
    stands between that first space and the next one: what follows a second
    space changes nothing, the request is let through exactly when that
    token verifies, and "No token provided" is never the answer. *)
Theorem bearer_token_segment (verify : option string → Verified) (s : string) :
  let out := authMiddleware verify (Some ("Bearer " +:+ s)) in
  out = authMiddleware verify (Some ("Bearer " +:+ upToSpace s)) ∧
  (∀ u, out = Next u ↔ verify (Some (upToSpace s)) = Decoded u) ∧
  (out = Reply 401 "Token expired"
     ↔ verify (Some (upToSpace s)) = TokenExpiredError) ∧
  (out = Reply 401 "Invalid token" ↔ verify (Some (upToSpace s)) = OtherError) ∧
  out ≠ Reply 401 "No token provided".
Proof.
  cbv zeta. unfold authMiddleware.
  destruct (bearer_header s) as [-> Hs].
  destruct (bearer_header (upToSpace s)) as [-> Hs'].
  cbn [mbind option_bind]. rewrite Hs, Hs', upToSpace_idemp.
  destruct (verify (Some (upToSpace s))); split_and!; try done;
    try (split; congruence); intros; split; congruence.
Qed.

(* ===================================================================== *)
(** * Further properties: logging in                                       *)
(* ===================================================================== *)

Lemma login_inv comparePassword generateToken normalizeEmail w validation
    email password st st' u token :
  login comparePassword generateToken normalizeEmail w validation email password st
    = (st', LoggedIn u token) →
  ∃ d, d ∈ users w ∧ u_email d = normalizeEmail email ∧
       List.find (λ x, String.eqb (u_email x) (normalizeEmail email)) (users w)
         = Some d ∧
       comparePassword d password = Some true ∧
       validation = None ∧ readFails w (reads st) = false ∧
       u = hydrate d ∧ token = generateToken (u_id d).
Proof.
  unfold login. destruct validation; [done|]. run_step.
  destruct (readFails w (reads st)); [done|]. run_step.
  destruct (List.find _ _) as [d|] eqn:Hd; [|by run_step].
  destruct (comparePassword d password) as [[]|] eqn:Hc; run_step; [|done..].
  intros [= <- <- <-]. exists d.
  pose proof Hd as [Hin He%String.eqb_eq]%find_some.
  split_and!; try done. by apply list_elem_of_In.
Qed.

Lemma find_by_id (us : list UserDoc) (d : UserDoc) :
  NoDup (u_id <$> us) → d ∈ us →
  List.find (λ x, N.eqb (u_id x) (u_id d)) us = Some d.
Proof.
  induction us as [|x us IH]; intros Hnd Hd; [by apply elem_of_nil in Hd|].
  rewrite fmap_cons in Hnd. apply NoDup_cons in Hnd as [Hx Hnd]. cbn [List.find].
  apply elem_of_cons in Hd as [->|Hd]; [by rewrite N.eqb_refl|].
  destruct (N.eqb (u_id x) (u_id d)) eqn:He; [|by apply IH].
  apply N.eqb_eq in He. destruct Hx. rewrite He. by apply list_elem_of_fmap_2.
Qed.

(** X22: a login succeeds only for a stored user whose e-mail is the given
    e-mail as the sanitizer normalised it and whose password matches, and
    returns that user with a token for that user's identifier; an e-mail
    whose normalised form no stored user has and a wrong password get the
    same reply, after the same single read of the store. *)
Theorem login_sound (comparePassword : UserDoc → string → option bool)
    (generateToken : ObjectId → string) (normalizeEmail : string → string)
    (w : World) (st : St) :
  (∀ validation email password st' u token,
     login comparePassword generateToken normalizeEmail w validation email
       password st = (st', LoggedIn u token) →
     ∃ d, d ∈ users w ∧ u_email d = normalizeEmail email ∧
          comparePassword d password = Some true ∧
          u = hydrate d ∧ token = generateToken (u_id d)) ∧
  (∀ email password email' password' d,
     readFails w (reads st) = false →
     (∀ x, x ∈ users w → u_email x ≠ normalizeEmail email) →
     d ∈ users w → u_email d = normalizeEmail email' →
     NoDup (u_email <$> users w) →
     comparePassword d password' = Some false →
     login comparePassword generateToken normalizeEmail w None email password st
     = login comparePassword generateToken normalizeEmail w None email' password' st ∧
     snd (login comparePassword generateToken normalizeEmail w None email password st)
     = Denied 401 "Invalid email or password").
Proof.
  split.
  - intros validation email password st' u token
      (d & ? & ? & _ & ? & _ & _ & ? & ?)%login_inv. by exists d.
  - intros email password email' password' d Hread Hnone Hd He Hnd Hc.
    unfold login. run_step. rewrite Hread. run_step.
    assert (List.find (λ x, String.eqb (u_email x) (normalizeEmail email)) (users w)
            = None) as ->.
    { destruct (List.find _ _) as [x|] eqn:Hx; [|done].
      apply find_some in Hx as [Hin ?%String.eqb_eq]. destruct (Hnone x); [|done].
      by apply list_elem_of_In. }
    destruct (find_email_Some _ _ _ Hd He) as [d' Hd'].
    rewrite Hd'.
    assert (d' = d) as ->.
    { pose proof Hd' as [Hin ?%String.eqb_eq]%find_some.
      apply list_elem_of_In in Hin.
      eapply (NoDup_fmap_eq u_email); eauto. congruence. }
    rewrite Hc. by run_step.
Qed.

Lemma login_sound_witness :
  login MoreSamples.secret MoreSamples.unaryToken MoreSamples.asciiLower
    (MoreSamples.worldOf [] [Samples.vintageFan] Samples.never) None
    "nobody@example.com" "secret" start
  = login MoreSamples.secret MoreSamples.unaryToken MoreSamples.asciiLower
      (MoreSamples.worldOf [] [Samples.vintageFan] Samples.never) None
      "U@EXAMPLE.COM" "guess" start.
Proof.
  refine (proj1 (proj2 (login_sound MoreSamples.secret MoreSamples.unaryToken
    MoreSamples.asciiLower
    (MoreSamples.worldOf [] [Samples.vintageFan] Samples.never) start)
    "nobody@example.com" "secret" "U@EXAMPLE.COM" "guess" Samples.vintageFan
    eq_refl _ _ eq_refl _ eq_refl)).
  - by intros x ->%list_elem_of_singleton.
  - by apply list_elem_of_singleton.
  - apply NoDup_singleton.
Defined.

(** X23: where a token the server signs for an identifier verifies to that
    identifier and holds no space, and stored identifiers are distinct, the
    token of a successful login, sent back as a bearer token, passes the
    required middleware, and [/me] then returns the user the login returned,
    for as long as the store answers. *)
Theorem login_then_me (comparePassword : UserDoc → string → option bool)
    (generateToken : ObjectId → string) (normalizeEmail : string → string)
    (verify : option string → Verified)
    (w : World) (validation : option string) (email password : string)
    (st st' : St) (u : IUser) (token : string)
    (Hjwt : ∀ id, verify (Some (generateToken id)) = Decoded (Some id))
    (Hshape : ∀ id, upToSpace (generateToken id) = generateToken id)
    (Hids : NoDup (u_id <$> users w))
    (Hlogin : login comparePassword generateToken normalizeEmail w validation
                email password st
              = (st', LoggedIn u token)) :
  authMiddleware verify (Some ("Bearer " +:+ token)) = Next (Some (user_id u)) ∧
  optionalAuthMiddleware verify (Some ("Bearer " +:+ token))
    = Next (Some (user_id u)) ∧
  ∀ st2, readFails w (reads st2) = false →
    snd (me w (user_id u) st2) = Found u.
Proof.
  apply login_inv in Hlogin as (d & Hd & _ & _ & _ & _ & _ & -> & ->).
  assert (authMiddleware verify (Some ("Bearer " +:+ generateToken (u_id d)))
          = Next (Some (u_id d))) as Hauth.
  { unfold authMiddleware. destruct (bearer_header (generateToken (u_id d))) as [-> Hs].
    cbn [mbind option_bind]. by rewrite Hs, Hshape, Hjwt. }
  split_and!; [done| |].
  - by apply optional_auth_agree.
  - intros st2 Hr. erewrite me_found; [done|done|].
    unfold lookupUser. by apply find_by_id.
Qed.

Lemma unaryToken_verifies (id : ObjectId) :
  MoreSamples.unaryVerify (Some (MoreSamples.unaryToken id)) = Decoded (Some id).
Proof.
  unfold MoreSamples.unaryVerify, MoreSamples.unaryToken. do 2 f_equal.
  rewrite <-(N2Nat.id id) at 2. f_equal.
  induction (N.to_nat id) as [|n IH]; [done|]. cbn. by rewrite IH.
Qed.

Lemma unaryToken_no_space (id : ObjectId) :
  upToSpace (MoreSamples.unaryToken id) = MoreSamples.unaryToken id.
Proof.
  unfold MoreSamples.unaryToken.
  induction (N.to_nat id) as [|n IH]; [done|]. cbn. by rewrite IH.
Qed.

Lemma login_then_me_witness :
  ∃ u token,
    login MoreSamples.secret MoreSamples.unaryToken MoreSamples.asciiLower
      (MoreSamples.worldOf [] [Samples.vintageFan] Samples.never) None
      "U@Example.com" "secret" start
    = ({| reads := 1; draws := 0 |}, LoggedIn u token) ∧
    authMiddleware MoreSamples.unaryVerify (Some ("Bearer " +:+ token))
    = Next (Some 7%N) ∧
    snd (me (MoreSamples.worldOf [] [Samples.vintageFan] Samples.never) 7%N
           {| reads := 1; draws := 0 |}) = Found u.
Proof.
  eexists _, _. split; [reflexivity|].
  destruct (login_then_me MoreSamples.secret MoreSamples.unaryToken
    MoreSamples.asciiLower MoreSamples.unaryVerify
    (MoreSamples.worldOf [] [Samples.vintageFan] Samples.never) None
    "U@Example.com" "secret" start _ _ _
    unaryToken_verifies unaryToken_no_space (NoDup_singleton _) eq_refl)
    as (Hauth & _ & Hme).
  split; [exact Hauth|]. exact (Hme {| reads := 1; draws := 0 |} eq_refl).
Defined.

(* ===================================================================== *)
(** * The further properties at work                                       *)
(* ===================================================================== *)

Lemma endpoints_read_failure_witness :
  forYou (Samples.world Samples.budgetCatalog (Samples.onlyAt 1)) (Some 7%N) start
  = ({| reads := 2; draws := 0 |}, Failure 500 "Failed to get recommendations") ∧
  Samples.onlyAt 1 1 = true.
Proof.
  split; [|reflexivity].
  destruct (proj1 (endpoints_read_failure
    (Samples.world Samples.budgetCatalog (Samples.onlyAt 1)))
    (Some 7%N) _ _ 1%nat eq_refl (le_n 2) eq_refl) as [Hresp Hreads].
  reflexivity.
Defined.

Lemma style_tag_mapper_witness :
  ∃ tags, collectTags ["vintage"; "no such vibe"; "vintage"] [] = inr tags ∧
          NoDup (uniq [] tags).
Proof.
  eexists. split; [reflexivity|].
  exact (proj1 (proj2 (proj1 (style_tag_mapper
    ["vintage"; "no such vibe"; "vintage"]) _ eq_refl))).
Defined.

Lemma parse_reads_ten_answers_witness :
  parseOnboardingAnswers
    (JObj [("style", JArr [JStr "vintage"]); ("nickname", JStr "v")])
  = parseOnboardingAnswers (JObj [("style", JArr [JStr "vintage"])]).
Proof.
  apply (proj2 (parse_reads_ten_answers (JObj [("style", JArr [JStr "vintage"])]))).
  intros k Hk.
  repeat (apply elem_of_cons in Hk as [->|Hk]; [reflexivity|]).
  by apply elem_of_nil in Hk.
Defined.

Lemma optional_auth_never_rejects_witness :
  authMiddleware (MoreSamples.onlyToken "abc" 7%N) (Some "Bearer abc extra")
  = Next (Some 7%N) ∧
  optionalAuthMiddleware (MoreSamples.onlyToken "abc" 7%N) (Some "Bearer abc extra")
  = Next (Some 7%N) ∧
  authMiddleware (MoreSamples.onlyToken "abc" 7%N) (Some "bearer abc")
  = Reply 401 "No token provided" ∧
  optionalAuthMiddleware (MoreSamples.onlyToken "abc" 7%N) (Some "bearer abc")
  = Next None.
Proof.
  split; [reflexivity|]. split.
  - exact (proj1 (proj2 (optional_auth_never_rejects
      (MoreSamples.onlyToken "abc" 7%N) (Some "Bearer abc extra")))
      (Some 7%N) eq_refl).
  - split; [reflexivity|].
    exact (proj2 (proj2 (proj2 (proj2 (optional_auth_never_rejects
      (MoreSamples.onlyToken "abc" 7%N) (Some "bearer abc")))
      401%nat "No token provided" eq_refl))).
Defined.

(* ===================================================================== *)
(** * How many shops a section holds                                       *)
(* ===================================================================== *)

(** C8, as stated, fails for the section a category request returns: with
    six active shops, none of them tagged for the category, it is empty. *)
Lemma category_section_below_six :
  length (filter (λ s, isActive s) MoreSamples.sixBudget) = 6%nat ∧
  is_Some (assoc "denim" categoryTagMap) ∧
  snd (category (MoreSamples.worldOf MoreSamples.sixBudget [] Samples.never)
         "denim" start)
  = Success (Shops []).
Proof. split; [reflexivity|]. split; [by eexists|reflexivity]. Qed.

(** C8, amended: with at least six active shops every section of a
    [/sections] response, the section of a [/for-you] response and the lists
    of [/trending] and [/new] hold at least six items; the list of a category
    holds the active shops that carry one of the category's tags, up to
    twelve, and so at least six when six of them do.  The content-match
    scorer appends to fewer than six matches a sample of [6 - count] shops,
    or of all that are left, taken among the active shops whose identifier is
    not yet selected; it returns fewer than six shops only when every active
    shop is in the result; and when the reads succeed a shortfall of the
    catalog is no error. *)
Theorem minimum_section_size (w : World) (Hids : NoDup (_id <$> shops w)) :
  (∀ userId st' secs sec,
     sections w userId start = (st', Success (Sections secs)) →
     (6 ≤ length (filter (λ s, isActive s) (shops w)))%nat →
     sec ∈ secs → (6 ≤ length (items sec))%nat) ∧
  (∀ userId st' sec,
     forYou w userId start = (st', Success (OneSection sec)) →
     (6 ≤ length (filter (λ s, isActive s) (shops w)))%nat →
     (6 ≤ length (items sec))%nat) ∧
  (∀ prefs st st' result,
     run (getPersonalizedShops w prefs) st = (st', inr result) →
     ∃ tags, collectTags (style prefs) [] = inr tags ∧
       let matched := contentMatches (shops w) prefs tags in
       let extra := backfill w (draws st) matched in
       result = matched ++ extra ∧
       ((length matched < 6)%nat →
          length extra
          = (6 - length matched) `min`
              length (samplePool (shops w) (Some (_id <$> matched)))) ∧
       (∀ s, s ∈ extra →
          isActive s = true ∧ (_id s ∉ _id <$> matched) ∧ s ∈ shops w) ∧
       (6 `min` length (filter (λ s, isActive s) (shops w)) ≤ length result)%nat ∧
       ((length result < 6)%nat →
          ∀ s, s ∈ shops w → isActive s = true → _id s ∈ _id <$> result)) ∧
  (∀ prefs tags st,
     collectTags (style prefs) [] = inr tags → reliable w →
     ∃ st' result, run (getPersonalizedShops w prefs) st = (st', inr result)) ∧
  (∀ st' res,
     trending w start = (st', Success (Shops res)) ∨
     newStores w start = (st', Success (Shops res)) →
     (6 ≤ length (filter (λ s, isActive s) (shops w)))%nat →
     (6 ≤ length res)%nat) ∧
  (∀ c tags st' res,
     assoc c categoryTagMap = Some tags → tags ≠ [] →
     category w c start = (st', Success (Shops res)) →
     length res
     = 12 `min` length (filter (λ s, isActive s = true ∧ tag s ∈ tags) (shops w))).
Proof.
  split; [|split; [|split; [|split; [|split]]]].
  - intros userId st' secs sec Hrun%sections_inv Hsix Hsec.
    apply sectionsBody_inv in Hrun as (fy & -> & Hfy).
    apply elem_of_app in Hsec as [Hsec|Hsec].
    + destruct (userId ≫= lookupUser w) as [d|];
        [|subst fy; by apply elem_of_nil in Hsec].
      destruct Hfy as (tags & pos & _ & ->).
      apply list_elem_of_singleton in Hsec as ->. simpl. rewrite length_fmap.
      pose proof (personalized_length w pos (profileOf d) tags Hids). lia.
    + apply elem_of_cons in Hsec as [->|Hsec];
        [|apply list_elem_of_singleton in Hsec as ->];
        simpl; rewrite length_fmap, findShops_length, active_filter; lia.
  - intros [uid|] st' sec.
    + intros (d & tags & _ & _ & ->)%forYou_inv Hsix. simpl. rewrite length_fmap.
      pose proof (personalized_length w 0 (profileOf d) tags Hids). lia.
    + intros ->%forYou_anonymous_inv Hsix. unfold anonymousSection. cbn [items].
      rewrite length_fmap, sample_length. unfold samplePool. fold active.
      rewrite active_filter. lia.
  - intros prefs st st' result (tags & Htags & ->)%getPersonalizedShops_inv.
    exists tags. split; [done|]. simpl. split; [done|]. split; [|split; [|split]].
    + apply backfill_length.
    + intros s Hs. by apply backfill_elem_of in Hs.
    + by apply personalized_length.
    + intros Hlen s. by apply personalized_exhausts.
  - intros prefs tags st Htags Hrel.
    destruct (getPersonalizedShops_ok w prefs tags st Htags Hrel) as (st' & Hrun & _).
    eauto.
  - intros st' res Hrun Hsix.
    assert (readFails w 0 = false) as Hread.
    { destruct (readFails w 0) eqn:Hf; [exfalso|done].
      destruct Hrun as [Hrun|Hrun]; revert Hrun;
        unfold trending, newStores, handler, Shop_find; simpl; by rewrite Hf. }
    destruct Hrun as [Hrun|Hrun].
    + rewrite (trending_ok w Hread) in Hrun. injection Hrun as _ <-.
      rewrite findShops_length, active_filter. lia.
    + rewrite (newStores_ok w Hread) in Hrun. injection Hrun as _ <-.
      rewrite findShops_length, active_filter. lia.
  - intros c tags st' res Hc Hne Hrun.
    assert (readFails w 0 = false) as Hread.
    { destruct (readFails w 0) eqn:Hf; [exfalso|done]. revert Hrun.
      unfold category, handler, categoryTags, getProp. rewrite Hc.
      assert (lengthIsZero (PArray tags) = false) as -> by (by destruct tags).
      rewrite orb_false_r. destruct (String.eqb c "trending");
        unfold Shop_find, castQuery; simpl; by rewrite Hf. }
    rewrite (category_tagged_ok w c tags Hc Hne Hread) in Hrun.
    injection Hrun as _ <-. rewrite findShops_length. f_equal.
    erewrite (list_filter_iff _ (λ s, isActive s = true ∧ tag s ∈ tags)); [done|].
    intros s. unfold matches; simpl.
    rewrite Is_true_true, !andb_true_r, andb_true_iff, bool_decide_eq_true. tauto.
Qed.

Lemma minimum_section_size_witness :
  ∃ st' result,
    run (getPersonalizedShops (Samples.world Samples.budgetCatalog Samples.never)
           (profileOf Samples.vintageFan)) start = (st', inr result).
Proof.
  refine (proj1 (proj2 (proj2 (proj2 (minimum_section_size
    (Samples.world Samples.budgetCatalog Samples.never) _))))
    (profileOf Samples.vintageFan) _ start eq_refl _).
  - apply (bool_decide_unpack _). by vm_compute.
  - intros i. reflexivity.
Defined.

(* ===================================================================== *)
(** * Where the code misses the claim                                      *)
(* ===================================================================== *)

Lemma find_email_fresh (us : list UserDoc) (email : string) :
  (∀ d, d ∈ us → u_email d ≠ email) →
  List.find (λ d, String.eqb (u_email d) email) us = None.
Proof.
  intros Hfresh. destruct (List.find _ us) as [x|] eqn:Hx; [|done].
  apply find_some in Hx as [Hin ?%String.eqb_eq]. destruct (Hfresh x); [|done].
  by apply list_elem_of_In.
Qed.

(** C6 at a budget answer that is an object with an own [toString]
    property: the answer names no bracket, but the lookup
    [budgetMap[answers.budget]] throws when it turns the answer into a key.
    The parser throws, no profile is built, and a registration with these
    answers is answered 500 and stores nothing, whereas answers without a
    budget answer are parsed and give the default budget. *)
Theorem budget_object_answer_throws (answers : jsval)
    (fields : list (string * jsval))
    (Hbudget : getField answers "budget" = JObj fields)
    (Hown : is_Some (assoc "toString" fields)) :
  bracket answers = None ∧
  parseOnboardingAnswers answers = inl TypeError ∧
  buildProfile answers = None ∧
  (∀ normalizeEmail trim w newId email name st,
     readFails w (reads st) = false →
     (∀ d, d ∈ users w → u_email d ≠ normalizeEmail email) →
     register normalizeEmail trim w newId None email name answers st
     = ({| reads := S (reads st); draws := draws st |},
        (Rejected 500 "Failed to create account", users w))) ∧
  (∀ answers', absent answers' "budget" →
     (∃ prefs, parseOnboardingAnswers answers' = inr prefs) ∧
     ∀ p, buildProfile answers' = Some p → budget p = defaultBudget).
Proof.
  assert (toKey (JObj fields) = KeyTypeError) as Hkey.
  { cbn [toKey]. by rewrite bool_decide_eq_true_2. }
  assert (parseOnboardingAnswers answers = inl TypeError) as Hparse.
  { unfold parseOnboardingAnswers, spreadBracket. rewrite Hbudget, Hkey. done. }
  split_and!.
  - unfold bracket. by rewrite Hbudget, Hkey.
  - done.
  - unfold buildProfile. by rewrite Hparse.
  - intros normalizeEmail trim w newId email name st Hread Hfresh.
    unfold register. run_step. rewrite Hread. run_step.
    rewrite (find_email_fresh _ _ Hfresh).
    assert (registrationPreferences answers = inl TypeError) as ->.
    { unfold registrationPreferences. rewrite Hparse.
      destruct answers; try done. }
    cbn [completion]. by run_step.
  - intros answers' Habs.
    destruct (parse_absent_budget answers' Habs) as [prefs Hp].
    split; [by exists prefs|]. intros p Hbuilt.
    destruct (profile_defaults answers' prefs Hp) as (_ & Hdef & Hb & _).
    destruct (Hb p Hbuilt) as [-> _]. by apply Hdef.
Qed.

Lemma budget_object_answer_throws_witness :
  register MoreSamples.asciiLower (λ s, s)
    (Samples.world Samples.budgetCatalog Samples.never) 10%N None
    "new@example.com" "v"
    (JObj [("budget", JObj [("toString", JNum 1%Q)])]) start
  = ({| reads := 1; draws := 0 |},
     (Rejected 500 "Failed to create account",
      users (Samples.world Samples.budgetCatalog Samples.never))) ∧
  ∃ u, fst (snd (register MoreSamples.asciiLower (λ s, s)
                   (Samples.world Samples.budgetCatalog Samples.never) 10%N None
                   "new@example.com" "v" (JObj []) start)) = Created u ∧
       budget <$> preferences u = Some defaultBudget.
Proof.
  split.
  - refine (proj1 (proj2 (proj2 (proj2 (budget_object_answer_throws
      (JObj [("budget", JObj [("toString", JNum 1%Q)])])
      [("toString", JNum 1%Q)] eq_refl _))))
      MoreSamples.asciiLower (λ s, s)
      (Samples.world Samples.budgetCatalog Samples.never) 10%N
      "new@example.com" "v" start eq_refl _).
    + by eexists.
    + intros d Hd. repeat (apply elem_of_cons in Hd as [->|Hd]; [done|]).
      by apply elem_of_nil in Hd.
  - eexists. split; reflexivity.
Defined.

(** C10 at a stored user one of whose style vibes names a member the style
    table inherits.  A stored user always passes the profile gate of
    [/sections]: with the store answering, the response starts with the For
    You section whenever every vibe of the profile is a key of the table or
    names nothing in it, a user who skipped onboarding included; but when a
    vibe is no key and names an inherited member, the scorer throws and the
    response is the 500 failure, with no section at all. *)
Theorem forYou_section_lost (w : World) (uid : ObjectId) (d : UserDoc)
    (Huser : lookupUser w uid = Some d) (Hrel : reliable w) :
  ((∀ s, s ∈ style (profileOf d) →
         is_Some (assoc s styleToTagMap) ∨ inherited s = PUndefined) →
   ∃ st' fy tr nw,
     sections w (Some uid) start = (st', Success (Sections [fy; tr; nw])) ∧
     title fy = "For You" ∧ type_ fy = "for-you") ∧
  (profileOf d = defaultPreferences →
   ∃ st' tr nw,
     sections w (Some uid) start
     = (st', Success (Sections
          [forYouSection (findShops (shops w) active byRatingThenReviews 12);
           tr; nw]))) ∧
  (∀ s, s ∈ style (profileOf d) → assoc s styleToTagMap = None →
        inherited s ≠ PUndefined →
   sections w (Some uid) start
   = ({| reads := 1; draws := 0 |}, Failure 500 "Failed to get explore sections")).
Proof.
  split_and!.
  - intros Hstyles.
    destruct (collectTags (style (profileOf d)) []) as [e|tags] eqn:Htags.
    { apply collectTags_inl in Htags as [_ (s & Hs & Hown & Hinh)].
      destruct (Hstyles s Hs) as [[l Hl]|Hu]; congruence. }
    destruct (sections_member_ok w uid d tags Hrel Huser Htags) as [st' Hrun].
    exists st'. eexists _, _, _. split; [exact Hrun|]. done.
  - intros Hdef.
    destruct (sections_member_ok w uid d [] Hrel Huser) as [st' Hrun];
      [by rewrite Hdef|].
    exists st'. eexists _, _. rewrite Hrun. repeat f_equal.
    unfold contentMatches, contentQuery. rewrite Hdef. simpl. fold active.
    by rewrite backfill_unrestricted, app_nil_r.
  - intros s Hs Hown Hinh.
    assert (collectTags (style (profileOf d)) [] = inl TypeError) as Hthrow.
    { apply collectTags_inl. split; [done|]. by exists s. }
    unfold sections, handler, sectionsBody, User_findById. run_step.
    rewrite Hrel. run_step. rewrite Huser. simpl. fold (profileOf d).
    run_step. by rewrite (getPersonalizedShops_throws w _ TypeError).
Qed.

Lemma forYou_section_lost_witness :
  ∃ u us,
    snd (register MoreSamples.asciiLower (λ s, s)
           (MoreSamples.worldOf Samples.budgetCatalog [] Samples.never) 9%N None
           "new@example.com" "v" (JObj [("style", JArr [JStr "toString"])]) start)
    = (Created u, us) ∧
    style <$> preferences u = Some ["toString"] ∧
    sections (MoreSamples.worldOf Samples.budgetCatalog us Samples.never)
      (Some 9%N) start
    = ({| reads := 1; draws := 0 |}, Failure 500 "Failed to get explore sections").
Proof.
  eexists _, _. split; [reflexivity|]. split; [reflexivity|].
  match goal with
  | |- sections ?W _ _ = _ =>
      apply (proj2 (proj2 (forYou_section_lost W 9%N _ eq_refl (λ _, eq_refl)))
               "toString")
  end.
  - left.
  - reflexivity.
  - discriminate.
Defined.
